(** * Streaming chat session engine of [js/chat.js]

    A shallow embedding of the storage manager, the SSE stream processor
    and the chat controller of [src/js/chat.js], and the properties of the
    specification that were settled against it.

    JavaScript strings are sequences of UTF-16 code units; a code unit is
    an [N].  The built-ins the code calls but does not define
    ([JSON.parse], [JSON.stringify], IEEE-754 number operations) are the
    fields of the class [Engine]; every theorem holds for every engine.
    [RefEngine] is one engine, with a full JSON grammar and exact decimal
    numbers, on which the closed examples are evaluated. *)

From Stdlib Require Import NArith ZArith Ascii String DecimalString List Bool Lia.
From stdpp Require Import base option list gmap.

Local Open Scope N_scope.
Local Open Scope list_scope.
Local Set Warnings "-register-all".

(* ================================================================== *)
(** * Strings *)
(* ================================================================== *)

Abbreviation jsstring := (list N).

(** UTF-8 bytes to UTF-16 code units (U+FFFD for a truncated
    sequence). *)
Fixpoint utf8_to_utf16 (bytes : list N) : jsstring :=
  match bytes with
  | [] => []
  | b0 :: r0 =>
      if b0 <? 128 then b0 :: utf8_to_utf16 r0
      else
        match r0 with
        | [] => [65533]
        | b1 :: r1 =>
            if b0 <? 224 then
              ((b0 - 192) * 64 + (b1 - 128)) :: utf8_to_utf16 r1
            else
              match r1 with
              | [] => [65533]
              | b2 :: r2 =>
                  if b0 <? 240 then
                    ((b0 - 224) * 4096 + (b1 - 128) * 64 + (b2 - 128))
                      :: utf8_to_utf16 r2
                  else
                    match r2 with
                    | [] => [65533]
                    | b3 :: r3 =>
                        let cp := (b0 - 240) * 262144 + (b1 - 128) * 4096
                                  + (b2 - 128) * 64 + (b3 - 128) in
                        (55296 + (cp - 65536) / 1024)
                          :: (56320 + (cp - 65536) mod 1024)
                          :: utf8_to_utf16 r3
                    end
              end
        end
  end.

(** A string literal of the source, as code units. *)
Definition js (s : string) : jsstring :=
  utf8_to_utf16 (map N_of_ascii (list_ascii_of_string s)).

(** [String(n)] for a natural number. *)
Definition decimal (n : N) : jsstring :=
  js (NilZero.string_of_uint (N.to_uint n)).

(** The same, with every apostrophe of the literal standing for a
    double quote (to write JSON text). *)
Definition jq (s : string) : jsstring :=
  map (fun c => if c =? 39 then 34 else c) (js s).

Definition LF : N := 10.
Definition CR : N := 13.

Fixpoint jsstring_eqb (a b : jsstring) : bool :=
  match a, b with
  | [], [] => true
  | x :: a', y :: b' => (x =? y) && jsstring_eqb a' b'
  | _, _ => false
  end.

(** ECMAScript WhiteSpace and LineTerminator code units, the ones
    [String.prototype.trim] removes. *)
Definition is_white_space (c : N) : bool :=
  (c =? 9) || (c =? 10) || (c =? 11) || (c =? 12) || (c =? 13) ||
  (c =? 32) || (c =? 160) || (c =? 5760) ||
  ((8192 <=? c) && (c <=? 8202)) ||
  (c =? 8232) || (c =? 8233) || (c =? 8239) || (c =? 8287) ||
  (c =? 12288) || (c =? 65279).

Fixpoint trimStart (s : jsstring) : jsstring :=
  match s with
  | [] => []
  | c :: s' => if is_white_space c then trimStart s' else s
  end.

Definition trimEnd (s : jsstring) : jsstring := rev (trimStart (rev s)).

(** [s.trim()] *)
Definition trim (s : jsstring) : jsstring := trimEnd (trimStart s).

(** [s.startsWith(p)] *)
Fixpoint startsWith (s p : jsstring) : bool :=
  match p, s with
  | [], _ => true
  | y :: p', x :: s' => (x =? y) && startsWith s' p'
  | _ :: _, [] => false
  end.

(** [s.slice(n)] for [0 <= n] *)
Definition slice (n : nat) (s : jsstring) : jsstring := skipn n s.

(** [s.split(sep)] for a one-code-unit separator: never the empty list. *)
Fixpoint split (sep : N) (s : jsstring) : list jsstring :=
  match s with
  | [] => [[]]
  | c :: s' =>
      if c =? sep then [] :: split sep s'
      else match split sep s' with
           | l :: ls => (c :: l) :: ls
           | [] => [[c]]
           end
  end.

(** [lines.pop()] on a non-empty array: the array that is left and the
    element that was removed. *)
Definition pop (lines : list jsstring) : list jsstring * jsstring :=
  (removelast lines, List.last lines []).

Definition is_line_break (c : N) : bool := (c =? CR) || (c =? LF).

(** [s.replace(/^[\r\n]+/, '')] *)
Fixpoint strip_leading_newlines (s : jsstring) : jsstring :=
  match s with
  | [] => []
  | c :: s' => if is_line_break c then strip_leading_newlines s' else s
  end.

(* ================================================================== *)
(** * Configuration: [CHAT_CONFIG] *)
(* ================================================================== *)

Module CHAT_CONFIG.
Module STORAGE_KEYS.
Definition API_KEY : jsstring := js "arkApiKey".
Definition CHAT_HISTORY : jsstring := js "chatHistory".
End STORAGE_KEYS.
Module API.
Definition SYSTEM_PROMPT : jsstring := js "你是 AI 人工智能助手。".
End API.
Module SSE.
Definition DATA_PREFIX : jsstring := js "data: ".
Definition DONE_MESSAGE : jsstring := js "[DONE]".
End SSE.
End CHAT_CONFIG.

(* ================================================================== *)
(** * JavaScript values *)
(* ================================================================== *)

(** The values [JSON.parse] produces, and [undefined].  An object is its
    own properties in insertion order, every key once. *)
Inductive JSValue (number : Type) : Type :=
| JSUndefined
| JSNull
| JSBool (b : bool)
| JSNumber (n : number)
| JSString (s : jsstring)
| JSArray (elements : list (JSValue number))
| JSObject (fields : list (jsstring * JSValue number)).

Arguments JSUndefined {number}.
Arguments JSNull {number}.
Arguments JSBool {number} b.
Arguments JSNumber {number} n.
Arguments JSString {number} s.
Arguments JSArray {number} elements.
Arguments JSObject {number} fields.

(** The built-ins of the JavaScript engine that the code relies on.
    Numbers are IEEE-754 doubles in a real engine; the embedding only
    needs the operations below.  [JSON_parse] is [None] where
    [JSON.parse] throws a [SyntaxError]. *)
Class Engine := {
  number : Type;
  number_is_falsy : number -> bool;          (* +0, -0, NaN *)
  number_nan : number;
  number_of_bool : bool -> number;           (* ToNumber: 1, +0 *)
  number_add : number -> number -> number;
  number_to_string : number -> jsstring;     (* Number::toString *)
  JSON_parse : jsstring -> option (JSValue number);
  JSON_stringify : JSValue number -> jsstring
}.

Abbreviation value := (JSValue number).

Section Values.
Context `{Engine}.

Definition empty_string : value := JSString [].

(** ToBoolean *)
Definition truthy (v : value) : bool :=
  match v with
  | JSUndefined | JSNull => false
  | JSBool b => b
  | JSNumber n => negb (number_is_falsy n)
  | JSString s => match s with [] => false | _ => true end
  | JSArray _ | JSObject _ => true
  end.

Fixpoint join (sep : jsstring) (parts : list jsstring) : jsstring :=
  match parts with
  | [] => []
  | [p] => p
  | p :: rest => p ++ sep ++ join sep rest
  end.

(** ToString; an array is its elements joined by commas, with
    [undefined] and [null] elements contributing nothing. *)
Fixpoint to_string (v : value) : jsstring :=
  match v with
  | JSUndefined => js "undefined"
  | JSNull => js "null"
  | JSBool b => if b then js "true" else js "false"
  | JSNumber n => number_to_string n
  | JSString s => s
  | JSArray l =>
      join (js ",")
        ((fix elements (l : list value) : list jsstring :=
            match l with
            | [] => []
            | e :: l' =>
                match e with
                | JSUndefined | JSNull => []
                | _ => to_string e
                end :: elements l'
            end) l)
  | JSObject _ => js "[object Object]"
  end.

(** ToPrimitive without a hint: arrays and plain objects become their
    string.  This is the conversion of the objects that have no
    member named [toString] of their own; on an object that has one
    (which [JSON.parse] never makes callable) the conversion throws,
    and such operands are outside this definition. *)
Definition to_primitive (v : value) : value :=
  match v with
  | JSArray _ | JSObject _ => JSString (to_string v)
  | _ => v
  end.

(** ToNumber of a primitive that is not a string. *)
Definition to_number (v : value) : number :=
  match v with
  | JSNull => number_of_bool false
  | JSBool b => number_of_bool b
  | JSNumber n => n
  | _ => number_nan
  end.

Definition is_string (v : value) : bool :=
  match v with JSString _ => true | _ => false end.

(** The binary [+]: concatenation as soon as one primitive operand is
    a string, numeric addition otherwise. *)
Definition js_add (a b : value) : value :=
  let pa := to_primitive a in
  let pb := to_primitive b in
  if is_string pa || is_string pb
  then JSString (to_string pa ++ to_string pb)
  else JSNumber (number_add (to_number pa) (to_number pb)).

(** [a || b] *)
Definition js_or (a b : value) : value := if truthy a then a else b.

Fixpoint lookup_field (key : jsstring) (fields : list (jsstring * value))
  : option value :=
  match fields with
  | [] => None
  | (k, v) :: rest =>
      if jsstring_eqb k key then Some v else lookup_field key rest
  end.

(** [v.key] for a key that no prototype defines ([choices], [delta],
    [content], [reasoning_content], [role]).  [None] is the
    [TypeError] of reading a property of [undefined] or [null]. *)
Definition get_member (v : value) (key : jsstring) : option value :=
  match v with
  | JSUndefined | JSNull => None
  | JSObject fields => Some (default JSUndefined (lookup_field key fields))
  | _ => Some JSUndefined
  end.

(** [v[0]] *)
Definition get_index0 (v : value) : option value :=
  match v with
  | JSUndefined | JSNull => None
  | JSArray l => Some (match l with e :: _ => e | [] => JSUndefined end)
  | JSString s => Some (match s with c :: _ => JSString [c] | [] => JSUndefined end)
  | JSObject fields => Some (default JSUndefined (lookup_field (js "0") fields))
  | _ => Some JSUndefined
  end.

(** [v?.key] *)
Definition get_member_opt (v : value) (key : jsstring) : option value :=
  match v with
  | JSUndefined | JSNull => Some JSUndefined
  | _ => get_member v key
  end.
End Values.

(* ================================================================== *)
(** * StreamProcessor *)
(* ================================================================== *)

(** What a [reader] delivers: chunks of decoded text, then completion or
    a read failure. *)
Inductive Reader (error : Type) : Type :=
| Done
| Read (chunk : jsstring) (rest : Reader error)
| Fail (e : error).

Arguments Done {error}.
Arguments Read {error} chunk rest.
Arguments Fail {error} e.

Fixpoint reader_of_chunks {error} (chunks : list jsstring) : Reader error :=
  match chunks with
  | [] => Done
  | c :: cs => Read c (reader_of_chunks cs)
  end.

Module StreamProcessor.
Section StreamProcessor.
Context `{Engine}.

(** [extractContent(delta)] *)
Definition extractContent (delta : value) : value :=
  if negb (truthy delta) then empty_string
  else
    match get_member delta (js "content"),
          get_member delta (js "reasoning_content") with
    | Some c, Some r =>
        let content := js_or c empty_string in
        let reasoning := js_or r empty_string in
        js_add reasoning content
    | _, _ => empty_string  (* unreachable: [delta] is truthy *)
    end.

(** The body of the [try] of [parseSSELine]; [None] when it throws. *)
Definition parse_data (trimmedLine : jsstring) : option value :=
  let dataStr := slice (length CHAT_CONFIG.SSE.DATA_PREFIX) trimmedLine in
  data ← JSON_parse dataStr;
  choices ← get_member data (js "choices");
  choice ← get_index0 choices;
  delta ← get_member_opt choice (js "delta");
  Some (extractContent delta).

(** [parseSSELine(line)]; the [console.warn] of the [catch] is not
    part of the result. *)
Definition parseSSELine (line : jsstring) : value :=
  let trimmedLine := trim line in
  if negb (truthy (JSString trimmedLine)) ||
     jsstring_eqb trimmedLine
       (CHAT_CONFIG.SSE.DATA_PREFIX ++ CHAT_CONFIG.SSE.DONE_MESSAGE)
  then empty_string
  else if startsWith trimmedLine CHAT_CONFIG.SSE.DATA_PREFIX then
    match parse_data trimmedLine with
    | Some content => content
    | None => empty_string
    end
  else empty_string.

(** The local variables of [processStream] that live across reads, and
    the arguments [onChunk] has been called with, oldest first. *)
Record State := {
  fullResponse : jsstring;
  buffer : jsstring;
  isFirstContent : bool;
  onChunk_calls : list jsstring
}.

Definition initial : State :=
  {| fullResponse := []; buffer := []; isFirstContent := true;
     onChunk_calls := [] |}.

(** The [for] loop over the complete lines of one read. *)
Definition lines_content (lines : list jsstring) : jsstring :=
  fold_left
    (fun chunkContent line =>
       let content := parseSSELine line in
       if truthy content then chunkContent ++ to_string content
       else chunkContent)
    lines [].

(** One turn of the [while] loop, for a read that delivered [chunk]. *)
Definition consume (st : State) (chunk : jsstring) : State :=
  let buffer1 := buffer st ++ chunk in
  let '(lines, buffer2) := pop (split LF buffer1) in
  let chunkContent := lines_content lines in
  if truthy (JSString chunkContent) then
    let chunkContent' :=
      if isFirstContent st then strip_leading_newlines chunkContent
      else chunkContent in
    let full := fullResponse st ++ chunkContent' in
    {| fullResponse := full; buffer := buffer2; isFirstContent := false;
       onChunk_calls := onChunk_calls st ++ [full] |}
  else
    {| fullResponse := fullResponse st; buffer := buffer2;
       isFirstContent := isFirstContent st;
       onChunk_calls := onChunk_calls st |}.

(** The [while] loop from a given state: the state at completion, or
    the error of the failed read. *)
Fixpoint pump {error} (st : State) (reader : Reader error) : error + State :=
  match reader with
  | Done => inr st
  | Read chunk rest => pump (consume st chunk) rest
  | Fail e => inl e
  end.

(** [processStream(reader, onChunk, onComplete)]: either the error it
    rethrows, or the calls of [onChunk] and the argument of
    [onComplete]. *)
Definition processStream {error} (reader : Reader error)
  : error + (list jsstring * jsstring) :=
  match pump initial reader with
  | inl e => inl e
  | inr st => inr (onChunk_calls st, fullResponse st)
  end.

(** The text handed to [onComplete] when the reads deliver [chunks]
    and then completion. *)
Definition final_text (chunks : list jsstring) : jsstring :=
  fullResponse (fold_left consume chunks initial).

(** ** Vocabulary of the decoder's properties *)

(** The text one line adds to the reply. *)
Definition fragment (line : jsstring) : jsstring :=
  let content := parseSSELine line in
  if truthy content then to_string content else [].

(** The lines of a text that a newline terminates, and what follows
    the last newline. *)
Definition complete_lines (s : jsstring) : list jsstring :=
  removelast (split LF s).
Definition tail_line (s : jsstring) : jsstring := List.last (split LF s) [].

(** The fragments of a whole stream, one per terminated line. *)
Definition fragments (stream : jsstring) : list jsstring :=
  map fragment (complete_lines stream).

Fixpoint first_nonempty (l : list jsstring) : jsstring :=
  match l with
  | [] => []
  | [] :: l' => first_nonempty l'
  | x :: _ => x
  end.

Fixpoint leading_newlines (s : jsstring) : nat :=
  match s with
  | [] => 0%nat
  | c :: s' => if is_line_break c then S (leading_newlines s') else 0%nat
  end.

(** The line breaks that open the reply all belong to its first
    non-empty fragment. *)
Definition strip_confined (stream : jsstring) : Prop :=
  (leading_newlines (concat (fragments stream))
   <= length (first_nonempty (fragments stream)))%nat.

(** What the decoder has computed once the text [seen] has been read,
    when the leading line breaks of the reply are confined to its
    first fragment. *)
Definition decoded (st : State) (seen : jsstring) : Prop :=
  buffer st = tail_line seen /\
  (isFirstContent st = true ->
     concat (fragments seen) = [] /\ fullResponse st = []) /\
  (isFirstContent st = false ->
     concat (fragments seen) <> [] /\
     fullResponse st = strip_leading_newlines (concat (fragments seen))).

(** [data.choices[0]?.delta]; [None] when the access throws. *)
Definition delta_of (data : value) : option value :=
  choices ← get_member data (js "choices");
  choice ← get_index0 choices;
  get_member_opt choice (js "delta").

Definition has_delta_object (data : value) : bool :=
  match delta_of data with
  | Some (JSObject _) => true
  | _ => false
  end.
End StreamProcessor.
End StreamProcessor.

(* ================================================================== *)
(** * The browser: storage, console, page *)
(* ================================================================== *)

(** A thrown value: an [Error] object with its [name] and [message]. *)
Record Exception := { name : jsstring; message : jsstring }.

(** [new Error(message)] *)
Definition Error (message : jsstring) : Exception :=
  {| name := js "Error"; message := message |}.

Definition SecurityError : Exception :=
  {| name := js "SecurityError"; message := js "The operation is insecure." |}.
Definition QuotaExceededError : Exception :=
  {| name := js "QuotaExceededError";
     message := js "The quota has been exceeded." |}.
Definition SyntaxError : Exception :=
  {| name := js "SyntaxError"; message := js "JSON.parse: unexpected token" |}.
Definition TypeError (message : jsstring) : Exception :=
  {| name := js "TypeError"; message := message |}.

(** [window.localStorage].  Where the page may not use storage, reading
    the property throws a [SecurityError]; [setItem] throws a
    [QuotaExceededError] when the items would take more than [quota]
    code units. *)
Record LocalStorage := {
  accessible : bool;
  quota : nat;
  items : gmap jsstring jsstring
}.

Definition usage (m : gmap jsstring jsstring) : nat :=
  map_fold (fun k v total => (length k + length v + total)%nat) 0%nat m.

(** [setItem(key, val)] would store the item. *)
Definition storage_accepts (ls : LocalStorage) (key val : jsstring) : bool :=
  accessible ls && (usage (<[key := val]> (items ls)) <=? quota ls)%nat.

(** The calls the controller makes to the renderer and to the UI
    manager, with their arguments.  [renderLoading()] and
    [renderAIMessage(content)] return the id of the element they
    create, which is made of [Date.now()]. *)
Inductive ViewCall :=
| renderUserMessage (content : jsstring)
| renderAIMessage (content : jsstring)
| renderLoading
| renderError (message : jsstring)
| updateMessage (id content : jsstring)
| removeMessage (id : jsstring)
| clearAll
| scrollToBottom
| showAuthView
| showChatView
| showToast (message : jsstring).

(** How a computation ends: with a value, or with a thrown exception. *)
Inductive Completion (A : Type) : Type :=
| Normal (a : A)
| Throw (e : Exception).
Arguments Normal {A} a.
Arguments Throw {A} e.

Section Browser.
Context `{Engine}.

(** A call of [fetch]: the bearer credential and the [messages] of the
    body. *)
Record Request := { bearer : jsstring; messages : list value }.

(** Everything the code reads and writes: the browser's storage, the
    calls of [console.error] with their label and error, the calls
    made to the view and to [fetch], the two input elements, the send
    button, and the controller's [chatHistory].  The calls of
    [console.warn], which only [parseSSELine] makes, are not
    recorded. *)
Record World := {
  localStorage : LocalStorage;
  console : list (jsstring * Exception);
  view : list ViewCall;
  requests : list Request;
  chatInput : jsstring;
  sendBtn_disabled : bool;
  apiKeyInput : jsstring;
  chatHistory : list value
}.

Definition set_localStorage (ls : LocalStorage) (w : World) : World :=
  {| localStorage := ls; console := console w; view := view w;
     requests := requests w; chatInput := chatInput w;
     sendBtn_disabled := sendBtn_disabled w;
     apiKeyInput := apiKeyInput w; chatHistory := chatHistory w |}.
Definition set_console c (w : World) : World :=
  {| localStorage := localStorage w; console := c; view := view w;
     requests := requests w; chatInput := chatInput w;
     sendBtn_disabled := sendBtn_disabled w;
     apiKeyInput := apiKeyInput w; chatHistory := chatHistory w |}.
Definition set_view v (w : World) : World :=
  {| localStorage := localStorage w; console := console w; view := v;
     requests := requests w; chatInput := chatInput w;
     sendBtn_disabled := sendBtn_disabled w;
     apiKeyInput := apiKeyInput w; chatHistory := chatHistory w |}.
Definition set_requests r (w : World) : World :=
  {| localStorage := localStorage w; console := console w; view := view w;
     requests := r; chatInput := chatInput w;
     sendBtn_disabled := sendBtn_disabled w;
     apiKeyInput := apiKeyInput w; chatHistory := chatHistory w |}.
Definition set_chatInput i (w : World) : World :=
  {| localStorage := localStorage w; console := console w; view := view w;
     requests := requests w; chatInput := i;
     sendBtn_disabled := sendBtn_disabled w;
     apiKeyInput := apiKeyInput w; chatHistory := chatHistory w |}.
Definition set_sendBtn_disabled d (w : World) : World :=
  {| localStorage := localStorage w; console := console w; view := view w;
     requests := requests w; chatInput := chatInput w;
     sendBtn_disabled := d;
     apiKeyInput := apiKeyInput w; chatHistory := chatHistory w |}.
Definition set_apiKeyInput i (w : World) : World :=
  {| localStorage := localStorage w; console := console w; view := view w;
     requests := requests w; chatInput := chatInput w;
     sendBtn_disabled := sendBtn_disabled w;
     apiKeyInput := i; chatHistory := chatHistory w |}.
Definition set_chatHistory h (w : World) : World :=
  {| localStorage := localStorage w; console := console w; view := view w;
     requests := requests w; chatInput := chatInput w;
     sendBtn_disabled := sendBtn_disabled w;
     apiKeyInput := apiKeyInput w; chatHistory := h |}.

(** ** Computations that may throw *)

Definition JS (A : Type) : Type := World -> Completion A * World.

#[export] Instance JS_ret : MRet JS := fun A a w => (Normal a, w).
#[export] Instance JS_bind : MBind JS := fun A B k m w =>
  match m w with
  | (Normal a, w') => k a w'
  | (Throw e, w') => (Throw e, w')
  end.

Definition throw {A} (e : Exception) : JS A := fun w => (Throw e, w).

(** [try { body } catch (e) { handler }] *)
Definition try_catch {A} (body : JS A) (handler : Exception -> JS A) : JS A :=
  fun w =>
    match body w with
    | (Normal a, w') => (Normal a, w')
    | (Throw e, w') => handler e w'
    end.

Definition read {A} (f : World -> A) : JS A := fun w => (Normal (f w), w).
Definition update (f : World -> World) : JS unit := fun w => (Normal tt, f w).

(** ** [localStorage] and [console] *)

Definition localStorage_getItem (key : jsstring) : JS (option jsstring) :=
  fun w =>
    if accessible (localStorage w)
    then (Normal (items (localStorage w) !! key), w)
    else (Throw SecurityError, w).

Definition localStorage_setItem (key val : jsstring) : JS unit :=
  fun w =>
    let ls := localStorage w in
    if accessible ls then
      let items' := <[key := val]> (items ls) in
      if (usage items' <=? quota ls)%nat
      then (Normal tt,
            set_localStorage
              {| accessible := true; quota := quota ls; items := items' |} w)
      else (Throw QuotaExceededError, w)
    else (Throw SecurityError, w).

Definition localStorage_removeItem (key : jsstring) : JS unit :=
  fun w =>
    let ls := localStorage w in
    if accessible ls
    then (Normal tt,
          set_localStorage
            {| accessible := true; quota := quota ls;
               items := delete key (items ls) |} w)
    else (Throw SecurityError, w).

Definition console_error (label : jsstring) (e : Exception) : JS unit :=
  update (fun w => set_console (console w ++ [(label, e)]) w).

(** [JSON.parse(text)] as a computation. *)
Definition JSON_parse_js (text : jsstring) : JS value :=
  match JSON_parse text with
  | Some v => mret v
  | None => throw SyntaxError
  end.
End Browser.

(* ================================================================== *)
(** * StorageManager *)
(* ================================================================== *)

Module StorageManager.
Section StorageManager.
Context `{Engine}.
Import CHAT_CONFIG.

Definition getApiKey : JS (option jsstring) :=
  try_catch
    (localStorage_getItem STORAGE_KEYS.API_KEY)
    (fun e => console_error (js "Failed to get API key:") e;; mret None).

Definition saveApiKey (key : jsstring) : JS unit :=
  try_catch
    (localStorage_setItem STORAGE_KEYS.API_KEY key)
    (fun e => console_error (js "Failed to save API key:") e;;
              throw (Error (js "无法保存 API Key"))).

Definition removeApiKey : JS unit :=
  try_catch
    (localStorage_removeItem STORAGE_KEYS.API_KEY)
    (fun e => console_error (js "Failed to remove API key:") e).

Definition clearHistory : JS unit :=
  try_catch
    (localStorage_removeItem STORAGE_KEYS.CHAT_HISTORY)
    (fun e => console_error (js "Failed to clear history:") e).

(** [history ? JSON.parse(history) : []], with the corrupt record
    cleared in the [catch]. *)
Definition getHistory : JS value :=
  try_catch
    (history ← localStorage_getItem STORAGE_KEYS.CHAT_HISTORY;
     match history with
     | Some (c :: s) => JSON_parse_js (c :: s)
     | Some [] | None => mret (JSArray [])
     end)
    (fun e => console_error (js "Failed to load history:") e;;
              clearHistory;;
              mret (JSArray [])).

Definition saveHistory (history : list value) : JS unit :=
  try_catch
    (localStorage_setItem STORAGE_KEYS.CHAT_HISTORY
       (JSON_stringify (JSArray history)))
    (fun e => console_error (js "Failed to save history:") e).
End StorageManager.
End StorageManager.

(* ================================================================== *)
(** * ChatAPIClient *)
(* ================================================================== *)

(** What the promise of [fetch] settles with: a rejection, or a response
    with its status. *)
Inductive FetchOutcome :=
| Rejected (e : Exception)
| Response (status : N).

(** What the promise of [reader.read()] settles with. *)
Inductive ReadOutcome :=
| ReadChunk (text : jsstring)
| ReadDone
| ReadFailed (e : Exception).

Module ChatAPIClient.
Section ChatAPIClient.
Context `{Engine}.

(** [response.ok] *)
Definition ok (status : N) : bool := (200 <=? status) && (status <=? 299).

(** [sendMessage(messages)] up to its [await]: the call of [fetch]. *)
Definition sendMessage_fetch (apiKey : jsstring) (messages : list value)
  : JS unit :=
  update (fun w =>
    set_requests
      (requests w ++ [{| bearer := apiKey; messages := messages |}]) w).

(** A null body status: [response.body] is [null] for a response with
    one of these. *)
Definition null_body_status (status : N) : bool :=
  (status =? 101) || (status =? 103) || (status =? 204) || (status =? 205)
  || (status =? 304).

(** [sendMessage(messages)] from its [await] on: it returns the reader
    of the body, or throws.  On a response without body,
    [response.body.getReader()] throws a [TypeError], whose message is
    the engine's. *)
Definition sendMessage_settled (outcome : FetchOutcome) : JS unit :=
  match outcome with
  | Rejected e => throw e
  | Response status =>
      if negb (ok status) then
        if status =? 401 then throw (Error (js "401"))
        else throw (Error (js "API Error: " ++ decimal status))
      else if null_body_status status
      then throw (TypeError (js "response.body is null"))
      else mret tt
  end.
End ChatAPIClient.
End ChatAPIClient.

(* ================================================================== *)
(** * ChatController *)
(* ================================================================== *)

Module ChatController.
Section ChatController.
Context `{Engine}.
Import CHAT_CONFIG.

Definition call_view (c : ViewCall) : JS unit :=
  update (fun w => set_view (view w ++ [c]) w).

(** [{ role, content }] *)
Definition message_object (role content : jsstring) : value :=
  JSObject [(js "role", JSString role); (js "content", JSString content)].

Definition system_message : value :=
  message_object (js "system") API.SYSTEM_PROMPT.

(** A call of [handleSendMessage] that is suspended at an [await]:
    on [fetch], or on a [read] of the stream. *)
Inductive Task :=
| AwaitingResponse (loadingId : jsstring)
| Streaming (loadingId aiMessageId : jsstring)
          (decoder : StreamProcessor.State)
| Finished.

Definition checkApiKey : JS unit :=
  key ← StorageManager.getApiKey;
  match key with
  | Some (_ :: _) => call_view showChatView
  | Some [] | None => call_view showAuthView
  end.

(** The body of the [forEach] of [loadHistory]; a content that is not
    a string is recorded as its string. *)
Definition render_stored (msg : value) : JS unit :=
  match get_member msg (js "role") with
  | None => throw (TypeError (js "msg is null"))
  | Some role =>
      let content :=
        match default JSUndefined (get_member msg (js "content")) with
        | JSString c => c
        | other => to_string other
        end in
      match role with
      | JSString r =>
          if jsstring_eqb r (js "user") then
            call_view (renderUserMessage content)
          else if jsstring_eqb r (js "assistant") then
            call_view (renderAIMessage content)
          else mret tt
      | _ => mret tt
      end
  end.

Fixpoint forEach {A} (l : list A) (f : A -> JS unit) : JS unit :=
  match l with
  | [] => mret tt
  | x :: l' => f x;; forEach l' f
  end.

Definition loadHistory : JS unit :=
  history ← StorageManager.getHistory;
  match history with
  | JSArray l =>
      update (set_chatHistory l);;
      forEach l render_stored
  | _ => throw (TypeError (js "this.chatHistory.forEach is not a function"))
  end.

Definition handleOpenModal : JS unit :=
  checkApiKey;; call_view scrollToBottom.

Definition handleSaveApiKey : JS unit :=
  key ← read (fun w => trim (apiKeyInput w));
  match key with
  | _ :: _ =>
      try_catch
        (StorageManager.saveApiKey key;;
         checkApiKey;;
         update (set_apiKeyInput []);;
         call_view (showToast (js "API Key 已保存")))
        (fun e => call_view (showToast (js "保存失败，请重试")))
  | [] => call_view (showToast (js "请输入有效的 API Key"))
  end.

(** The callback that [handleClearApiKey] passes to the confirmation
    dialog. *)
Definition handleClearApiKey_confirmed : JS unit :=
  StorageManager.removeApiKey;;
  checkApiKey;;
  call_view (showToast (js "API Key 已移除")).

(** The callback that [handleClearHistory] passes to the confirmation
    dialog. *)
Definition handleClearHistory_confirmed : JS unit :=
  update (set_chatHistory []);;
  StorageManager.clearHistory;;
  call_view clearAll;;
  call_view (showToast (js "历史记录已清除")).

Definition handleInputChange : JS unit :=
  hasContent ← read (fun w =>
    match trim (chatInput w) with [] => false | _ => true end);
  update (set_sendBtn_disabled (negb hasContent)).

(** The [catch] block of [handleSendMessage]. *)
Definition handleSendMessage_catch (loadingId : jsstring) (error : Exception)
  : JS unit :=
  call_view (removeMessage loadingId);;
  let errorMessage :=
    if jsstring_eqb (message error) (js "401")
    then js "认证失败，API Key 无效。请重新输入。"
    else js "出错了: " ++ message error
         ++ js "。请检查您的 API Key 是否正确。" in
  call_view (renderError errorMessage);;
  if jsstring_eqb (message error) (js "401")
  then StorageManager.removeApiKey;; checkApiKey
  else mret tt.

(** [handleSendMessage()] up to its first [await]; [now] is what
    [Date.now()] returns.  The result is the suspended call, if it
    got as far as calling [fetch]. *)
Definition handleSendMessage (now : N) : JS Task :=
  content ← read (fun w => trim (chatInput w));
  match content with
  | [] => mret Finished
  | _ :: _ =>
      call_view (renderUserMessage content);;
      update (fun w =>
        set_chatHistory
          (chatHistory w ++ [message_object (js "user") content]) w);;
      history ← read chatHistory;
      StorageManager.saveHistory history;;
      update (set_chatInput []);;
      update (set_sendBtn_disabled true);;
      let loadingId := js "loading-" ++ decimal now in
      call_view renderLoading;;
      try_catch
        (apiKey ← StorageManager.getApiKey;
         match apiKey with
         | Some (c :: k) =>
             history ← read chatHistory;
             let messages := system_message :: history in
             ChatAPIClient.sendMessage_fetch (c :: k) messages;;
             mret (AwaitingResponse loadingId)
         | Some [] | None => throw (Error (js "No API key found"))
         end)
        (fun error => handleSendMessage_catch loadingId error;; mret Finished)
  end.

(** [handleSendMessage()] resumed when [fetch] has settled. *)
Definition handleSendMessage_response
    (loadingId : jsstring) (outcome : FetchOutcome) (now : N) : JS Task :=
  try_catch
    (ChatAPIClient.sendMessage_settled outcome;;
     call_view (removeMessage loadingId);;
     let aiMessageId := js "ai-msg-" ++ decimal now in
     call_view (renderAIMessage []);;
     mret (Streaming loadingId aiMessageId StreamProcessor.initial))
    (fun error => handleSendMessage_catch loadingId error;; mret Finished).

(** The first callback given to [processStream]. *)
Definition onChunk (aiMessageId fullResponse : jsstring) : JS unit :=
  call_view (updateMessage aiMessageId fullResponse);;
  call_view scrollToBottom.

(** The second callback given to [processStream]. *)
Definition onComplete (fullResponse : jsstring) : JS unit :=
  update (fun w =>
    set_chatHistory
      (chatHistory w ++ [message_object (js "assistant") fullResponse]) w);;
  history ← read chatHistory;
  StorageManager.saveHistory history.

(** [handleSendMessage()] resumed, inside [processStream], when a
    [read] has settled. *)
Definition handleSendMessage_read
    (loadingId aiMessageId : jsstring) (decoder : StreamProcessor.State)
    (outcome : ReadOutcome) : JS Task :=
  try_catch
    (match outcome with
     | ReadChunk text =>
         let decoder' := StreamProcessor.consume decoder text in
         forEach
           (skipn (length (StreamProcessor.onChunk_calls decoder))
                  (StreamProcessor.onChunk_calls decoder'))
           (onChunk aiMessageId);;
         mret (Streaming loadingId aiMessageId decoder')
     | ReadDone =>
         onComplete (StreamProcessor.fullResponse decoder);;
         mret Finished
     | ReadFailed error =>
         console_error (js "Stream processing error:") error;;
         throw error
     end)
    (fun error => handleSendMessage_catch loadingId error;; mret Finished).

(** ** The page as a transition system *)

(** The world, and the calls of [handleSendMessage] by order of
    arrival. *)
Record Session := {
  world : World;
  tasks : list Task
}.

Inductive Event :=
| Input (text : jsstring)
| ClickSend (now : N)
| PressEnter (now : N)
| FetchSettles (task : nat) (outcome : FetchOutcome) (now : N)
| ReadSettles (task : nat) (outcome : ReadOutcome)
| KeyInput (text : jsstring)
| ClickSaveKey
| ConfirmRemoveKey
| ConfirmClearHistory
| OpenModal.

(** An event handler that returns nothing. *)
Definition handle (s : Session) (handler : JS unit) : Session :=
  {| world := snd (handler (world s)); tasks := tasks s |}.

(** A new call of [handleSendMessage]. *)
Definition submit (s : Session) (now : N) : Session :=
  match handleSendMessage now (world s) with
  | (Normal task, w) => {| world := w; tasks := tasks s ++ [task] |}
  | (Throw _, w) => {| world := w; tasks := tasks s ++ [Finished] |}
  end.

(** A suspended call resumes. *)
Definition resume (s : Session) (t : nat) (continuation : JS Task) : Session :=
  match continuation (world s) with
  | (Normal task, w) => {| world := w; tasks := <[t := task]> (tasks s) |}
  | (Throw _, w) => {| world := w; tasks := <[t := Finished]> (tasks s) |}
  end.

Definition step (s : Session) (e : Event) : Session :=
  match e with
  | Input text =>
      handle {| world := set_chatInput text (world s); tasks := tasks s |}
             handleInputChange
  | ClickSend now =>
      if sendBtn_disabled (world s) then s else submit s now
  | PressEnter now => submit s now
  | FetchSettles t outcome now =>
      match tasks s !! t with
      | Some (AwaitingResponse loadingId) =>
          resume s t (handleSendMessage_response loadingId outcome now)
      | _ => s
      end
  | ReadSettles t outcome =>
      match tasks s !! t with
      | Some (Streaming loadingId aiMessageId decoder) =>
          resume s t
            (handleSendMessage_read loadingId aiMessageId decoder outcome)
      | _ => s
      end
  | KeyInput text =>
      {| world := set_apiKeyInput text (world s); tasks := tasks s |}
  | ClickSaveKey => handle s handleSaveApiKey
  | ConfirmRemoveKey => handle s handleClearApiKey_confirmed
  | ConfirmClearHistory => handle s handleClearHistory_confirmed
  | OpenModal => handle s handleOpenModal
  end.

Definition run (s : Session) (events : list Event) : Session :=
  fold_left step events s.

(** The page just loaded over a given storage, before
    [new ChatController()]. *)
Definition fresh (ls : LocalStorage) : World :=
  {| localStorage := ls; console := []; view := []; requests := [];
     chatInput := []; sendBtn_disabled := true; apiKeyInput := [];
     chatHistory := [] |}.

(** [new ChatController()], for a page that has the chat elements:
    [None] when [init()] throws and no listener gets attached. *)
Definition boot (ls : LocalStorage) : option Session :=
  match loadHistory (fresh ls) with
  | (Normal _, w) => Some {| world := w; tasks := [] |}
  | (Throw _, _) => None
  end.

(** ** Vocabulary of the session's properties *)

(** A call of [handleSendMessage] is in flight: sending or streaming. *)
Definition in_flight (task : Task) : bool :=
  match task with
  | AwaitingResponse _ | Streaming _ _ _ => true
  | Finished => false
  end.

Definition busy (s : Session) : bool := existsb in_flight (tasks s).

(** The credential as the page can read it back. *)
Definition stored_credential (w : World) : option jsstring :=
  if accessible (localStorage w)
  then items (localStorage w) !! STORAGE_KEYS.API_KEY
  else None.

(** The persisted history record. *)
Definition stored_history (w : World) : option jsstring :=
  items (localStorage w) !! STORAGE_KEYS.CHAT_HISTORY.



(** A record that [saveHistory] wrote for a history of [known]
    messages. *)
Definition written_record (known : value -> Prop) (record : jsstring) : Prop :=
  exists history,
    record = JSON_stringify (JSArray history) /\
    Forall known history.

(** The message sequence of a request: the system message, then
    [known] messages. *)
Definition system_then (known : value -> Prop) (r : Request) : Prop :=
  exists history,
    messages r = system_message :: history /\
    Forall known history.

(** The history invariant, for the messages [known] to the page and
    the record [found] in the storage when the page was loaded: the
    history in memory holds [known] messages only; the persisted
    record, if any, is the one [found] or one that [saveHistory] wrote
    for [known] messages; every request sent the system message in
    front of [known] messages. *)
Definition history_invariant
    (known : value -> Prop) (found : option jsstring) (w : World) : Prop :=
  Forall known (chatHistory w) /\
  (forall record,
     stored_history w = Some record ->
     Some record = found \/ written_record known record) /\
  Forall (system_then known) (requests w).

(** A computation that keeps the invariant. *)
Definition keeps (known : value -> Prop) (found : option jsstring)
    {A} (m : JS A) : Prop :=
  forall w, history_invariant known found w ->
            history_invariant known found (m w).2.


End ChatController.
End ChatController.

(* ================================================================== *)
(** * A reference engine *)
(* ================================================================== *)

(** One [Engine], for the closed examples: [JSON.parse] and
    [JSON.stringify] over the whole JSON grammar, and numbers kept as
    exact decimals.  Its numbers print like those of a real engine as
    long as the literal has at most 15 significant digits. *)
Module RefEngine.

(** [NaN], or [± mantissa × 10 ^ exponent]. *)
Inductive RefNumber :=
| NaN
| Dec (negative : bool) (mantissa : N) (exponent : Z).

Definition is_falsy (n : RefNumber) : bool :=
  match n with
  | NaN => true
  | Dec _ m _ => m =? 0
  end.

Definition of_bool (b : bool) : RefNumber := Dec false (if b then 1 else 0) 0.

Definition signed (negative : bool) (m : N) : Z :=
  if negative then (- Z.of_N m)%Z else Z.of_N m.

Definition add (a b : RefNumber) : RefNumber :=
  match a, b with
  | Dec na ma ea, Dec nb mb eb =>
      let e := Z.min ea eb in
      let za := (signed na ma * 10 ^ (ea - e))%Z in
      let zb := (signed nb mb * 10 ^ (eb - e))%Z in
      let z := (za + zb)%Z in
      Dec (z <? 0)%Z (Z.abs_N z) e
  | _, _ => NaN
  end.

(** Trailing zeros of the mantissa moved into the exponent. *)
Fixpoint normalize (fuel : nat) (m : N) (e : Z) : N * Z :=
  match fuel with
  | O => (m, e)
  | S fuel' =>
      if (m =? 0) || negb (m mod 10 =? 0) then (m, e)
      else normalize fuel' (m / 10) (e + 1)%Z
  end.

Definition zeros (n : nat) : jsstring := repeat 48 n.

(** Number::toString, radix 10. *)
Definition number_text (x : RefNumber) : jsstring :=
  match x with
  | NaN => js "NaN"
  | Dec negative m e =>
      if m =? 0 then js "0"
      else
        let '(m', e') := normalize (length (decimal m)) m e in
        let digits := decimal m' in
        let k := Z.of_nat (length digits) in
        let n := (k + e')%Z in
        let sign := if negative then js "-" else [] in
        sign ++
        (if (k <=? n)%Z && (n <=? 21)%Z then
           digits ++ zeros (Z.to_nat (n - k))
         else if (0 <? n)%Z && (n <=? 21)%Z then
           firstn (Z.to_nat n) digits ++ js "." ++ skipn (Z.to_nat n) digits
         else if (-6 <? n)%Z && (n <=? 0)%Z then
           js "0." ++ zeros (Z.to_nat (- n)) ++ digits
         else
           let ex := (n - 1)%Z in
           let exs := (if (ex <? 0)%Z then js "-" else js "+")
                      ++ decimal (Z.abs_N ex) in
           match digits with
           | [d] => [d] ++ js "e" ++ exs
           | d :: ds => [d] ++ js "." ++ ds ++ js "e" ++ exs
           | [] => []
           end)
  end.

Abbreviation V := (JSValue RefNumber).

(** ** [JSON.parse] *)

Definition is_json_ws (c : N) : bool :=
  (c =? 32) || (c =? 9) || (c =? 10) || (c =? 13).

Fixpoint skip_ws (s : jsstring) : jsstring :=
  match s with
  | c :: s' => if is_json_ws c then skip_ws s' else s
  | [] => []
  end.

Definition is_digit (c : N) : bool := (48 <=? c) && (c <=? 57).

Definition hex_digit (c : N) : option N :=
  if is_digit c then Some (c - 48)
  else if (97 <=? c) && (c <=? 102) then Some (c - 87)
  else if (65 <=? c) && (c <=? 70) then Some (c - 55)
  else None.

(** The characters of a string literal after its opening quote, up to
    and including the closing quote. *)
Fixpoint parse_string (s : jsstring) : option (jsstring * jsstring) :=
  match s with
  | [] => None
  | c :: r =>
      if c =? 34 then Some ([], r)
      else if c <? 32 then None
      else if c =? 92 then
        match r with
        | [] => None
        | e :: r1 =>
            let simple (u : N) :=
              match parse_string r1 with
              | Some (t, rest) => Some (u :: t, rest)
              | None => None
              end in
            if e =? 34 then simple 34
            else if e =? 92 then simple 92
            else if e =? 47 then simple 47
            else if e =? 98 then simple 8
            else if e =? 102 then simple 12
            else if e =? 110 then simple 10
            else if e =? 114 then simple 13
            else if e =? 116 then simple 9
            else if e =? 117 then
              match r1 with
              | h1 :: h2 :: h3 :: h4 :: r2 =>
                  match hex_digit h1, hex_digit h2, hex_digit h3, hex_digit h4,
                        parse_string r2 with
                  | Some a, Some b, Some c', Some d, Some (t, rest) =>
                      Some ((a * 4096 + b * 256 + c' * 16 + d) :: t, rest)
                  | _, _, _, _, _ => None
                  end
              | _ => None
              end
            else None
        end
      else
        match parse_string r with
        | Some (t, rest) => Some (c :: t, rest)
        | None => None
        end
  end.

(** The longest run of digits: their value, their count, the rest. *)
Fixpoint parse_digits (s : jsstring) (acc : N) (count : nat)
  : N * nat * jsstring :=
  match s with
  | c :: s' =>
      if is_digit c then parse_digits s' (acc * 10 + (c - 48)) (S count)
      else (acc, count, s)
  | [] => (acc, count, [])
  end.

(** A number literal: an optional minus sign, an integer part without
    leading zero, an optional fraction, an optional exponent. *)
Definition parse_number (s : jsstring) : option (RefNumber * jsstring) :=
  let '(negative, s1) :=
    match s with
    | 45 :: r => (true, r)
    | _ => (false, s)
    end in
  match s1 with
  | [] => None
  | d :: r =>
      if negb (is_digit d) then None
      else
        let '(int, _, s2) :=
          if d =? 48 then (0, 1%nat, r) else parse_digits s1 0 0%nat in
        let frac :=
          match s2 with
          | 46 :: r2 =>
              let '(m, count, s3) := parse_digits r2 int 0%nat in
              match count with
              | O => None
              | _ => Some (m, count, s3)
              end
          | _ => Some (int, 0%nat, s2)
          end in
        match frac with
        | None => None
        | Some (m, fcount, s3) =>
            let finish (e : Z) (rest : jsstring) :=
              Some (Dec negative m (e - Z.of_nat fcount)%Z, rest) in
            let exponent (neg : bool) (r3 : jsstring) :=
              let '(e, count, s4) := parse_digits r3 0 0%nat in
              match count with
              | O => None
              | _ => finish (signed neg e) s4
              end in
            match s3 with
            | c :: r3 =>
                if (c =? 101) || (c =? 69) then
                  match r3 with
                  | 43 :: r4 => exponent false r4
                  | 45 :: r4 => exponent true r4
                  | _ => exponent false r3
                  end
                else finish 0%Z s3
            | [] => finish 0%Z s3
            end
        end
  end.

(** An array index: a canonical decimal below [2^32 - 1]. *)
Definition array_index (key : jsstring) : option N :=
  match key with
  | [] => None
  | c :: _ =>
      let '(n, count, rest) := parse_digits key 0 0%nat in
      match rest with
      | [] =>
          if jsstring_eqb (decimal n) key && (n <? 4294967295)
          then Some n else None
      | _ => None
      end
  end.

(** Where a new own property goes: array indices first, in ascending
    order, then the other keys in order of creation. *)
Fixpoint insert_field (key : jsstring) (v : V) (fields : list (jsstring * V))
  : list (jsstring * V) :=
  match fields with
  | [] => [(key, v)]
  | (k, w) :: rest =>
      match array_index key, array_index k with
      | Some i, Some j =>
          if i <? j then (key, v) :: fields
          else (k, w) :: insert_field key v rest
      | Some _, None => (key, v) :: fields
      | None, _ => (k, w) :: insert_field key v rest
      end
  end.

Fixpoint replace_field (key : jsstring) (v : V) (fields : list (jsstring * V))
  : list (jsstring * V) :=
  match fields with
  | [] => []
  | (k, w) :: rest =>
      if jsstring_eqb k key then (k, v) :: rest
      else (k, w) :: replace_field key v rest
  end.

(** CreateDataProperty *)
Definition define_field (key : jsstring) (v : V) (fields : list (jsstring * V))
  : list (jsstring * V) :=
  if existsb (fun kv => jsstring_eqb (fst kv) key) fields
  then replace_field key v fields
  else insert_field key v fields.

(** The elements of an array after the first, up to the closing
    bracket. *)
Fixpoint parse_elements (parse : jsstring -> option (V * jsstring))
    (fuel : nat) (acc : list V) (s : jsstring) : option (list V * jsstring) :=
  match fuel with
  | O => None
  | S fuel' =>
      match skip_ws s with
      | 93 :: rest => Some (acc, rest)
      | 44 :: rest =>
          match parse rest with
          | Some (v, rest') => parse_elements parse fuel' (acc ++ [v]) rest'
          | None => None
          end
      | _ => None
      end
  end.

(** One member of an object: a key, a colon, a value. *)
Definition parse_member (parse : jsstring -> option (V * jsstring))
    (s : jsstring) : option (jsstring * V * jsstring) :=
  match skip_ws s with
  | 34 :: r =>
      match parse_string r with
      | Some (key, r1) =>
          match skip_ws r1 with
          | 58 :: r2 =>
              match parse r2 with
              | Some (v, rest) => Some (key, v, rest)
              | None => None
              end
          | _ => None
          end
      | None => None
      end
  | _ => None
  end.

(** The members of an object after the first, up to the closing
    brace. *)
Fixpoint parse_members (parse : jsstring -> option (V * jsstring))
    (fuel : nat) (acc : list (jsstring * V)) (s : jsstring)
  : option (list (jsstring * V) * jsstring) :=
  match fuel with
  | O => None
  | S fuel' =>
      match skip_ws s with
      | 125 :: rest => Some (acc, rest)
      | 44 :: rest =>
          match parse_member parse rest with
          | Some (key, v, rest') =>
              parse_members parse fuel' (define_field key v acc) rest'
          | None => None
          end
      | _ => None
      end
  end.

(** A value, with the white space before it. *)
Fixpoint parse_value (fuel : nat) (s : jsstring) : option (V * jsstring) :=
  match fuel with
  | O => None
  | S fuel' =>
      match skip_ws s with
      | [] => None
      | c :: r =>
          if c =? 123 then
            match skip_ws r with
            | 125 :: rest => Some (JSObject [], rest)
            | _ =>
                match parse_member (parse_value fuel') r with
                | Some (key, v, rest) =>
                    match parse_members (parse_value fuel') fuel'
                            [(key, v)] rest with
                    | Some (fields, rest') => Some (JSObject fields, rest')
                    | None => None
                    end
                | None => None
                end
            end
          else if c =? 91 then
            match skip_ws r with
            | 93 :: rest => Some (JSArray [], rest)
            | _ =>
                match parse_value fuel' r with
                | Some (v, rest) =>
                    match parse_elements (parse_value fuel') fuel' [v] rest with
                    | Some (l, rest') => Some (JSArray l, rest')
                    | None => None
                    end
                | None => None
                end
            end
          else if c =? 34 then
            match parse_string r with
            | Some (t, rest) => Some (JSString t, rest)
            | None => None
            end
          else if startsWith (c :: r) (js "true") then
            Some (JSBool true, skipn 4 (c :: r))
          else if startsWith (c :: r) (js "false") then
            Some (JSBool false, skipn 5 (c :: r))
          else if startsWith (c :: r) (js "null") then
            Some (JSNull, skipn 4 (c :: r))
          else
            match parse_number (c :: r) with
            | Some (n, rest) => Some (JSNumber n, rest)
            | None => None
            end
      end
  end.

Definition parse (text : jsstring) : option V :=
  match parse_value (S (length text)) text with
  | Some (v, rest) =>
      match skip_ws rest with
      | [] => Some v
      | _ => None
      end
  | None => None
  end.

(** ** [JSON.stringify] *)

Definition hex_char (d : N) : N := if d <? 10 then 48 + d else 87 + d.

Definition unicode_escape (c : N) : jsstring :=
  js "\u" ++ [hex_char (c / 4096); hex_char ((c / 256) mod 16);
              hex_char ((c / 16) mod 16); hex_char (c mod 16)].

Definition is_high_surrogate (c : N) : bool := (55296 <=? c) && (c <=? 56319).
Definition is_low_surrogate (c : N) : bool := (56320 <=? c) && (c <=? 57343).

(** QuoteJSONString, without the quotes. *)
Fixpoint escape (s : jsstring) : jsstring :=
  match s with
  | [] => []
  | c :: r =>
      if c =? 34 then js "\" ++ [34] ++ escape r
      else if c =? 92 then js "\\" ++ escape r
      else if c =? 8 then js "\b" ++ escape r
      else if c =? 9 then js "\t" ++ escape r
      else if c =? 10 then js "\n" ++ escape r
      else if c =? 12 then js "\f" ++ escape r
      else if c =? 13 then js "\r" ++ escape r
      else if c <? 32 then unicode_escape c ++ escape r
      else if is_high_surrogate c then
        match r with
        | d :: r' =>
            if is_low_surrogate d then c :: d :: escape r'
            else unicode_escape c ++ escape r
        | [] => unicode_escape c
        end
      else if is_low_surrogate c then unicode_escape c ++ escape r
      else c :: escape r
  end.

Definition quote (s : jsstring) : jsstring := [34] ++ escape s ++ [34].

(** The text of a value, [None] for [undefined]. *)
Fixpoint serialize (v : V) : option jsstring :=
  match v with
  | JSUndefined => None
  | JSNull => Some (js "null")
  | JSBool b => Some (if b then js "true" else js "false")
  | JSNumber n =>
      Some (match n with NaN => js "null" | _ => number_text n end)
  | JSString s => Some (quote s)
  | JSArray l =>
      Some (js "[" ++
            join (js ",")
              ((fix elements (l : list V) : list jsstring :=
                  match l with
                  | [] => []
                  | e :: l' => default (js "null") (serialize e) :: elements l'
                  end) l)
            ++ js "]")
  | JSObject fields =>
      Some (js "{" ++
            join (js ",")
              ((fix members (fs : list (jsstring * V)) : list jsstring :=
                  match fs with
                  | [] => []
                  | (k, e) :: fs' =>
                      match serialize e with
                      | Some t => (quote k ++ js ":" ++ t) :: members fs'
                      | None => members fs'
                      end
                  end) fields)
            ++ js "}")
  end.

(** [JSON.stringify(v)] as [setItem] stores it. *)
Definition stringify (v : V) : jsstring := default (js "undefined") (serialize v).

Definition engine : Engine := {|
  number := RefNumber;
  number_is_falsy := is_falsy;
  number_nan := NaN;
  number_of_bool := of_bool;
  number_add := add;
  number_to_string := number_text;
  JSON_parse := parse;
  JSON_stringify := stringify
|}.
End RefEngine.

(* ================================================================== *)
(** * MessageRenderer *)
(* ================================================================== *)

Module MessageRenderer.

(** What reading [innerHTML] gives for one code unit of a text node:
    the HTML serialization replaces the ampersand, the no-break space
    and the two angle brackets. *)
Definition escape_char (c : N) : jsstring :=
  if c =? 38 then js "&amp;"
  else if c =? 160 then js "&nbsp;"
  else if c =? 60 then js "&lt;"
  else if c =? 62 then js "&gt;"
  else [c].

(** [escapeHtml(text)]: [div.textContent = text; return div.innerHTML] *)
Definition escapeHtml (text : jsstring) : jsstring :=
  flat_map escape_char text.

(** [s.replace(/\n/g, '<br>')] *)
Definition replace_newlines (s : jsstring) : jsstring :=
  flat_map (fun c => if c =? LF then js "<br>" else [c]) s.

(** [formatText(text)] *)
Definition formatText (text : jsstring) : jsstring :=
  replace_newlines (escapeHtml text).

End MessageRenderer.

(* ================================================================== *)
(** * Further vocabulary *)
(* ================================================================== *)

Section FurtherVocabulary.
Context `{Engine}.
Import StreamProcessor.

(** A computation that leaves a component of the world as it was. *)
Definition preserving {A B} (proj : World -> B) (m : JS A) : Prop :=
  forall w, proj (m w).2 = proj w.

(** What the decoder has computed once the text [seen] has been read,
    under any cut: the fragments so far, short of some of their leading
    line breaks. *)
Definition decoded_upto (st : State) (seen : jsstring) : Prop :=
  buffer st = tail_line seen /\
  (isFirstContent st = true ->
     concat (fragments seen) = [] /\ fullResponse st = []) /\
  (isFirstContent st = false ->
     concat (fragments seen) <> [] /\
     exists n,
       (n <= leading_newlines (concat (fragments seen)))%nat /\
       fullResponse st = skipn n (concat (fragments seen))).

(** Each text extends the one before. *)
Definition running_totals (calls : list jsstring) : Prop :=
  forall i a b,
    calls !! i = Some a -> calls !! S i = Some b -> exists more, b = a ++ more.

(** The text so far is the argument of the last call of [onChunk]. *)
Definition totals_kept (st : State) : Prop :=
  ((onChunk_calls st = [] /\ fullResponse st = []) \/
   last (onChunk_calls st) = Some (fullResponse st)) /\
  running_totals (onChunk_calls st).

(** The calls [loadHistory] makes for a stored message. *)
Definition rendered (role content : jsstring) : list ViewCall :=
  if jsstring_eqb role (js "user") then [renderUserMessage content]
  else if jsstring_eqb role (js "assistant") then [renderAIMessage content]
  else [].

(** The events of a stream that delivers [chunks] to the call [t]. *)
Definition chunk_events (t : nat) (chunks : list jsstring)
  : list ChatController.Event :=
  map (fun c => ChatController.ReadSettles t (ReadChunk c)) chunks.

(** A message that the page itself adds to the history: what the
    user sent, which is not empty, or what the assistant replied. *)
Definition own_message (msg : value) : Prop :=
  (exists c content,
     msg = ChatController.message_object (js "user") (c :: content)) \/
  (exists text, msg = ChatController.message_object (js "assistant") text).

(** A text without angle brackets. *)
Definition no_brackets (text : jsstring) : bool :=
  forallb (fun c => negb ((c =? 60) || (c =? 62))) text.

(** A text without angle brackets and without line feeds. *)
Definition plain (text : jsstring) : bool :=
  forallb (fun c => negb ((c =? 60) || (c =? 62) || (c =? LF))) text.

(** The calls [onChunk] makes to the view for the texts [fulls]. *)
Definition partial_updates (aiMessageId : jsstring) (fulls : list jsstring)
  : list ViewCall :=
  flat_map (fun full => [updateMessage aiMessageId full; scrollToBottom]) fulls.
End FurtherVocabulary.

(* ================================================================== *)
(** * Data of the closed examples *)
(* ================================================================== *)

Module Examples.
Import CHAT_CONFIG.

(** A data line whose delta carries [content]. *)
Definition data_line (content : string) : jsstring :=
  jq "data: {'choices':[{'delta':{'content':'" ++ js content ++ jq "'}}]}".

(** A store that holds a credential and nothing else. *)
Definition store_with_key : LocalStorage :=
  {| accessible := true; quota := 4096;
     items := {[ STORAGE_KEYS.API_KEY := js "sk-test" ]} |}.

(** A store that cannot take anything. *)
Definition store_full : LocalStorage :=
  {| accessible := true; quota := 0; items := ∅ |}.

(** The page loaded over a store, on the reference engine. *)
Definition page (ls : LocalStorage)
  : ChatController.Session (H := RefEngine.engine) :=
  default {| ChatController.world := ChatController.fresh ls;
             ChatController.tasks := [] |}
          (ChatController.boot ls).

(** A store that holds nothing. *)
Definition store_empty : LocalStorage :=
  {| accessible := true; quota := 4096; items := ∅ |}.

(** A store that holds the record of one exchange. *)
Definition store_with_history : LocalStorage :=
  {| accessible := true; quota := 4096;
     items :=
       {[ STORAGE_KEYS.CHAT_HISTORY :=
            jq "[{'role':'user','content':'hi'},{'role':'assistant','content':'hello'}]" ]} |}.

(** A store whose history record is an object. *)
Definition store_with_object : LocalStorage :=
  {| accessible := true; quota := 4096;
     items := {[ STORAGE_KEYS.CHAT_HISTORY := jq "{'role':'user'}" ]} |}.

(** A store that holds a credential and has no room for a history
    record. *)
Definition store_tight : LocalStorage :=
  {| accessible := true; quota := 32;
     items := {[ STORAGE_KEYS.API_KEY := js "sk-test" ]} |}.



(** The page with a message sent and the request pending. *)
Definition awaiting_page : ChatController.Session (H := RefEngine.engine) :=
  ChatController.run (page store_with_key)
    [ChatController.Input (js "hi"); ChatController.PressEnter 1].

(** The page with a message sent and the reply streaming in. *)
Definition streaming_page : ChatController.Session (H := RefEngine.engine) :=
  ChatController.step awaiting_page
    (ChatController.FetchSettles 0 (Response 200) 2).
End Examples.

(* ================================================================== *)
(** * Properties of the strings *)
(* ================================================================== *)

Lemma jsstring_eqb_eq (a b : jsstring) : jsstring_eqb a b = true <-> a = b.
Proof.
  revert b; induction a as [|x a IH]; intros [|y b]; simpl; try easy.
  rewrite andb_true_iff, N.eqb_eq, IH. split.
  - intros [-> ->]; reflexivity.
  - intros [= -> ->]; auto.
Qed.

Lemma jsstring_eqb_refl (a : jsstring) : jsstring_eqb a a = true.
Proof. apply jsstring_eqb_eq; reflexivity. Qed.

Lemma split_not_nil sep s : split sep s <> [].
Proof.
  destruct s as [|c s]; simpl; [easy|].
  destruct (c =? sep); [easy|]. destruct (split sep s); easy.
Qed.

Lemma removelast_cons2 {A} (a : A) l : l <> [] -> removelast (a :: l) = a :: removelast l.
Proof. destruct l; easy. Qed.

Lemma last_cons2 {A} (a d : A) l : l <> [] -> List.last (a :: l) d = List.last l d.
Proof. destruct l; easy. Qed.

Lemma last_app_r {A} (l1 l2 : list A) d :
  l2 <> [] -> List.last (l1 ++ l2) d = List.last l2 d.
Proof.
  intros Hne. induction l1 as [|a l1 IH]; [reflexivity|].
  simpl app. rewrite last_cons2; [exact IH|].
  destruct l1, l2; easy.
Qed.

(** Splitting a concatenation: the unfinished last piece of the first
    part is carried over in front of the second part. *)
Lemma split_app sep (x y : jsstring) :
  split sep (x ++ y)
  = removelast (split sep x) ++ split sep (List.last (split sep x) [] ++ y).
Proof.
  induction x as [|c x IH]; [reflexivity|].
  cbn [app split]. destruct (c =? sep) eqn:Hc.
  - rewrite removelast_cons2, last_cons2 by apply split_not_nil.
    rewrite IH. reflexivity.
  - rewrite IH. destruct (split sep x) as [|l ls] eqn:Hs.
    { exfalso; eapply split_not_nil; eauto. }
    destruct ls as [|l' ls].
    + cbn [removelast List.last app split]. rewrite Hc. reflexivity.
    + rewrite (removelast_cons2 l) by easy.
      rewrite (last_cons2 l) by easy.
      rewrite (removelast_cons2 (c :: l)) by easy.
      rewrite (last_cons2 (c :: l)) by easy. reflexivity.
Qed.

Lemma split_no_sep sep (t : jsstring) : sep ∉ t -> split sep t = [t].
Proof.
  induction t as [|c t IH]; intros Hn; [reflexivity|].
  simpl. destruct (N.eqb_spec c sep) as [->|Hne].
  - exfalso; apply Hn; left.
  - rewrite IH; [reflexivity|]. intros Hin; apply Hn; right; exact Hin.
Qed.

(** A boolean test for the absence of a code unit. *)
Lemma not_elem_of_forallb (x : N) (t : jsstring) :
  forallb (fun c => negb (c =? x)) t = true -> x ∉ t.
Proof.
  induction t as [|c t IH]; simpl; intros Hall Hin.
  - inversion Hin.
  - apply andb_true_iff in Hall as [Hc Ht].
    apply elem_of_cons in Hin as [->|Hin].
    + rewrite N.eqb_refl in Hc. discriminate.
    + exact (IH Ht Hin).
Qed.

Lemma split_line sep (l b : jsstring) :
  sep ∉ l -> split sep (l ++ sep :: b) = l :: split sep b.
Proof.
  induction l as [|c l IH]; intros Hn; simpl.
  - rewrite N.eqb_refl. reflexivity.
  - destruct (N.eqb_spec c sep) as [->|Hne].
    + exfalso; apply Hn; left.
    + rewrite IH; [reflexivity|]. intros Hin; apply Hn; right; exact Hin.
Qed.

Lemma strip_app_confined (p q : jsstring) :
  (StreamProcessor.leading_newlines (p ++ q) <= length p)%nat ->
  strip_leading_newlines (p ++ q) = strip_leading_newlines p ++ q.
Proof.
  induction p as [|c p IH]; simpl.
  - destruct q as [|c q]; simpl; [reflexivity|].
    destruct (is_line_break c); [lia | reflexivity].
  - destruct (is_line_break c); [|reflexivity].
    intros Hle. apply IH. lia.
Qed.

Lemma leading_newlines_prefix (p q r : jsstring) :
  (StreamProcessor.leading_newlines (p ++ q ++ r) <= length p)%nat ->
  (StreamProcessor.leading_newlines (p ++ q) <= length p)%nat.
Proof.
  induction p as [|c p IH]; simpl.
  - destruct q as [|c q]; simpl; [lia|].
    destruct (is_line_break c); lia.
  - destruct (is_line_break c); [|lia].
    intros Hle. apply le_n_S, IH. lia.
Qed.

Lemma strip_leading_newlines_length (s : jsstring) :
  (length (strip_leading_newlines s) <= length s)%nat.
Proof.
  induction s as [|c s IH]; simpl; [lia|].
  destruct (is_line_break c); simpl; lia.
Qed.

(** The strip commutes with appending exactly when the leading line
    breaks stop inside the first part. *)
Lemma strip_app_confined_inv (p q : jsstring) :
  strip_leading_newlines (p ++ q) = strip_leading_newlines p ++ q ->
  (StreamProcessor.leading_newlines (p ++ q) <= length p)%nat.
Proof.
  induction p as [|c p IH]; simpl.
  - destruct q as [|c q]; simpl; [lia|].
    destruct (is_line_break c); [|lia].
    intros Heq. pose proof (strip_leading_newlines_length q) as Hlen.
    rewrite Heq in Hlen. simpl in Hlen. lia.
  - destruct (is_line_break c); [|lia].
    intros Heq. apply le_n_S, IH, Heq.
Qed.

(** A text is its terminated lines, each with its newline, and what
    follows the last newline. *)
Lemma split_unsplit sep (s : jsstring) :
  s = concat (map (fun l => l ++ [sep]) (removelast (split sep s)))
      ++ List.last (split sep s) [].
Proof.
  induction s as [|c s IH]; [reflexivity|].
  cbn [split]. destruct (N.eqb_spec c sep) as [->|Hne].
  - rewrite removelast_cons2, last_cons2 by apply split_not_nil.
    cbn [map concat app]. rewrite <- IH. reflexivity.
  - pose proof (split_not_nil sep s) as Hnil.
    destruct (split sep s) as [|l ls]; [easy|].
    destruct ls as [|l' ls].
    + cbn [removelast List.last map concat app] in *. rewrite IH at 1.
      reflexivity.
    + rewrite (removelast_cons2 (c :: l)), (last_cons2 (c :: l)) by easy.
      rewrite (removelast_cons2 l), (last_cons2 l) in IH by easy.
      cbn [map concat app] in *. rewrite IH at 1. reflexivity.
Qed.

(* ================================================================== *)
(** * Properties of the stream processor *)
(* ================================================================== *)

Section DecoderTheory.
Context `{Engine}.
Import StreamProcessor.

Lemma lines_content_from (lines : list jsstring) (acc : jsstring) :
  fold_left
    (fun chunkContent line =>
       let content := parseSSELine line in
       if truthy content then chunkContent ++ to_string content
       else chunkContent)
    lines acc
  = acc ++ concat (map fragment lines).
Proof.
  revert acc; induction lines as [|l ls IH]; intros acc; simpl.
  - rewrite app_nil_r; reflexivity.
  - rewrite IH. unfold fragment. cbv zeta.
    destruct (truthy (parseSSELine l)).
    + rewrite <- app_assoc; reflexivity.
    + reflexivity.
Qed.

Lemma lines_content_fragments lines :
  lines_content lines = concat (map fragment lines).
Proof. unfold lines_content. rewrite lines_content_from. reflexivity. Qed.

Lemma complete_lines_app x y :
  complete_lines (x ++ y)
  = complete_lines x ++ complete_lines (tail_line x ++ y).
Proof.
  unfold complete_lines, tail_line. rewrite split_app.
  apply removelast_app, split_not_nil.
Qed.

Lemma tail_line_app x y : tail_line (x ++ y) = tail_line (tail_line x ++ y).
Proof.
  unfold tail_line. rewrite split_app.
  apply last_app_r, split_not_nil.
Qed.

Lemma complete_lines_no_newline t : LF ∉ t -> complete_lines t = [].
Proof. intros Hn. unfold complete_lines. rewrite split_no_sep; auto. Qed.

Lemma tail_line_no_newline t : LF ∉ t -> tail_line t = t.
Proof. intros Hn. unfold tail_line. rewrite split_no_sep; auto. Qed.

Lemma complete_lines_line l b :
  LF ∉ l -> complete_lines (l ++ LF :: b) = l :: complete_lines b.
Proof.
  intros Hn. unfold complete_lines. rewrite split_line by exact Hn.
  apply removelast_cons2, split_not_nil.
Qed.

Lemma tail_line_line l b : LF ∉ l -> tail_line (l ++ LF :: b) = tail_line b.
Proof.
  intros Hn. unfold tail_line. rewrite split_line by exact Hn.
  apply last_cons2, split_not_nil.
Qed.

Lemma fragments_app x y :
  fragments (x ++ y) = fragments x ++ fragments (tail_line x ++ y).
Proof. unfold fragments. rewrite complete_lines_app, map_app. reflexivity. Qed.

(** One turn of the loop, in terms of the lines it completes. *)
Lemma consume_eq st chunk :
  consume st chunk =
  let content := concat (fragments (buffer st ++ chunk)) in
  match content with
  | [] =>
      {| fullResponse := fullResponse st;
         buffer := tail_line (buffer st ++ chunk);
         isFirstContent := isFirstContent st;
         onChunk_calls := onChunk_calls st |}
  | _ :: _ =>
      let full :=
        fullResponse st ++
        (if isFirstContent st then strip_leading_newlines content
         else content) in
      {| fullResponse := full;
         buffer := tail_line (buffer st ++ chunk);
         isFirstContent := false;
         onChunk_calls := onChunk_calls st ++ [full] |}
  end.
Proof.
  unfold consume, pop, fragments. rewrite lines_content_fragments.
  fold (complete_lines (buffer st ++ chunk)).
  fold (tail_line (buffer st ++ chunk)).
  cbv zeta.
  destruct (concat (map fragment (complete_lines (buffer st ++ chunk))));
    reflexivity.
Qed.

Lemma buffer_consume st chunk :
  buffer (consume st chunk) = tail_line (buffer st ++ chunk).
Proof.
  rewrite consume_eq. cbv zeta.
  destruct (concat (fragments (buffer st ++ chunk))); reflexivity.
Qed.

(** The carryover buffer is what follows the last newline received. *)
Lemma buffer_run chunks st seen :
  buffer st = tail_line seen ->
  buffer (fold_left consume chunks st) = tail_line (seen ++ concat chunks).
Proof.
  revert st seen; induction chunks as [|c cs IH]; intros st seen Hb; simpl.
  - rewrite app_nil_r. exact Hb.
  - rewrite app_assoc. apply IH.
    rewrite buffer_consume, Hb, <- tail_line_app. reflexivity.
Qed.

Lemma pump_chunks {error} chunks st :
  pump (error := error) st (reader_of_chunks chunks)
  = inr (fold_left consume chunks st).
Proof.
  revert st; induction chunks as [|c cs IH]; intros st; simpl; auto.
Qed.

Lemma processStream_chunks {error} chunks :
  processStream (error := error) (reader_of_chunks chunks)
  = inr (onChunk_calls (fold_left consume chunks initial),
         final_text chunks).
Proof. unfold processStream. rewrite pump_chunks. reflexivity. Qed.

Lemma split_pieces_no_sep sep s : Forall (fun l => sep ∉ l) (split sep s).
Proof.
  induction s as [|c s IH]; simpl.
  - constructor; [|constructor]. intros Hin; inversion Hin.
  - destruct (N.eqb_spec c sep) as [->|Hne].
    + constructor; [|exact IH]. intros Hin; inversion Hin.
    + pose proof (split_not_nil sep s) as Hnil.
      destruct (split sep s) as [|l ls]; [easy|].
      inversion IH; subst. constructor; [|assumption].
      intros Hin. apply elem_of_cons in Hin as [Heq|Hin];
        [congruence | contradiction].
Qed.

Lemma tail_line_no_LF s : LF ∉ tail_line s.
Proof.
  unfold tail_line. pose proof (split_pieces_no_sep LF s) as Hall.
  pose proof (split_not_nil LF s) as Hne.
  induction (split LF s) as [|l ls IH]; [easy|].
  inversion Hall; subst. destruct ls as [|l' ls]; [assumption|].
  rewrite last_cons2 by easy. apply IH; easy.
Qed.

Lemma not_elem_of_app_LF (x y : jsstring) : LF ∉ x -> LF ∉ y -> LF ∉ x ++ y.
Proof. intros Hx Hy Hin. apply elem_of_app in Hin as [?|?]; auto. Qed.

(** Text after the last newline completes no line. *)
Lemma fragments_unterminated x t : LF ∉ t -> fragments (x ++ t) = fragments x.
Proof.
  intros Hn. rewrite fragments_app. unfold fragments at 2.
  rewrite complete_lines_no_newline.
  - apply app_nil_r.
  - apply not_elem_of_app_LF; [apply tail_line_no_LF | exact Hn].
Qed.

(** ** Leading line breaks *)

Lemma first_nonempty_app_l (l1 l2 : list jsstring) :
  concat l1 <> [] -> first_nonempty (l1 ++ l2) = first_nonempty l1.
Proof.
  induction l1 as [|x l1 IH]; simpl; [easy|].
  destruct x; simpl; auto.
Qed.

Lemma first_nonempty_app_r (l1 l2 : list jsstring) :
  concat l1 = [] -> first_nonempty (l1 ++ l2) = first_nonempty l2.
Proof.
  induction l1 as [|x l1 IH]; simpl; [easy|].
  destruct x; simpl; [auto | easy].
Qed.

Lemma first_nonempty_length (l : list jsstring) :
  (length (first_nonempty l) <= length (concat l))%nat.
Proof.
  induction l as [|x l IH]; simpl; [lia|].
  destruct x; simpl; [exact IH|]. rewrite length_app. lia.
Qed.

Lemma decoded_initial : decoded initial [].
Proof.
  split; [reflexivity|]. split; intros Hf; [split; reflexivity|].
  discriminate Hf.
Qed.

Lemma decoded_consume st seen chunk rest :
  decoded st seen ->
  strip_confined (seen ++ chunk ++ rest) ->
  decoded (consume st chunk) (seen ++ chunk).
Proof.
  intros (Hb & Hfirst & Hlater) Hconf. unfold decoded.
  rewrite (fragments_app seen chunk), concat_app, consume_eq, Hb.
  cbv zeta.
  set (new := concat (fragments (tail_line seen ++ chunk))).
  destruct (isFirstContent st) eqn:Hf.
  - destruct (Hfirst eq_refl) as [Hx Hfull]. rewrite Hx, Hfull. simpl.
    destruct new eqn:Hnew; simpl.
    + split; [symmetry; apply tail_line_app|]. split; [auto|congruence].
    + split; [symmetry; apply tail_line_app|]. split; [congruence|].
      intros _. split; [congruence | reflexivity].
  - destruct (Hlater eq_refl) as [Hx Hfull].
    assert (Hstrip :
      strip_leading_newlines (concat (fragments seen) ++ new)
      = strip_leading_newlines (concat (fragments seen)) ++ new).
    { apply strip_app_confined.
      unfold strip_confined in Hconf.
      rewrite app_assoc, (fragments_app (seen ++ chunk) rest) in Hconf.
      rewrite (fragments_app seen chunk) in Hconf.
      rewrite <- app_assoc, first_nonempty_app_l in Hconf by exact Hx.
      rewrite !concat_app in Hconf. fold new in Hconf.
      apply (leading_newlines_prefix _ _
               (concat (fragments (tail_line (seen ++ chunk) ++ rest)))).
      pose proof (first_nonempty_length (fragments seen)). lia. }
    destruct new eqn:Hnew; cbn [fullResponse buffer isFirstContent].
    + split; [symmetry; apply tail_line_app|]. rewrite app_nil_r.
      split; [congruence | auto].
    + split; [symmetry; apply tail_line_app|]. split; [congruence|].
      intros _. split.
      * intros Hnil. apply app_eq_nil in Hnil as [? ?]; auto.
      * rewrite Hstrip, Hfull. reflexivity.
Qed.

Lemma decoded_run chunks st seen :
  decoded st seen ->
  strip_confined (seen ++ concat chunks) ->
  decoded (fold_left consume chunks st) (seen ++ concat chunks).
Proof.
  revert st seen; induction chunks as [|c cs IH]; intros st seen Hd Hconf.
  - simpl. rewrite app_nil_r. exact Hd.
  - simpl. rewrite app_assoc. apply IH.
    + eapply decoded_consume; [exact Hd|]. simpl in Hconf. exact Hconf.
    + rewrite <- app_assoc. exact Hconf.
Qed.

Lemma decoded_fullResponse st seen :
  decoded st seen ->
  fullResponse st = strip_leading_newlines (concat (fragments seen)).
Proof.
  intros (_ & Hfirst & Hlater). destruct (isFirstContent st).
  - destruct (Hfirst eq_refl) as [-> ->]. reflexivity.
  - destruct (Hlater eq_refl) as [_ ->]. reflexivity.
Qed.

(** The reply of a stream read in one piece. *)
Lemma final_text_single stream :
  final_text [stream] = strip_leading_newlines (concat (fragments stream)).
Proof.
  unfold final_text. simpl fold_left. rewrite consume_eq. simpl.
  destruct (concat (fragments stream)); reflexivity.
Qed.

Lemma final_text_confined chunks :
  strip_confined (concat chunks) ->
  final_text chunks
  = strip_leading_newlines (concat (fragments (concat chunks))).
Proof.
  intros Hconf. unfold final_text.
  apply (decoded_fullResponse _ (concat chunks)).
  apply (decoded_run chunks initial []); [apply decoded_initial | exact Hconf].
Qed.

(** ** A cut that shows the strip *)

Lemma complete_lines_no_LF s : Forall (fun l => LF ∉ l) (complete_lines s).
Proof.
  unfold complete_lines. pose proof (split_pieces_no_sep LF s) as Hall.
  induction (split LF s) as [|l ls IH]; [constructor|].
  inversion Hall; subst. destruct ls as [|l' ls]; [constructor|].
  rewrite removelast_cons2 by easy. constructor; auto.
Qed.

Lemma unsplit_lines s :
  s = concat (map (fun l => l ++ [LF]) (complete_lines s)) ++ tail_line s.
Proof. apply split_unsplit. Qed.

Lemma complete_lines_terminated (ls : list jsstring) (r : jsstring) :
  Forall (fun l => LF ∉ l) ls ->
  complete_lines (concat (map (fun l => l ++ [LF]) ls) ++ r)
  = ls ++ complete_lines r.
Proof.
  induction 1 as [|l ls Hl _ IH]; [reflexivity|].
  cbn [map concat]. rewrite <- !app_assoc. cbn [app].
  rewrite complete_lines_line by exact Hl. rewrite IH. reflexivity.
Qed.

Lemma tail_line_terminated (ls : list jsstring) (r : jsstring) :
  Forall (fun l => LF ∉ l) ls ->
  tail_line (concat (map (fun l => l ++ [LF]) ls) ++ r) = tail_line r.
Proof.
  induction 1 as [|l ls Hl _ IH]; [reflexivity|].
  cbn [map concat]. rewrite <- !app_assoc. cbn [app].
  rewrite tail_line_line by exact Hl. exact IH.
Qed.

(** The lines up to the first one that yields text. *)
Lemma first_fragment_split (ls : list jsstring) :
  concat (map fragment ls) <> [] ->
  exists ls1 l ls2,
    ls = ls1 ++ l :: ls2 /\
    concat (map fragment ls1) = [] /\
    fragment l <> [] /\
    first_nonempty (map fragment ls) = fragment l.
Proof.
  induction ls as [|l ls IH]; [easy|]. cbn [map concat]. intros Hne.
  destruct (fragment l) as [|c f] eqn:Hf.
  - destruct (IH Hne) as (ls1 & l' & ls2 & -> & Hempty & Hl' & Hfirst).
    exists (l :: ls1), l', ls2. cbn [map concat first_nonempty app].
    rewrite Hf. auto.
  - exists [], l, ls. cbn [map concat first_nonempty app]. rewrite Hf.
    repeat split; easy.
Qed.

(** A stream whose leading line breaks run past its first fragment
    has a cut, right after the line of that fragment, that changes the
    reply. *)
Lemma unconfined_cut stream :
  ~ strip_confined stream ->
  exists chunk1 chunk2,
    chunk1 ++ chunk2 = stream /\
    final_text [chunk1; chunk2] <> final_text [stream].
Proof.
  intros Hnot. unfold strip_confined, fragments in Hnot.
  assert (Hne : concat (map fragment (complete_lines stream)) <> []).
  { intros Hnil. apply Hnot. rewrite Hnil. simpl. lia. }
  destruct (first_fragment_split _ Hne)
    as (ls1 & l & ls2 & Hls & Hempty & Hl & Hfirst).
  pose proof (complete_lines_no_LF stream) as Hall. rewrite Hls in Hall.
  apply Forall_app in Hall as [Hall1 Hall2].
  inversion Hall2 as [|? ? Hl_nl Hall3]; subst.
  set (nl := fun l : jsstring => l ++ [LF]).
  set (chunk1 := concat (map nl (ls1 ++ [l]))).
  set (chunk2 := concat (map nl ls2) ++ tail_line stream).
  assert (Hstream : chunk1 ++ chunk2 = stream).
  { etransitivity; [|symmetry; apply unsplit_lines].
    rewrite Hls. subst chunk1 chunk2. fold nl.
    rewrite app_assoc, <- concat_app, <- map_app, <- app_assoc.
    reflexivity. }
  assert (Hall1' : Forall (fun l => LF ∉ l) (ls1 ++ [l])).
  { apply Forall_app; split; [exact Hall1|]. constructor; [exact Hl_nl|constructor]. }
  assert (Hfr1 : concat (fragments chunk1) = fragment l).
  { unfold fragments. rewrite <- (app_nil_r chunk1). subst chunk1.
    rewrite complete_lines_terminated by exact Hall1'.
    rewrite app_nil_r, map_app, concat_app, Hempty. simpl.
    apply app_nil_r. }
  assert (Htl1 : tail_line chunk1 = []).
  { rewrite <- (app_nil_r chunk1). subst chunk1.
    rewrite tail_line_terminated by exact Hall1'. reflexivity. }
  assert (Hfr2 : concat (fragments chunk2) = concat (map fragment ls2)).
  { unfold fragments. subst chunk2.
    rewrite complete_lines_terminated by exact Hall3.
    rewrite complete_lines_no_newline by apply tail_line_no_LF.
    rewrite app_nil_r. reflexivity. }
  exists chunk1, chunk2. split; [exact Hstream|].
  rewrite final_text_single. unfold final_text. cbn [fold_left].
  rewrite (consume_eq initial chunk1). cbn [buffer initial app]. cbv zeta.
  rewrite Hfr1. destruct (fragment l) as [|c f] eqn:Hf; [easy|].
  cbn [isFirstContent fullResponse initial app].
  rewrite consume_eq. cbn [buffer isFirstContent fullResponse]. cbv zeta.
  rewrite Htl1. cbn [app]. rewrite Hfr2.
  assert (Hwhole : concat (fragments stream)
                   = (c :: f) ++ concat (map fragment ls2)).
  { unfold fragments. rewrite Hls, map_app, concat_app, Hempty.
    cbn [map concat app]. rewrite Hf. reflexivity. }
  rewrite Hwhole. intros Heq. apply Hnot. rewrite Hfirst.
  change (map fragment (complete_lines stream)) with (fragments stream).
  rewrite Hwhole.
  apply strip_app_confined_inv. rewrite <- Heq.
  destruct (concat (map fragment ls2)); [rewrite app_nil_r|]; reflexivity.
Qed.

(** ** Unterminated text and silent lines *)

(** Text that follows the last newline of a read changes nothing but
    the carryover buffer. *)
Lemma consume_unterminated st chunk t :
  LF ∉ t ->
  fullResponse (consume st (chunk ++ t)) = fullResponse (consume st chunk) /\
  onChunk_calls (consume st (chunk ++ t)) = onChunk_calls (consume st chunk).
Proof.
  intros Hn. rewrite !consume_eq. cbv zeta.
  rewrite app_assoc, fragments_unterminated by exact Hn.
  destruct (concat (fragments (buffer st ++ chunk))); split; reflexivity.
Qed.

Lemma fragment_silent line :
  parseSSELine line = empty_string -> fragment line = [].
Proof. unfold fragment. intros ->. reflexivity. Qed.

(** A line that yields no fragment can be taken out of the read that
    completes it. *)
Lemma consume_silent_line st a line b :
  tail_line (buffer st ++ a) = [] ->
  LF ∉ line ->
  fragment line = [] ->
  consume st (a ++ line ++ LF :: b) = consume st (a ++ b).
Proof.
  intros Htail Hn Hsilent. rewrite !consume_eq. cbv zeta.
  assert (Hfr : concat (fragments (buffer st ++ a ++ line ++ LF :: b))
                = concat (fragments (buffer st ++ a ++ b))).
  { rewrite !(app_assoc (buffer st) a).
    rewrite (fragments_app (buffer st ++ a) (line ++ LF :: b)).
    rewrite (fragments_app (buffer st ++ a) b).
    rewrite Htail, !app_nil_l. unfold fragments at 2.
    rewrite complete_lines_line by exact Hn.
    cbn [map]. rewrite !concat_app, concat_cons, Hsilent. reflexivity. }
  assert (Htl : tail_line (buffer st ++ a ++ line ++ LF :: b)
                = tail_line (buffer st ++ a ++ b)).
  { rewrite !(app_assoc (buffer st) a).
    rewrite (tail_line_app (buffer st ++ a) (line ++ LF :: b)).
    rewrite (tail_line_app (buffer st ++ a) b).
    rewrite Htail, !app_nil_l. apply tail_line_line, Hn. }
  rewrite Hfr, Htl. reflexivity.
Qed.

Lemma run_silent_line before a line b after :
  tail_line (concat before ++ a) = [] ->
  LF ∉ line ->
  fragment line = [] ->
  fold_left consume (before ++ [a ++ line ++ LF :: b] ++ after) initial
  = fold_left consume (before ++ [a ++ b] ++ after) initial.
Proof.
  intros Htail Hn Hsilent. rewrite !fold_left_app. simpl.
  rewrite consume_silent_line; auto.
  rewrite (buffer_run before initial []) by reflexivity.
  simpl. rewrite <- tail_line_app. exact Htail.
Qed.

(** ** Lines that yield nothing *)

Lemma parseSSELine_blank line : trim line = [] -> parseSSELine line = empty_string.
Proof. unfold parseSSELine. intros ->. reflexivity. Qed.

Lemma parseSSELine_sentinel line :
  trim line = CHAT_CONFIG.SSE.DATA_PREFIX ++ CHAT_CONFIG.SSE.DONE_MESSAGE ->
  parseSSELine line = empty_string.
Proof.
  unfold parseSSELine. intros ->. cbv zeta.
  rewrite jsstring_eqb_refl, orb_true_r. reflexivity.
Qed.

Lemma parseSSELine_no_prefix line :
  startsWith (trim line) CHAT_CONFIG.SSE.DATA_PREFIX = false ->
  parseSSELine line = empty_string.
Proof.
  unfold parseSSELine. cbv zeta. intros ->.
  destruct (_ || _); reflexivity.
Qed.

Lemma parseSSELine_throws line :
  parse_data (trim line) = None -> parseSSELine line = empty_string.
Proof.
  unfold parseSSELine. cbv zeta. intros ->.
  destruct (_ || _); [reflexivity|]. destruct (startsWith _ _); reflexivity.
Qed.

Lemma parse_data_syntax_error trimmed :
  JSON_parse (slice (length CHAT_CONFIG.SSE.DATA_PREFIX) trimmed) = None ->
  parse_data trimmed = None.
Proof. unfold parse_data. cbv zeta. intros ->. reflexivity. Qed.

Lemma parse_data_delta trimmed data :
  JSON_parse (slice (length CHAT_CONFIG.SSE.DATA_PREFIX) trimmed) = Some data ->
  parse_data trimmed = extractContent <$> delta_of data.
Proof.
  unfold parse_data, delta_of. cbv zeta. intros ->. simpl.
  destruct (get_member data (js "choices")) as [choices|]; [simpl|reflexivity].
  destruct (get_index0 choices) as [choice|]; [simpl|reflexivity].
  destruct (get_member_opt choice (js "delta")); reflexivity.
Qed.

(** A delta that is not an object carries no text. *)
Lemma extractContent_not_object delta :
  match delta with JSObject _ => False | _ => True end ->
  extractContent delta = empty_string.
Proof.
  unfold extractContent.
  destruct delta as [| |b|n|s|l|fields]; simpl; try reflexivity.
  - destruct b; reflexivity.
  - destruct (number_is_falsy n); reflexivity.
  - destruct s; reflexivity.
  - intros [].
Qed.

(** A delta whose two fields are text or missing. *)
Lemma extractContent_text fields (reasoning content : option jsstring) :
  lookup_field (js "content") fields = JSString <$> content ->
  lookup_field (js "reasoning_content") fields = JSString <$> reasoning ->
  extractContent (JSObject fields)
  = JSString (default [] reasoning ++ default [] content).
Proof.
  unfold extractContent. simpl. intros -> ->.
  destruct reasoning as [[|? ?]|], content as [[|? ?]|]; reflexivity.
Qed.
End DecoderTheory.

(* ================================================================== *)
(** * Properties of the storage manager *)
(* ================================================================== *)

Section StorageTheory.
Context `{Engine}.
Import CHAT_CONFIG StorageManager.

Lemma keys_distinct : STORAGE_KEYS.API_KEY <> STORAGE_KEYS.CHAT_HISTORY.
Proof. discriminate. Qed.

Lemma setItem_accepted key val w :
  storage_accepts (localStorage w) key val = true ->
  localStorage_setItem key val w
  = (Normal tt,
     set_localStorage
       {| accessible := true; quota := quota (localStorage w);
          items := <[key := val]> (items (localStorage w)) |} w).
Proof.
  unfold storage_accepts, localStorage_setItem. cbv zeta.
  intros [-> ->]%andb_true_iff. reflexivity.
Qed.

Lemma setItem_refused key val w :
  storage_accepts (localStorage w) key val = false ->
  exists e, localStorage_setItem key val w = (Throw e, w).
Proof.
  unfold storage_accepts, localStorage_setItem. cbv zeta.
  destruct (accessible (localStorage w)); simpl.
  - intros ->. eauto.
  - eauto.
Qed.

Lemma saveHistory_accepted history w :
  storage_accepts (localStorage w) STORAGE_KEYS.CHAT_HISTORY
    (JSON_stringify (JSArray history)) = true ->
  saveHistory history w
  = (Normal tt,
     set_localStorage
       {| accessible := true; quota := quota (localStorage w);
          items := <[STORAGE_KEYS.CHAT_HISTORY :=
                       JSON_stringify (JSArray history)]>
                     (items (localStorage w)) |} w).
Proof.
  intros Hacc. unfold saveHistory, try_catch.
  rewrite setItem_accepted by exact Hacc. reflexivity.
Qed.

Lemma saveHistory_refused history w :
  storage_accepts (localStorage w) STORAGE_KEYS.CHAT_HISTORY
    (JSON_stringify (JSArray history)) = false ->
  exists e,
    saveHistory history w
    = (Normal tt,
       set_console (console w ++ [(js "Failed to save history:", e)]) w).
Proof.
  intros Hacc. unfold saveHistory, try_catch.
  destruct (setItem_refused _ _ _ Hacc) as [e ->]. exists e. reflexivity.
Qed.

Lemma saveApiKey_accepted key w :
  storage_accepts (localStorage w) STORAGE_KEYS.API_KEY key = true ->
  saveApiKey key w
  = (Normal tt,
     set_localStorage
       {| accessible := true; quota := quota (localStorage w);
          items := <[STORAGE_KEYS.API_KEY := key]> (items (localStorage w)) |}
       w).
Proof.
  intros Hacc. unfold saveApiKey, try_catch.
  rewrite setItem_accepted by exact Hacc. reflexivity.
Qed.

Lemma saveApiKey_refused key w :
  storage_accepts (localStorage w) STORAGE_KEYS.API_KEY key = false ->
  exists e,
    saveApiKey key w
    = (Throw (Error (js "无法保存 API Key")),
       set_console (console w ++ [(js "Failed to save API key:", e)]) w).
Proof.
  intros Hacc. unfold saveApiKey, try_catch.
  destruct (setItem_refused _ _ _ Hacc) as [e ->]. exists e. reflexivity.
Qed.

Lemma getApiKey_accessible w :
  accessible (localStorage w) = true ->
  getApiKey w = (Normal (items (localStorage w) !! STORAGE_KEYS.API_KEY), w).
Proof.
  intros Hacc. unfold getApiKey, try_catch, localStorage_getItem.
  rewrite Hacc. reflexivity.
Qed.

Lemma getApiKey_inaccessible w :
  accessible (localStorage w) = false ->
  getApiKey w
  = (Normal None,
     set_console
       (console w ++ [(js "Failed to get API key:", SecurityError)]) w).
Proof.
  intros Hacc. unfold getApiKey, try_catch, localStorage_getItem.
  rewrite Hacc. reflexivity.
Qed.

Lemma removeApiKey_accessible w :
  accessible (localStorage w) = true ->
  removeApiKey w
  = (Normal tt,
     set_localStorage
       {| accessible := true; quota := quota (localStorage w);
          items := delete STORAGE_KEYS.API_KEY (items (localStorage w)) |} w).
Proof.
  intros Hacc. unfold removeApiKey, try_catch, localStorage_removeItem.
  cbv zeta. rewrite Hacc. reflexivity.
Qed.

Lemma removeApiKey_inaccessible w :
  accessible (localStorage w) = false ->
  removeApiKey w
  = (Normal tt,
     set_console
       (console w ++ [(js "Failed to remove API key:", SecurityError)]) w).
Proof.
  intros Hacc. unfold removeApiKey, try_catch, localStorage_removeItem.
  cbv zeta. rewrite Hacc. reflexivity.
Qed.

Lemma clearHistory_accessible w :
  accessible (localStorage w) = true ->
  clearHistory w
  = (Normal tt,
     set_localStorage
       {| accessible := true; quota := quota (localStorage w);
          items := delete STORAGE_KEYS.CHAT_HISTORY (items (localStorage w)) |}
       w).
Proof.
  intros Hacc. unfold clearHistory, try_catch, localStorage_removeItem.
  cbv zeta. rewrite Hacc. reflexivity.
Qed.

Lemma clearHistory_inaccessible w :
  accessible (localStorage w) = false ->
  clearHistory w
  = (Normal tt,
     set_console
       (console w ++ [(js "Failed to clear history:", SecurityError)]) w).
Proof.
  intros Hacc. unfold clearHistory, try_catch, localStorage_removeItem.
  cbv zeta. rewrite Hacc. reflexivity.
Qed.

(** [getHistory] always returns. *)
Lemma getHistory_returns w : exists v w', getHistory w = (Normal v, w').
Proof.
  unfold getHistory, try_catch, mbind, JS_bind, localStorage_getItem.
  destruct (accessible (localStorage w)) eqn:Hacc.
  - destruct (items (localStorage w) !! STORAGE_KEYS.CHAT_HISTORY)
      as [[|c s]|]; [eauto| |eauto].
    unfold JSON_parse_js. destruct (JSON_parse (c :: s)); [eauto|].
    unfold throw, console_error, update.
    rewrite clearHistory_accessible by exact Hacc. eauto.
  - unfold console_error, update.
    rewrite clearHistory_inaccessible by exact Hacc. eauto.
Qed.

Lemma getHistory_absent w :
  items (localStorage w) !! STORAGE_KEYS.CHAT_HISTORY = None ->
  exists w', getHistory w = (Normal (JSArray []), w') /\
             localStorage w' = localStorage w /\
             view w' = view w /\ requests w' = requests w /\
             chatHistory w' = chatHistory w.
Proof.
  intros Hnone.
  unfold getHistory, try_catch, mbind, JS_bind, localStorage_getItem.
  destruct (accessible (localStorage w)) eqn:Hacc.
  - rewrite Hnone. eauto 10.
  - unfold console_error, update.
    rewrite clearHistory_inaccessible by exact Hacc.
    eexists; split; [reflexivity|]. auto.
Qed.

(** A record that [JSON.parse] rejects is removed. *)
Lemma getHistory_corrupt w c s :
  accessible (localStorage w) = true ->
  items (localStorage w) !! STORAGE_KEYS.CHAT_HISTORY = Some (c :: s) ->
  JSON_parse (c :: s) = None ->
  getHistory w
  = (Normal (JSArray []),
     set_localStorage
       {| accessible := true; quota := quota (localStorage w);
          items := delete STORAGE_KEYS.CHAT_HISTORY (items (localStorage w)) |}
       (set_console
          (console w ++ [(js "Failed to load history:", SyntaxError)]) w)).
Proof.
  intros Hacc Hrec Hbad.
  unfold getHistory, try_catch, mbind, JS_bind, localStorage_getItem.
  rewrite Hacc, Hrec. unfold JSON_parse_js. rewrite Hbad.
  unfold throw, console_error, update.
  rewrite clearHistory_accessible by exact Hacc. reflexivity.
Qed.

(** An empty record is read as no record, and stays. *)
Lemma getHistory_empty_record w :
  accessible (localStorage w) = true ->
  items (localStorage w) !! STORAGE_KEYS.CHAT_HISTORY = Some [] ->
  getHistory w = (Normal (JSArray []), w).
Proof.
  intros Hacc Hrec.
  unfold getHistory, try_catch, mbind, JS_bind, localStorage_getItem.
  rewrite Hacc, Hrec. reflexivity.
Qed.
End StorageTheory.

(* ================================================================== *)
(** * Properties of the controller *)
(* ================================================================== *)

Section ControllerTheory.
Context `{Engine}.
Import CHAT_CONFIG StorageManager ChatAPIClient ChatController.

(** Runs the monadic plumbing and the field updates of a computation,
    leaving the storage manager's functions and the strings folded. *)
Ltac js_run :=
  repeat progress
    (cbv beta iota zeta delta
       [mbind mret JS_bind JS_ret read update call_view try_catch throw
        console_error
        set_localStorage set_console set_view set_requests set_chatInput
        set_sendBtn_disabled set_apiKeyInput set_chatHistory];
     cbn [localStorage console view requests chatInput sendBtn_disabled
          apiKeyInput chatHistory accessible quota items fst snd]).

(** ** Computations that keep the history invariant *)

(** The invariant is kept for any messages [known] that include what
    the page adds, and any record [found] at load. *)
Variable known : value -> Prop.
Variable found : option jsstring.
Hypothesis known_user :
  forall content, known (message_object (js "user") content).
Hypothesis known_assistant :
  forall content, known (message_object (js "assistant") content).

Local Abbreviation keeps := (ChatController.keeps known found).
Local Abbreviation history_invariant :=
  (ChatController.history_invariant known found).




Lemma keeps_try_catch {A} (body : JS A) handler :
  keeps body -> (forall e, keeps (handler e)) -> keeps (try_catch body handler).
Proof.
  intros Hb Hh w Hw. specialize (Hb w Hw).
  unfold try_catch. destruct (body w) as [[a|e] w1]; simpl in *.
  - exact Hb.
  - apply Hh, Hb.
Qed.


(** An update that leaves the history, the storage and the requests
    alone. *)
Lemma keeps_update_frame (f : World -> World) :
  (forall w, chatHistory (f w) = chatHistory w /\
             localStorage (f w) = localStorage w /\
             requests (f w) = requests w) ->
  keeps (update f).
Proof.
  intros Hf w (Hh & Hs & Hr). destruct (Hf w) as (E1 & E2 & E3).
  unfold update, ChatController.history_invariant, stored_history. simpl.
  rewrite E1, E2, E3. auto.
Qed.


Lemma keeps_console_error label e : keeps (console_error label e).
Proof. apply keeps_update_frame. intros []; auto. Qed.



Lemma keeps_setItem key val :
  (key = STORAGE_KEYS.CHAT_HISTORY -> written_record known val) ->
  keeps (localStorage_setItem key val).
Proof.
  intros Hval [ls con vw rq ci sb ak ch] (Hh & Hs & Hr).
  unfold localStorage_setItem. cbv zeta. simpl.
  destruct (accessible ls); [|repeat split; assumption].
  destruct (_ <=? _)%nat; [|repeat split; assumption].
  split; [exact Hh|]. split; [|exact Hr].
  unfold stored_history in *. simpl in *. intros record.
  destruct (decide (key = STORAGE_KEYS.CHAT_HISTORY)) as [->|Hne].
  - rewrite lookup_insert_eq. intros [= <-]. right. auto.
  - rewrite lookup_insert_ne by exact Hne. apply Hs.
Qed.





Lemma keeps_saveHistory history :
  Forall known history -> keeps (saveHistory history).
Proof.
  intros Hh. apply keeps_try_catch.
  - apply keeps_setItem. intros _. exists history. auto.
  - intros e. apply keeps_console_error.
Qed.




(** [this.chatHistory.push(msg); StorageManager.saveHistory(this.chatHistory)] *)
Lemma keeps_push_save msg :
  known msg ->
  keeps (update (fun w => set_chatHistory (chatHistory w ++ [msg]) w);;
         history ← read chatHistory;
         saveHistory history).
Proof.
  intros Hmsg w Hw.
  assert (Hpushed :
    history_invariant (set_chatHistory (chatHistory w ++ [msg]) w)).
  { destruct w as [ls con vw rq ci sb ak ch]. destruct Hw as (Hh & Hs & Hr).
    split; [|split; assumption]. simpl in *.
    apply Forall_app; split; [exact Hh|]. constructor; [exact Hmsg|constructor]. }
  js_run. apply (keeps_saveHistory _ (proj1 Hpushed) _ Hpushed).
Qed.






















(** ** What one call of the handlers does *)

Lemma handleSendMessage_empty w now :
  trim (chatInput w) = [] -> handleSendMessage now w = (Normal Finished, w).
Proof.
  intros Hin. unfold handleSendMessage.
  destruct w as [ls con vw rq ci sb ak ch]. simpl in Hin.
  js_run. rewrite Hin. reflexivity.
Qed.

Lemma stored_credential_accessible w key :
  stored_credential w = Some key ->
  accessible (localStorage w) = true /\
  items (localStorage w) !! STORAGE_KEYS.API_KEY = Some key.
Proof.
  unfold stored_credential. destruct (accessible (localStorage w)); [auto|].
  discriminate.
Qed.

(** A submission with text in the box and a credential in the store:
    the message is pushed and saved, the request is made. *)
Lemma handleSendMessage_sends w now c content k key :
  trim (chatInput w) = c :: content ->
  stored_credential w = Some (k :: key) ->
  let user := message_object (js "user") (c :: content) in
  let loadingId := js "loading-" ++ decimal now in
  let record := JSON_stringify (JSArray (chatHistory w ++ [user])) in
  exists w',
    handleSendMessage now w = (Normal (AwaitingResponse loadingId), w') /\
    chatHistory w' = chatHistory w ++ [user] /\
    requests w'
    = requests w ++
      [{| bearer := k :: key;
          messages := system_message :: chatHistory w ++ [user] |}] /\
    view w'
    = view w ++ [renderUserMessage (c :: content); renderLoading] /\
    chatInput w' = [] /\
    sendBtn_disabled w' = true /\
    stored_credential w' = Some (k :: key) /\
    stored_history w'
    = if storage_accepts (localStorage w) STORAGE_KEYS.CHAT_HISTORY record
      then Some record else stored_history w.
Proof.
  intros Hin Hkey user loadingId record.
  destruct (stored_credential_accessible _ _ Hkey) as [Hacc Hitem].
  unfold handleSendMessage. destruct w as [ls con vw rq ci sb ak ch].
  cbn [chatInput chatHistory localStorage requests view] in *.
  js_run. rewrite Hin. js_run. fold user. fold loadingId.
  destruct (storage_accepts ls STORAGE_KEYS.CHAT_HISTORY record) eqn:Hfits.
  - rewrite saveHistory_accepted by exact Hfits. js_run.
    rewrite getApiKey_accessible by reflexivity. js_run.
    rewrite lookup_insert_ne by (apply not_eq_sym, keys_distinct).
    rewrite Hitem. unfold sendMessage_fetch. js_run.
    eexists; split; [reflexivity|].
    unfold stored_credential, stored_history; simpl.
    rewrite lookup_insert_ne by (apply not_eq_sym, keys_distinct).
    rewrite lookup_insert_eq, <- app_assoc. auto 10.
  - destruct (saveHistory_refused (ch ++ [user])
                {| localStorage := ls; console := con;
                   view := vw ++ [renderUserMessage (c :: content)];
                   requests := rq; chatInput := ci; sendBtn_disabled := sb;
                   apiKeyInput := ak; chatHistory := ch ++ [user] |} Hfits)
      as [e ->].
    js_run. rewrite getApiKey_accessible by exact Hacc. js_run.
    rewrite Hitem. unfold sendMessage_fetch. js_run.
    eexists; split; [reflexivity|].
    unfold stored_credential, stored_history; simpl.
    rewrite Hacc, Hitem, <- app_assoc. auto 10.
Qed.

(** The [catch] block on an error whose message is [401]. *)
Lemma handleSendMessage_catch_401 loadingId error w :
  message error = js "401" ->
  exists w',
    handleSendMessage_catch loadingId error w = (Normal tt, w') /\
    stored_credential w' = None /\
    stored_history w' = stored_history w /\
    chatHistory w' = chatHistory w /\
    requests w' = requests w /\
    view w'
    = view w ++
      [removeMessage loadingId;
       renderError (js "认证失败，API Key 无效。请重新输入。");
       showAuthView].
Proof.
  intros Hmsg. unfold handleSendMessage_catch. rewrite Hmsg.
  change (jsstring_eqb (js "401") (js "401")) with true. cbv iota.
  destruct w as [ls con vw rq ci sb ak ch]. js_run.
  unfold checkApiKey. destruct (accessible ls) eqn:Hacc.
  - rewrite removeApiKey_accessible by exact Hacc. js_run.
    rewrite getApiKey_accessible by reflexivity. js_run.
    rewrite lookup_delete_eq. js_run.
    eexists; split; [reflexivity|].
    unfold stored_credential, stored_history; simpl.
    rewrite lookup_delete_eq, lookup_delete_ne by exact keys_distinct.
    rewrite <- !app_assoc. auto 10.
  - rewrite removeApiKey_inaccessible by exact Hacc. js_run.
    rewrite getApiKey_inaccessible by exact Hacc. js_run.
    eexists; split; [reflexivity|].
    unfold stored_credential, stored_history; simpl.
    rewrite Hacc, <- !app_assoc. auto 10.
Qed.

(** The [catch] block on any other error. *)
Lemma handleSendMessage_catch_other loadingId error w :
  jsstring_eqb (message error) (js "401") = false ->
  handleSendMessage_catch loadingId error w
  = (Normal tt,
     set_view
       (view w ++
        [removeMessage loadingId;
         renderError (js "出错了: " ++ message error
                      ++ js "。请检查您的 API Key 是否正确。")]) w).
Proof.
  intros Hmsg. unfold handleSendMessage_catch. rewrite Hmsg.
  destruct w as [ls con vw rq ci sb ak ch]. js_run.
  rewrite <- app_assoc. reflexivity.
Qed.

Lemma handleSendMessage_response_401 loadingId now w :
  handleSendMessage_response loadingId (Response 401) now w
  = ((handleSendMessage_catch loadingId (Error (js "401"));; mret Finished) w).
Proof. reflexivity. Qed.

Lemma handleSendMessage_response_failed loadingId status now w :
  ok status = false -> status <> 401 ->
  handleSendMessage_response loadingId (Response status) now w
  = ((handleSendMessage_catch loadingId
        (Error (js "API Error: " ++ decimal status));; mret Finished) w).
Proof.
  intros Hok Hne. unfold handleSendMessage_response, sendMessage_settled.
  rewrite Hok. cbn [negb]. apply N.eqb_neq in Hne. rewrite Hne. reflexivity.
Qed.
End ControllerTheory.

(* ================================================================== *)
(** * The decoder: chunk boundaries, unterminated and silent lines *)
(* ================================================================== *)

Section DecoderClaims.
Context `{Engine}.
Import CHAT_CONFIG StreamProcessor.

(** C1 (as amended).  Chunk-boundary invariance holds for every stream
    whose reply does not open with line breaks that run past its first
    non-empty fragment: however such a stream is cut into text chunks,
    [processStream] hands [onComplete] the same text as when the
    stream arrives in one chunk, namely the concatenated fragments of
    the terminated lines without their leading line breaks. *)
Theorem chunk_boundary_invariance (error : Type) (chunks : list jsstring) :
  strip_confined (concat chunks) ->
  exists calls calls' text,
    processStream (error := error) (reader_of_chunks chunks)
      = inr (calls, text) /\
    processStream (error := error) (reader_of_chunks [concat chunks])
      = inr (calls', text) /\
    text = strip_leading_newlines (concat (fragments (concat chunks))).
Proof.
  intros Hconf. rewrite !processStream_chunks.
  do 3 eexists. split; [reflexivity|].
  rewrite final_text_single, final_text_confined by exact Hconf.
  split; reflexivity.
Qed.

(** The condition of C1 is the exact one: a stream is decoded alike
    under every cut just when its leading line breaks are confined to
    its first fragment. *)
Lemma chunk_boundary_invariance_exact (stream : jsstring) :
  (forall chunks, concat chunks = stream ->
                  final_text chunks = final_text [stream])
  <-> strip_confined stream.
Proof.
  split.
  - intros Hall. unfold strip_confined.
    destruct (le_dec (leading_newlines (concat (fragments stream)))
                     (length (first_nonempty (fragments stream))))
      as [Hle|Hnot]; [exact Hle|].
    destruct (unconfined_cut stream Hnot) as (c1 & c2 & Hcut & Hdiff).
    exfalso. apply Hdiff, Hall. simpl. rewrite app_nil_r. exact Hcut.
  - intros Hconf chunks <-.
    rewrite final_text_single, final_text_confined by exact Hconf.
    reflexivity.
Qed.

(** C2 (as amended).  Text that follows the last newline received is
    never interpreted: it changes neither the calls of [onChunk] nor
    the text handed to [onComplete].  In particular a final line that
    no newline terminates is discarded when the stream completes, and
    a line contributes nothing before its newline arrives. *)
Theorem unterminated_line_discarded
    (error : Type) (chunks : list jsstring) (chunk t : jsstring) :
  LF ∉ t ->
  processStream (error := error) (reader_of_chunks (chunks ++ [chunk ++ t]))
  = processStream (reader_of_chunks (chunks ++ [chunk])).
Proof.
  intros Hn. rewrite !processStream_chunks. unfold final_text.
  rewrite !fold_left_app. simpl.
  destruct (consume_unterminated (fold_left consume chunks initial)
              chunk t Hn) as [-> ->].
  reflexivity.
Qed.

(** C6.  For a payload whose delta is an object with the optional text
    fields [reasoning_content] and [content], the line's result is the
    reasoning text followed by the content text, a missing field
    counting as the empty string; [extractContent] of
    [{content: "world", reasoning_content: "thinking... "}] is
    ["thinking... world"]. *)
Theorem extractContent_reasoning_before_content
    (line : jsstring) (data : value) (fields : list (jsstring * value))
    (reasoning content : option jsstring) :
  startsWith (trim line) SSE.DATA_PREFIX = true ->
  trim line <> SSE.DATA_PREFIX ++ SSE.DONE_MESSAGE ->
  JSON_parse (slice (length SSE.DATA_PREFIX) (trim line)) = Some data ->
  delta_of data = Some (JSObject fields) ->
  lookup_field (js "reasoning_content") fields = JSString <$> reasoning ->
  lookup_field (js "content") fields = JSString <$> content ->
  extractContent (JSObject fields)
    = JSString (default [] reasoning ++ default [] content) /\
  parseSSELine line
    = JSString (default [] reasoning ++ default [] content) /\
  extractContent
    (JSObject [(js "content", JSString (js "world"));
               (js "reasoning_content", JSString (js "thinking... "))])
    = JSString (js "thinking... world").
Proof.
  intros Hprefix Hdone Hparse Hdelta Hr Hc.
  pose proof (extractContent_text fields reasoning content Hc Hr) as Htext.
  split; [exact Htext|]. split; [|reflexivity].
  unfold parseSSELine. cbv zeta.
  destruct (trim line) as [|x trimmed] eqn:Htrim; [discriminate Hprefix|].
  cbn [truthy negb orb].
  destruct (jsstring_eqb (x :: trimmed) (SSE.DATA_PREFIX ++ SSE.DONE_MESSAGE))
    eqn:Heq.
  { apply jsstring_eqb_eq in Heq. contradiction. }
  rewrite Hprefix, (parse_data_delta _ _ Hparse), Hdelta. exact Htext.
Qed.

(** C7.  A data line whose payload [JSON.parse] rejects yields the
    empty result and no error; between two lines [line1] and
    [line2] the reply is the one of these two lines alone, and the
    line can be removed from any stream without changing what
    [processStream] reports.  Blank lines and the line [data: [DONE]]
    yield the empty result too. *)
Theorem malformed_line_skipped
    (error : Type) (bad line1 line2 a b : jsstring)
    (before after : list jsstring) :
  LF ∉ bad -> LF ∉ line1 -> LF ∉ line2 ->
  startsWith (trim bad) SSE.DATA_PREFIX = true ->
  JSON_parse (slice (length SSE.DATA_PREFIX) (trim bad)) = None ->
  tail_line (concat before ++ a) = [] ->
  parseSSELine bad = empty_string /\
  final_text [line1 ++ LF :: bad ++ LF :: line2 ++ [LF]]
    = strip_leading_newlines (fragment line1 ++ fragment line2) /\
  processStream (error := error)
    (reader_of_chunks (before ++ [a ++ bad ++ LF :: b] ++ after))
    = processStream (reader_of_chunks (before ++ [a ++ b] ++ after)) /\
  (forall blank, trim blank = [] -> parseSSELine blank = empty_string) /\
  (forall done, trim done = SSE.DATA_PREFIX ++ SSE.DONE_MESSAGE ->
                parseSSELine done = empty_string).
Proof.
  intros Hbad Hl1 Hl2 Hprefix Hparse Htail.
  assert (Hsilent : parseSSELine bad = empty_string).
  { apply parseSSELine_throws, parse_data_syntax_error, Hparse. }
  split; [exact Hsilent|]. split; [|split; [|split]].
  - rewrite final_text_single. unfold fragments.
    rewrite complete_lines_line by exact Hl1.
    rewrite complete_lines_line by exact Hbad.
    change (line2 ++ [LF]) with (line2 ++ LF :: []).
    rewrite complete_lines_line by exact Hl2.
    cbn [map concat complete_lines split removelast].
    rewrite (fragment_silent _ Hsilent), app_nil_r. reflexivity.
  - rewrite !processStream_chunks. unfold final_text.
    rewrite run_silent_line; auto using fragment_silent.
  - apply parseSSELine_blank.
  - apply parseSSELine_sentinel.
Qed.

(** C10.  A complete line [data: <J>] whose [J] parses but where
    [J.choices[0].delta] is not an object (no [choices], an empty
    [choices] array, no [delta], or an access that throws) yields the
    empty result, no exception leaves [parseSSELine], and the line can
    be removed from any stream without changing what [processStream]
    reports. *)
Theorem unexpected_shape_yields_nothing
    (error : Type) (line a b : jsstring) (data : value)
    (before after : list jsstring) :
  LF ∉ line ->
  startsWith (trim line) SSE.DATA_PREFIX = true ->
  JSON_parse (slice (length SSE.DATA_PREFIX) (trim line)) = Some data ->
  has_delta_object data = false ->
  tail_line (concat before ++ a) = [] ->
  parseSSELine line = empty_string /\
  processStream (error := error)
    (reader_of_chunks (before ++ [a ++ line ++ LF :: b] ++ after))
    = processStream (reader_of_chunks (before ++ [a ++ b] ++ after)).
Proof.
  intros Hline Hprefix Hparse Hshape Htail.
  assert (Hsilent : parseSSELine line = empty_string).
  { unfold parseSSELine. cbv zeta. destruct (_ || _); [reflexivity|].
    rewrite Hprefix, (parse_data_delta _ _ Hparse).
    unfold has_delta_object in Hshape.
    destruct (delta_of data) as [delta|]; [|reflexivity]. simpl.
    apply extractContent_not_object. destruct delta; try exact I.
    discriminate Hshape. }
  split; [exact Hsilent|].
  rewrite !processStream_chunks. unfold final_text.
  rewrite run_silent_line; auto using fragment_silent.
Qed.

(** The shapes C10 names. *)
Lemma no_choices_no_delta (data : value) :
  get_member data (js "choices") = Some JSUndefined \/
  get_member data (js "choices") = None \/
  get_member data (js "choices") = Some (JSArray []) ->
  has_delta_object data = false.
Proof.
  unfold has_delta_object, delta_of. intros [-> | [-> | ->]]; reflexivity.
Qed.

Lemma no_delta_member (data choice : value) (rest : list value) :
  get_member data (js "choices") = Some (JSArray (choice :: rest)) ->
  get_member_opt choice (js "delta") = Some JSUndefined ->
  has_delta_object data = false.
Proof.
  unfold has_delta_object, delta_of. intros -> Hd. simpl. rewrite Hd.
  reflexivity.
Qed.
End DecoderClaims.

(* ================================================================== *)
(** * The stores *)
(* ================================================================== *)

Section StorageClaims.
Context `{Engine}.
Import CHAT_CONFIG StorageManager ChatController.

(** C5 (as amended).  [getHistory] never throws.  For every non-empty
    stored record that [JSON.parse] rejects it returns the empty
    history and removes the record, so that an immediate reload
    returns the empty history again.  An empty-string record is read
    as the empty history and left in place. *)
Theorem getHistory_self_heals (w : World) :
  (exists v w', getHistory w = (Normal v, w')) /\
  (forall c s,
     accessible (localStorage w) = true ->
     stored_history w = Some (c :: s) ->
     JSON_parse (c :: s) = None ->
     exists w',
       getHistory w = (Normal (JSArray []), w') /\
       stored_history w' = None /\
       exists w'', getHistory w' = (Normal (JSArray []), w'')) /\
  (accessible (localStorage w) = true ->
   stored_history w = Some [] ->
   getHistory w = (Normal (JSArray []), w)).
Proof.
  split; [apply getHistory_returns|]. split.
  - intros c s Hacc Hrec Hbad.
    rewrite (getHistory_corrupt w c s Hacc Hrec Hbad).
    eexists; split; [reflexivity|].
    assert (Hgone :
      forall w1 : World,
        items (localStorage
                 (set_localStorage
                    {| accessible := true; quota := quota (localStorage w);
                       items := delete STORAGE_KEYS.CHAT_HISTORY
                                  (items (localStorage w)) |} w1))
          !! STORAGE_KEYS.CHAT_HISTORY = None).
    { intros w1. simpl. apply lookup_delete_eq. }
    split; [apply Hgone|].
    destruct (getHistory_absent _ (Hgone
      (set_console
         (console w ++ [(js "Failed to load history:", SyntaxError)]) w)))
      as (w'' & Hget & _).
    exists w''. exact Hget.
  - apply getHistory_empty_record.
Qed.

(** C9 (as amended).  A storage failure never escapes
    [saveHistory]: it is logged and the call returns, with the storage
    as it was.  [saveApiKey] logs the failure and throws a new error,
    which its caller [handleSaveApiKey] catches: [handleSaveApiKey]
    always returns, and after a failure it has shown the failure
    toast. *)
Theorem storage_write_failures (w : World) :
  (forall history,
     exists w', saveHistory history w = (Normal tt, w') /\
       (storage_accepts (localStorage w) STORAGE_KEYS.CHAT_HISTORY
          (JSON_stringify (JSArray history)) = false ->
        localStorage w' = localStorage w /\
        chatHistory w' = chatHistory w /\
        exists e, console w'
                  = console w ++ [(js "Failed to save history:", e)])) /\
  (forall key,
     storage_accepts (localStorage w) STORAGE_KEYS.API_KEY key = false ->
     exists e,
       saveApiKey key w
       = (Throw (Error (js "无法保存 API Key")),
          set_console (console w ++ [(js "Failed to save API key:", e)]) w)) /\
  (exists w', handleSaveApiKey w = (Normal tt, w')) /\
  (forall c key,
     trim (apiKeyInput w) = c :: key ->
     storage_accepts (localStorage w) STORAGE_KEYS.API_KEY (c :: key) = false ->
     exists w',
       handleSaveApiKey w = (Normal tt, w') /\
       localStorage w' = localStorage w /\
       view w' = view w ++ [showToast (js "保存失败，请重试")]).
Proof.
  split; [|split; [|split]].
  - intros history.
    destruct (storage_accepts (localStorage w) STORAGE_KEYS.CHAT_HISTORY
                (JSON_stringify (JSArray history))) eqn:Hfits.
    + rewrite saveHistory_accepted by exact Hfits.
      eexists; split; [reflexivity|]. discriminate.
    + destruct (saveHistory_refused history w Hfits) as [e ->].
      eexists; split; [reflexivity|]. intros _.
      destruct w; simpl. eauto.
  - intros key. apply saveApiKey_refused.
  - unfold handleSaveApiKey. destruct w as [ls con vw rq ci sb ak ch].
    unfold read, mbind, JS_bind. cbn [apiKeyInput].
    destruct (trim ak) as [|c key]; [unfold call_view, update; eauto|].
    unfold try_catch, mbind, JS_bind.
    destruct (storage_accepts ls STORAGE_KEYS.API_KEY (c :: key)) eqn:Hfits.
    + rewrite saveApiKey_accepted by exact Hfits.
      unfold checkApiKey, mbind, JS_bind.
      rewrite getApiKey_accessible by reflexivity.
      cbn [items localStorage set_localStorage].
      rewrite lookup_insert_eq. unfold call_view, update. eauto.
    + destruct (saveApiKey_refused (c :: key)
                  {| localStorage := ls; console := con; view := vw;
                     requests := rq; chatInput := ci; sendBtn_disabled := sb;
                     apiKeyInput := ak; chatHistory := ch |} Hfits)
        as [e ->].
      unfold call_view, update. eauto.
  - intros c key Hkey Hfits. unfold handleSaveApiKey.
    destruct w as [ls con vw rq ci sb ak ch].
    unfold read, mbind, JS_bind. cbn [apiKeyInput] in *. rewrite Hkey.
    unfold try_catch, mbind, JS_bind.
    destruct (saveApiKey_refused (c :: key)
                {| localStorage := ls; console := con; view := vw;
                   requests := rq; chatInput := ci; sendBtn_disabled := sb;
                   apiKeyInput := ak; chatHistory := ch |} Hfits)
      as [e ->].
    unfold call_view, update. eexists; split; [reflexivity|].
    split; reflexivity.
Qed.
End StorageClaims.

(* ================================================================== *)
(** * The session *)
(* ================================================================== *)

Section SessionClaims.
Context `{Engine}.
Import CHAT_CONFIG StorageManager ChatAPIClient ChatController.

(** C3 (as amended).  [handleSendMessage] has no guard on requests in
    flight: what a submission does depends on the message box and the
    stored credential only, not on the calls still sending or
    streaming.  With an empty (trimmed) box it changes nothing.  With
    text in the box it appends the user message to the history and
    saves the history, and with a credential in the store it also
    calls [fetch] and leaves a new call in flight.  It empties the
    box and disables the send button, and a click on the disabled
    button does nothing. *)
Theorem submit_ignores_in_flight (s : Session) (now : N) :
  (trim (chatInput (world s)) = [] ->
   world (step s (PressEnter now)) = world s /\
   busy (step s (PressEnter now)) = busy s) /\
  (forall c content k key,
     trim (chatInput (world s)) = c :: content ->
     stored_credential (world s) = Some (k :: key) ->
     let user := message_object (js "user") (c :: content) in
     let record :=
       JSON_stringify (JSArray (chatHistory (world s) ++ [user])) in
     let s' := step s (PressEnter now) in
     chatHistory (world s') = chatHistory (world s) ++ [user] /\
     stored_history (world s')
     = (if storage_accepts (localStorage (world s))
             STORAGE_KEYS.CHAT_HISTORY record
        then Some record else stored_history (world s)) /\
     requests (world s')
     = requests (world s) ++
       [{| bearer := k :: key;
           messages := system_message :: chatHistory (world s) ++ [user] |}] /\
     tasks s' = tasks s ++ [AwaitingResponse (js "loading-" ++ decimal now)] /\
     chatInput (world s') = [] /\
     sendBtn_disabled (world s') = true) /\
  (sendBtn_disabled (world s) = true -> step s (ClickSend now) = s).
Proof.
  split; [|split].
  - intros Hin. simpl. unfold submit.
    rewrite handleSendMessage_empty by exact Hin. simpl. split; [reflexivity|].
    unfold busy. simpl. rewrite existsb_app. simpl.
    rewrite !orb_false_r. reflexivity.
  - intros c content k key Hin Hkey user record s'.
    destruct (handleSendMessage_sends (world s) now c content k key Hin Hkey)
      as (w' & Hrun & Hhist & Hreq & _ & Hbox & Hbtn & _ & Hstored).
    subst s'. simpl. unfold submit. rewrite Hrun. simpl.
    repeat split; assumption.
  - intros Hdis. simpl. rewrite Hdis. reflexivity.
Qed.

(** C4 (as amended).  A message is submitted with a credential in the
    store, and the response to its request has status 401.  Afterwards
    the store holds no credential; the history in memory is the
    previous one with the user's message and no assistant message; the
    failure handling leaves the persisted record as the submission
    left it: the history with the user's message when the storage
    accepted the write, and the record from before the submission,
    without that message, when it refused it; the view was told to
    render the authentication message and to show the credential
    form.  A response with another failure status renders a different
    message, does not show the credential form and leaves the
    credential in the store. *)
Theorem authentication_failure
    (s : Session) (now now' : N) (c : N) (content : jsstring)
    (k : N) (key : jsstring) :
  trim (chatInput (world s)) = c :: content ->
  stored_credential (world s) = Some (k :: key) ->
  let user := message_object (js "user") (c :: content) in
  let record := JSON_stringify (JSArray (chatHistory (world s) ++ [user])) in
  let loadingId := js "loading-" ++ decimal now in
  let t := length (tasks s) in
  let s1 := step s (PressEnter now) in
  let s2 := step s1 (FetchSettles t (Response 401) now') in
  tasks s1 !! t = Some (AwaitingResponse loadingId) /\
  tasks s2 !! t = Some Finished /\
  stored_credential (world s2) = None /\
  chatHistory (world s2) = chatHistory (world s) ++ [user] /\
  stored_history (world s2) = stored_history (world s1) /\
  stored_history (world s2)
  = (if storage_accepts (localStorage (world s)) STORAGE_KEYS.CHAT_HISTORY
          record
     then Some record else stored_history (world s)) /\
  view (world s2)
  = view (world s1) ++
    [removeMessage loadingId;
     renderError (js "认证失败，API Key 无效。请重新输入。");
     showAuthView] /\
  (forall status now'',
     ok status = false -> status <> 401 ->
     let s2' := step s1 (FetchSettles t (Response status) now'') in
     view (world s2')
     = view (world s1) ++
       [removeMessage loadingId;
        renderError (js "出错了: " ++ (js "API Error: " ++ decimal status)
                     ++ js "。请检查您的 API Key 是否正确。")] /\
     stored_credential (world s2') = Some (k :: key) /\
     chatHistory (world s2') = chatHistory (world s) ++ [user]).
Proof.
  intros Hin Hkey user record loadingId t s1 s2.
  destruct (handleSendMessage_sends (world s) now c content k key Hin Hkey)
    as (w1 & Hrun & Hhist & Hreq & Hview & Hbox & Hbtn & Hcred & Hstored).
  fold user in Hrun, Hhist, Hreq, Hstored. fold loadingId in Hrun, Hview.
  fold record in Hstored.
  assert (Hs1 : s1 = {| world := w1;
                        tasks := tasks s ++ [AwaitingResponse loadingId] |}).
  { subst s1. simpl. unfold submit. rewrite Hrun. reflexivity. }
  assert (Ht : tasks s1 !! t = Some (AwaitingResponse loadingId)).
  { rewrite Hs1. simpl. apply list_lookup_middle. reflexivity. }
  assert (Hlen : (t < length (tasks s1))%nat).
  { apply lookup_lt_Some in Ht. exact Ht. }
  destruct (handleSendMessage_catch_401 loadingId (Error (js "401")) w1
              eq_refl)
    as (w2 & Hcatch & Hcred2 & Hstored2 & Hhist2 & _ & Hview2).
  assert (Hs2 : s2 = {| world := w2; tasks := <[t := Finished]> (tasks s1) |}).
  { subst s2. simpl. rewrite Ht. unfold resume.
    rewrite handleSendMessage_response_401. unfold mbind, JS_bind.
    rewrite Hs1 at 1. cbn [world]. rewrite Hcatch. reflexivity. }
  split; [exact Ht|]. rewrite Hs2. cbn [world tasks].
  split; [apply list_lookup_insert_eq, Hlen|].
  split; [exact Hcred2|].
  split; [rewrite Hhist2; exact Hhist|].
  rewrite Hs1. cbn [world]. split; [exact Hstored2|].
  split; [rewrite Hstored2; exact Hstored|].
  split; [exact Hview2|].
  intros status now'' Hok Hne. cbn [step].
  rewrite <- Hs1, Ht. unfold resume.
  rewrite handleSendMessage_response_failed by assumption.
  unfold mbind, JS_bind. rewrite handleSendMessage_catch_other by reflexivity.
  rewrite Hs1. destruct w1. simpl in *. auto.
Qed.


End SessionClaims.

(* ================================================================== *)
(** * More on the strings *)
(* ================================================================== *)








Lemma strip_leading_newlines_skipn (s : jsstring) :
  strip_leading_newlines s = skipn (StreamProcessor.leading_newlines s) s.
Proof.
  induction s as [|c s IH]; simpl; [reflexivity|].
  destruct (is_line_break c); [exact IH | reflexivity].
Qed.

Lemma leading_newlines_app_le (p q : jsstring) :
  (StreamProcessor.leading_newlines p
   <= StreamProcessor.leading_newlines (p ++ q))%nat.
Proof.
  induction p as [|c p IH]; simpl; [lia|].
  destruct (is_line_break c); lia.
Qed.

Lemma leading_newlines_length (s : jsstring) :
  (StreamProcessor.leading_newlines s <= length s)%nat.
Proof.
  induction s as [|c s IH]; simpl; [lia|].
  destruct (is_line_break c); lia.
Qed.

Lemma last_Some_default {A} (l : list A) (x d : A) :
  last l = Some x -> List.last l d = x.
Proof.
  induction l as [|a l IH]; [discriminate|].
  destruct l as [|b l]; simpl in *; [congruence|]. exact IH.
Qed.

(* ================================================================== *)
(** * More on the stream processor *)
(* ================================================================== *)

Section DecoderExtras.
Context `{Engine}.
Import CHAT_CONFIG StreamProcessor.

(** ** Running totals *)

Lemma running_totals_snoc (calls : list jsstring) (x : jsstring) :
  running_totals calls ->
  (forall a, last calls = Some a -> exists more, x = a ++ more) ->
  running_totals (calls ++ [x]).
Proof.
  intros Hchain Hlast i a b Ha Hb.
  destruct (decide (S i < length calls)%nat) as [Hlt|Hge].
  - rewrite lookup_app_l in Ha by lia. rewrite lookup_app_l in Hb by lia.
    eapply Hchain; eauto.
  - pose proof (lookup_lt_Some _ _ _ Hb) as Hlen.
    rewrite length_app in Hlen. simpl in Hlen.
    assert (Hi : S i = length calls) by lia.
    rewrite lookup_app_r in Hb by lia.
    replace (S i - length calls)%nat with 0%nat in Hb by lia.
    injection Hb as <-. apply Hlast.
    rewrite lookup_app_l in Ha by lia.
    rewrite last_lookup. rewrite <- Hi. exact Ha.
Qed.

Lemma totals_kept_initial : totals_kept initial.
Proof.
  split; [left; split; reflexivity|]. intros i a b Ha. discriminate Ha.
Qed.

Lemma totals_kept_consume st chunk :
  totals_kept st -> totals_kept (consume st chunk).
Proof.
  intros [Hlast Hchain]. rewrite consume_eq. cbv zeta.
  destruct (concat (fragments (buffer st ++ chunk))) as [|c content];
    [split; assumption|].
  cbn [fullResponse onChunk_calls]. split.
  - right. apply last_snoc.
  - apply running_totals_snoc; [exact Hchain|].
    intros a Ha. destruct Hlast as [[Hnil _] | Hl].
    + rewrite Hnil in Ha. discriminate.
    + rewrite Hl in Ha. injection Ha as <-. eauto.
Qed.

Lemma totals_kept_run chunks st :
  totals_kept st -> totals_kept (fold_left consume chunks st).
Proof.
  revert st; induction chunks as [|c cs IH]; intros st Hst; simpl; auto.
  apply IH, totals_kept_consume, Hst.
Qed.

(** X1.  [onChunk] is given running totals: each argument extends the
    one before, and the text handed to [onComplete] is the argument of
    the last call (the empty text when there was no call). *)
Theorem onChunk_running_totals (error : Type) (chunks : list jsstring) :
  exists calls,
    processStream (error := error) (reader_of_chunks chunks)
      = inr (calls, List.last calls []) /\
    running_totals calls.
Proof.
  rewrite processStream_chunks. unfold final_text.
  destruct (totals_kept_run chunks initial totals_kept_initial)
    as [Hlast Hchain].
  exists (onChunk_calls (fold_left consume chunks initial)).
  split; [|exact Hchain]. f_equal. f_equal.
  destruct Hlast as [[-> ->] | Hl]; [reflexivity|].
  symmetry. apply last_Some_default, Hl.
Qed.

(** ** The reply under any cut *)

Lemma decoded_upto_initial : decoded_upto initial [].
Proof.
  split; [reflexivity|]. split; intros Hf; [split; reflexivity|].
  discriminate Hf.
Qed.

Lemma decoded_upto_consume st seen chunk :
  decoded_upto st seen -> decoded_upto (consume st chunk) (seen ++ chunk).
Proof.
  intros (Hb & Hfirst & Hlater). unfold decoded_upto.
  rewrite (fragments_app seen chunk), concat_app, consume_eq, Hb.
  cbv zeta.
  set (new := concat (fragments (tail_line seen ++ chunk))).
  destruct (isFirstContent st) eqn:Hf.
  - destruct (Hfirst eq_refl) as [Hx Hfull]. rewrite Hx, Hfull.
    cbn [app].
    destruct new as [|c new'] eqn:Hnew;
      cbn [fullResponse buffer isFirstContent].
    + split; [symmetry; apply tail_line_app|]. split; [auto|congruence].
    + split; [symmetry; apply tail_line_app|]. split; [congruence|].
      intros _. split; [congruence|].
      exists (leading_newlines (c :: new')). split; [lia|].
      apply strip_leading_newlines_skipn.
  - destruct (Hlater eq_refl) as (Hx & n & Hn & Hfull).
    pose proof (leading_newlines_length (concat (fragments seen))) as Hlen.
    pose proof (leading_newlines_app_le (concat (fragments seen)) new) as Hle.
    destruct new as [|c new'] eqn:Hnew;
      cbn [fullResponse buffer isFirstContent].
    + split; [symmetry; apply tail_line_app|]. rewrite app_nil_r.
      split; [congruence|]. intros _. split; [exact Hx|]. eauto.
    + split; [symmetry; apply tail_line_app|]. split; [congruence|].
      intros _. split.
      * intros Hnil. apply app_eq_nil in Hnil as [? ?]; auto.
      * exists n. split; [lia|]. rewrite Hfull, skipn_app.
        replace (n - length (concat (fragments seen)))%nat with 0%nat by lia.
        reflexivity.
Qed.

Lemma decoded_upto_run chunks st seen :
  decoded_upto st seen ->
  decoded_upto (fold_left consume chunks st) (seen ++ concat chunks).
Proof.
  revert st seen; induction chunks as [|c cs IH]; intros st seen Hd; simpl.
  - rewrite app_nil_r. exact Hd.
  - rewrite app_assoc. apply IH, decoded_upto_consume, Hd.
Qed.

(** X2.  However the stream is cut, the text handed to [onComplete] is
    the concatenated fragments of the terminated lines, short of some
    of their leading line breaks: no other part of the reply is ever
    lost or altered by the chunking. *)
Theorem reply_up_to_leading_newlines (chunks : list jsstring) :
  exists n,
    (n <= leading_newlines (concat (fragments (concat chunks))))%nat /\
    final_text chunks = skipn n (concat (fragments (concat chunks))).
Proof.
  destruct (decoded_upto_run chunks initial [] decoded_upto_initial)
    as (_ & Hfirst & Hlater).
  simpl in Hfirst, Hlater. unfold final_text.
  destruct (isFirstContent (fold_left consume chunks initial)).
  - destruct (Hfirst eq_refl) as [-> ->]. exists 0%nat. split; [lia|reflexivity].
  - destruct (Hlater eq_refl) as (_ & n & Hn & Hfull). eauto.
Qed.

(** ** The carryover buffer *)

(** X3.  After any reads the carryover buffer is the text received
    since the last newline: it holds no newline, and the text received
    is the lines interpreted so far, each with its newline, followed by
    the buffer. *)
Theorem buffer_is_unterminated_tail (chunks : list jsstring) :
  let st := fold_left consume chunks initial in
  buffer st = tail_line (concat chunks) /\
  (LF ∉ buffer st) /\
  concat chunks
  = concat (map (fun l => l ++ [LF]) (complete_lines (concat chunks)))
    ++ buffer st.
Proof.
  intros st.
  assert (Hb : buffer st = tail_line (concat chunks)).
  { apply (buffer_run chunks initial []). reflexivity. }
  split; [exact Hb|]. rewrite Hb. split; [apply tail_line_no_LF|].
  apply unsplit_lines.
Qed.

(** ** Cuts inside a line *)

Lemma consume_no_newline st a :
  LF ∉ buffer st -> LF ∉ a ->
  consume st a
  = {| fullResponse := fullResponse st; buffer := buffer st ++ a;
       isFirstContent := isFirstContent st;
       onChunk_calls := onChunk_calls st |}.
Proof.
  intros Hb Ha. rewrite consume_eq. cbv zeta.
  assert (Hn : LF ∉ buffer st ++ a) by (apply not_elem_of_app_LF; assumption).
  unfold fragments. rewrite complete_lines_no_newline by exact Hn.
  rewrite tail_line_no_newline by exact Hn. reflexivity.
Qed.

Lemma consume_merge st a c :
  LF ∉ buffer st -> LF ∉ a ->
  consume (consume st a) c = consume st (a ++ c).
Proof.
  intros Hb Ha. rewrite (consume_no_newline st a Hb Ha).
  rewrite !consume_eq. cbn [fullResponse buffer isFirstContent onChunk_calls].
  rewrite <- app_assoc. reflexivity.
Qed.

(** X4.  A chunk boundary inside a line is invisible: when a read
    brings no newline, the calls of [onChunk] and the text handed to
    [onComplete] are those of the stream in which that read and the
    next one arrive together. *)
Theorem cut_inside_line_invisible
    (error : Type) (before after : list jsstring) (a c : jsstring) :
  LF ∉ a ->
  processStream (error := error)
    (reader_of_chunks (before ++ [a; c] ++ after))
  = processStream (reader_of_chunks (before ++ [a ++ c] ++ after)).
Proof.
  intros Ha. rewrite !processStream_chunks. unfold final_text.
  rewrite !fold_left_app. cbn [fold_left app].
  rewrite consume_merge; [reflexivity| |exact Ha].
  rewrite (buffer_run before initial []) by reflexivity.
  apply tail_line_no_LF.
Qed.

(** ** White space and line endings *)




(** X6.  A line that, once trimmed, does not start with [data: ] (a
    comment, another field, or [data:] without the space) yields
    nothing and can be removed from any stream without changing what
    [processStream] reports. *)
Theorem other_lines_ignored
    (error : Type) (line a b : jsstring) (before after : list jsstring) :
  LF ∉ line ->
  startsWith (trim line) SSE.DATA_PREFIX = false ->
  tail_line (concat before ++ a) = [] ->
  parseSSELine line = empty_string /\
  processStream (error := error)
    (reader_of_chunks (before ++ [a ++ line ++ LF :: b] ++ after))
  = processStream (reader_of_chunks (before ++ [a ++ b] ++ after)).
Proof.
  intros Hline Hprefix Htail.
  pose proof (parseSSELine_no_prefix line Hprefix) as Hsilent.
  split; [exact Hsilent|].
  rewrite !processStream_chunks. unfold final_text.
  rewrite run_silent_line; auto using fragment_silent.
Qed.
End DecoderExtras.

(* ================================================================== *)
(** * More on the stores *)
(* ================================================================== *)

Section StorageExtras.
Context `{Engine}.
Import CHAT_CONFIG StorageManager ChatController.

Lemma saveHistory_normal history w :
  saveHistory history w = (Normal tt, (saveHistory history w).2).
Proof.
  destruct (storage_accepts (localStorage w) STORAGE_KEYS.CHAT_HISTORY
              (JSON_stringify (JSArray history))) eqn:Hfits.
  - rewrite saveHistory_accepted by exact Hfits. reflexivity.
  - destruct (saveHistory_refused history w Hfits) as [e ->]. reflexivity.
Qed.

(** Whether the storage takes a history record does not depend on the
    history record it holds. *)
Lemma storage_accepts_after_save history w val :
  storage_accepts (localStorage (saveHistory history w).2)
    STORAGE_KEYS.CHAT_HISTORY val
  = storage_accepts (localStorage w) STORAGE_KEYS.CHAT_HISTORY val.
Proof.
  destruct (storage_accepts (localStorage w) STORAGE_KEYS.CHAT_HISTORY
              (JSON_stringify (JSArray history))) eqn:Hfits.
  - rewrite saveHistory_accepted by exact Hfits.
    unfold storage_accepts, set_localStorage in *.
    destruct w as [ls con vw rq ci sb ak ch].
    cbn [snd localStorage accessible quota items] in *.
    apply andb_true_iff in Hfits as [-> _].
    rewrite insert_insert_eq. reflexivity.
  - destruct (saveHistory_refused history w Hfits) as [e ->].
    destruct w; reflexivity.
Qed.

(** X7.  A credential the storage accepts is read back as saved, and
    is gone once removed; saving and removing it leave the history
    record alone. *)
Theorem credential_round_trip (w : World) (key : jsstring) :
  storage_accepts (localStorage w) STORAGE_KEYS.API_KEY key = true ->
  let w1 := (saveApiKey key w).2 in
  let w2 := (removeApiKey w1).2 in
  (saveApiKey key w).1 = Normal tt /\
  getApiKey w1 = (Normal (Some key), w1) /\
  stored_history w1 = stored_history w /\
  (removeApiKey w1).1 = Normal tt /\
  getApiKey w2 = (Normal None, w2) /\
  stored_history w2 = stored_history w.
Proof.
  intros Hfits w1 w2. subst w2 w1.
  rewrite saveApiKey_accepted by exact Hfits.
  destruct w as [ls con vw rq ci sb ak ch].
  unfold set_localStorage. cbn [fst snd localStorage].
  rewrite removeApiKey_accessible by reflexivity.
  unfold set_localStorage.
  cbn [fst snd localStorage accessible quota items].
  rewrite !getApiKey_accessible by reflexivity.
  unfold stored_history. cbn [localStorage items].
  rewrite lookup_insert_eq, lookup_delete_eq.
  rewrite lookup_delete_ne by exact keys_distinct.
  rewrite lookup_insert_ne by exact keys_distinct. auto 10.
Qed.

(** X8.  A history the storage accepts is read back as saved, whenever
    [JSON.parse] inverts [JSON.stringify] on it; saving and loading it
    leave the credential alone. *)
Theorem history_round_trip
    (w : World) (history : list value) (c : N) (s : jsstring) :
  storage_accepts (localStorage w) STORAGE_KEYS.CHAT_HISTORY
    (JSON_stringify (JSArray history)) = true ->
  JSON_stringify (JSArray history) = c :: s ->
  JSON_parse (c :: s) = Some (JSArray history) ->
  let w1 := (saveHistory history w).2 in
  (saveHistory history w).1 = Normal tt /\
  getHistory w1 = (Normal (JSArray history), w1) /\
  stored_credential w1 = stored_credential w.
Proof.
  intros Hfits Hrecord Hparse w1. subst w1.
  rewrite saveHistory_accepted by exact Hfits.
  destruct w as [ls con vw rq ci sb ak ch].
  unfold set_localStorage. cbn [fst snd localStorage].
  split; [reflexivity|]. split.
  - unfold getHistory, try_catch, mbind, JS_bind, localStorage_getItem.
    cbn [localStorage accessible items]. rewrite lookup_insert_eq, Hrecord.
    unfold JSON_parse_js. rewrite Hparse. reflexivity.
  - unfold stored_credential. cbn [localStorage accessible items].
    unfold storage_accepts in Hfits. cbn [localStorage] in Hfits.
    apply andb_true_iff in Hfits as [-> _].
    rewrite lookup_insert_ne by (apply not_eq_sym, keys_distinct).
    reflexivity.
Qed.
End StorageExtras.

(* ================================================================== *)
(** * More on the controller *)
(* ================================================================== *)

Section ControllerExtras.
Context `{Engine}.
Import CHAT_CONFIG StreamProcessor StorageManager ChatAPIClient ChatController.

Ltac js_run :=
  repeat progress
    (cbv beta iota zeta delta
       [mbind mret JS_bind JS_ret read update call_view try_catch throw
        console_error
        set_localStorage set_console set_view set_requests set_chatInput
        set_sendBtn_disabled set_apiKeyInput set_chatHistory];
     cbn [localStorage console view requests chatInput sendBtn_disabled
          apiKeyInput chatHistory accessible quota items fst snd]).

(** ** The stream of one call *)

Lemma onChunk_calls_consume st chunk :
  exists new, onChunk_calls (consume st chunk) = onChunk_calls st ++ new.
Proof.
  rewrite consume_eq. cbv zeta.
  destruct (concat (fragments (buffer st ++ chunk))).
  - exists []. simpl. rewrite app_nil_r. reflexivity.
  - eexists. reflexivity.
Qed.

Lemma onChunk_calls_run chunks st :
  exists new,
    onChunk_calls (fold_left consume chunks st) = onChunk_calls st ++ new.
Proof.
  revert st; induction chunks as [|c cs IH]; intros st; simpl.
  - exists []. rewrite app_nil_r. reflexivity.
  - destruct (IH (consume st c)) as [new2 ->].
    destruct (onChunk_calls_consume st c) as [new1 ->].
    exists (new1 ++ new2). rewrite app_assoc. reflexivity.
Qed.

Lemma partial_updates_app aiMessageId (a b : list jsstring) :
  partial_updates aiMessageId (a ++ b)
  = partial_updates aiMessageId a ++ partial_updates aiMessageId b.
Proof. apply flat_map_app. Qed.

Lemma forEach_onChunk aiMessageId (fulls : list jsstring) w :
  forEach fulls (onChunk aiMessageId) w
  = (Normal tt, set_view (view w ++ partial_updates aiMessageId fulls) w).
Proof.
  revert w; induction fulls as [|full fulls IH]; intros w.
  - simpl. rewrite app_nil_r. destruct w; reflexivity.
  - cbn [forEach]. unfold mbind, JS_bind.
    assert (Hfirst : onChunk aiMessageId full w
              = (Normal tt,
                 set_view (view w ++ [updateMessage aiMessageId full;
                                      scrollToBottom]) w)).
    { unfold onChunk. destruct w. js_run. rewrite <- app_assoc. reflexivity. }
    rewrite Hfirst, IH. destruct w. js_run.
    rewrite <- app_assoc. reflexivity.
Qed.

(** One read that delivers text: only the view is told. *)
Lemma handleSendMessage_read_chunk loadingId aiMessageId decoder text w :
  handleSendMessage_read loadingId aiMessageId decoder (ReadChunk text) w
  = (Normal (Streaming loadingId aiMessageId (consume decoder text)),
     set_view
       (view w ++
        partial_updates aiMessageId
          (skipn (length (onChunk_calls decoder))
                 (onChunk_calls (consume decoder text)))) w).
Proof.
  unfold handleSendMessage_read, try_catch, mbind, JS_bind.
  rewrite forEach_onChunk. reflexivity.
Qed.

(** The reads of one call that deliver text: the session they leave. *)
Lemma stream_reads
    (chunks : list jsstring) (s : Session) (t : nat)
    (loadingId aiMessageId : jsstring) (decoder : StreamProcessor.State) :
  tasks s !! t = Some (Streaming loadingId aiMessageId decoder) ->
  run s (chunk_events t chunks)
  = {| world :=
         set_view
           (view (world s) ++
            partial_updates aiMessageId
              (skipn (length (onChunk_calls decoder))
                     (onChunk_calls (fold_left consume chunks decoder))))
           (world s);
       tasks :=
         <[t := Streaming loadingId aiMessageId
                  (fold_left consume chunks decoder)]> (tasks s) |}.
Proof.
  revert s decoder. induction chunks as [|c cs IH]; intros s decoder Ht.
  - cbn [chunk_events map run fold_left].
    rewrite list_insert_id by exact Ht.
    rewrite skipn_all. cbn [partial_updates flat_map].
    rewrite app_nil_r. destruct s as [w tk]. destruct w. reflexivity.
  - cbn [chunk_events map run fold_left].
    set (s1 := step s (ReadSettles t (ReadChunk c))).
    assert (Hs1 : s1 = {| world :=
                            set_view
                              (view (world s) ++
                               partial_updates aiMessageId
                                 (skipn (length (onChunk_calls decoder))
                                    (onChunk_calls (consume decoder c))))
                              (world s);
                          tasks := <[t := Streaming loadingId aiMessageId
                                            (consume decoder c)]> (tasks s) |}).
    { subst s1. cbn [step]. rewrite Ht. unfold resume.
      rewrite handleSendMessage_read_chunk. reflexivity. }
    assert (Ht1 : tasks s1 !! t
                  = Some (Streaming loadingId aiMessageId (consume decoder c))).
    { rewrite Hs1. cbn [tasks]. apply list_lookup_insert_eq.
      eapply lookup_lt_Some, Ht. }
    fold (chunk_events t cs). fold (run s1 (chunk_events t cs)).
    rewrite (IH s1 (consume decoder c) Ht1), Hs1. cbn [world tasks].
    rewrite list_insert_insert_eq.
    destruct (onChunk_calls_consume decoder c) as [new1 Hnew1].
    destruct (onChunk_calls_run cs (consume decoder c)) as [new2 Hnew2].
    rewrite Hnew2, Hnew1. rewrite !drop_app_length.
    rewrite <- (app_assoc (onChunk_calls decoder)), drop_app_length.
    rewrite partial_updates_app.
    destruct (world s). cbn [set_view view].
    rewrite <- app_assoc. reflexivity.
Qed.

(** X9.  While a reply streams in, only the view is told: the reads
    that deliver text leave the history, the storage and the requests
    as they were, advance the decoder of that call, and update the
    assistant message once per call of [onChunk]. *)
Theorem partial_updates_not_persisted
    (chunks : list jsstring) (s : Session) (t : nat)
    (loadingId aiMessageId : jsstring) (decoder : StreamProcessor.State) :
  tasks s !! t = Some (Streaming loadingId aiMessageId decoder) ->
  let s' := run s (chunk_events t chunks) in
  tasks s'
  = <[t := Streaming loadingId aiMessageId (fold_left consume chunks decoder)]>
      (tasks s) /\
  chatHistory (world s') = chatHistory (world s) /\
  localStorage (world s') = localStorage (world s) /\
  requests (world s') = requests (world s) /\
  view (world s')
  = view (world s) ++
    partial_updates aiMessageId
      (skipn (length (onChunk_calls decoder))
             (onChunk_calls (fold_left consume chunks decoder))).
Proof.
  intros Ht s'. subst s'.
  rewrite (stream_reads chunks s t loadingId aiMessageId decoder Ht).
  cbn [world tasks]. destruct (world s).
  cbn [set_view chatHistory localStorage requests view]. auto 10.
Qed.
End ControllerExtras.

Section ExchangeExtras.
Context `{Engine}.
Import CHAT_CONFIG StreamProcessor StorageManager ChatAPIClient ChatController.

Ltac js_run :=
  repeat progress
    (cbv beta iota zeta delta
       [mbind mret JS_bind JS_ret read update call_view try_catch throw
        console_error
        set_localStorage set_console set_view set_requests set_chatInput
        set_sendBtn_disabled set_apiKeyInput set_chatHistory];
     cbn [localStorage console view requests chatInput sendBtn_disabled
          apiKeyInput chatHistory accessible quota items fst snd]).

(** [saveHistory] touches the storage and the console only, and in the
    storage the history record only. *)
Lemma saveHistory_frame history w :
  chatHistory (saveHistory history w).2 = chatHistory w /\
  view (saveHistory history w).2 = view w /\
  requests (saveHistory history w).2 = requests w /\
  stored_credential (saveHistory history w).2 = stored_credential w.
Proof.
  destruct (storage_accepts (localStorage w) STORAGE_KEYS.CHAT_HISTORY
              (JSON_stringify (JSArray history))) eqn:Hfits.
  - rewrite saveHistory_accepted by exact Hfits.
    unfold storage_accepts in Hfits.
    apply andb_true_iff in Hfits as [Hacc _].
    destruct w as [ls con vw rq ci sb ak ch]. unfold stored_credential.
    js_run. cbn [localStorage] in Hacc. rewrite Hacc.
    rewrite lookup_insert_ne by (apply not_eq_sym, keys_distinct). auto.
  - destruct (saveHistory_refused history w Hfits) as [e ->].
    destruct w; auto.
Qed.

(** A submission changes the storage by its history record only. *)
Lemma handleSendMessage_sends_accepts w now c content k key val :
  trim (chatInput w) = c :: content ->
  stored_credential w = Some (k :: key) ->
  storage_accepts (localStorage (handleSendMessage now w).2)
    STORAGE_KEYS.CHAT_HISTORY val
  = storage_accepts (localStorage w) STORAGE_KEYS.CHAT_HISTORY val.
Proof.
  intros Hin Hkey.
  destruct (stored_credential_accessible _ _ Hkey) as [Hacc Hitem].
  unfold handleSendMessage. destruct w as [ls con vw rq ci sb ak ch].
  cbn [chatInput chatHistory localStorage requests view] in *.
  js_run. rewrite Hin. js_run.
  set (user := message_object (js "user") (c :: content)).
  destruct (storage_accepts ls STORAGE_KEYS.CHAT_HISTORY
              (JSON_stringify (JSArray (ch ++ [user])))) eqn:Hfits.
  - rewrite saveHistory_accepted by exact Hfits. js_run.
    rewrite getApiKey_accessible by reflexivity. js_run.
    rewrite lookup_insert_ne by (apply not_eq_sym, keys_distinct).
    rewrite Hitem. unfold sendMessage_fetch. js_run.
    unfold storage_accepts. cbn [accessible quota items].
    rewrite insert_insert_eq, Hacc. reflexivity.
  - destruct (saveHistory_refused (ch ++ [user])
                {| localStorage := ls; console := con;
                   view := vw ++ [renderUserMessage (c :: content)];
                   requests := rq; chatInput := ci; sendBtn_disabled := sb;
                   apiKeyInput := ak; chatHistory := ch ++ [user] |} Hfits)
      as [e ->].
    js_run. rewrite getApiKey_accessible by exact Hacc. js_run.
    rewrite Hitem. unfold sendMessage_fetch. js_run. reflexivity.
Qed.

Lemma handleSendMessage_response_ok loadingId status now w :
  ok status = true ->
  null_body_status status = false ->
  handleSendMessage_response loadingId (Response status) now w
  = (Normal (Streaming loadingId (js "ai-msg-" ++ decimal now)
               StreamProcessor.initial),
     set_view (view w ++ [removeMessage loadingId; renderAIMessage []]) w).
Proof.
  intros Hok Hbody. unfold handleSendMessage_response, sendMessage_settled.
  rewrite Hok, Hbody. cbn [negb]. destruct w. js_run.
  rewrite <- ?app_assoc. reflexivity.
Qed.

Lemma handleSendMessage_read_done loadingId aiMessageId decoder w :
  let history :=
    chatHistory w ++
    [message_object (js "assistant") (fullResponse decoder)] in
  handleSendMessage_read loadingId aiMessageId decoder ReadDone w
  = (Normal Finished, (saveHistory history (set_chatHistory history w)).2).
Proof.
  intros history. unfold handleSendMessage_read, onComplete.
  destruct w as [ls con vw rq ci sb ak ch]. js_run.
  cbn [chatHistory] in history. fold history.
  rewrite saveHistory_normal. reflexivity.
Qed.

Lemma saveHistory_stored history w :
  storage_accepts (localStorage w) STORAGE_KEYS.CHAT_HISTORY
    (JSON_stringify (JSArray history)) = true ->
  stored_history (saveHistory history w).2
  = Some (JSON_stringify (JSArray history)).
Proof.
  intros Hfits. rewrite saveHistory_accepted by exact Hfits.
  destruct w. unfold stored_history. js_run. apply lookup_insert_eq.
Qed.

Lemma run_app s (events1 events2 : list Event) :
  run s (events1 ++ events2) = run (run s events1) events2.
Proof. apply fold_left_app. Qed.

(** X10.  One whole exchange.  With a message typed and a credential
    stored, a submission, a successful response that has a body, a
    stream of chunks and its completion leave: the history grown by the user message and by
    the assistant message the decoder built, one request sent with the
    system prompt and the history up to the user message, the call
    finished, the credential in place, and, when the storage takes it,
    the record of the whole history. *)
Theorem completed_exchange
    (s : Session) (now now' status : N) (chunks : list jsstring)
    (c : N) (content : jsstring) (k : N) (key : jsstring) :
  trim (chatInput (world s)) = c :: content ->
  stored_credential (world s) = Some (k :: key) ->
  ok status = true ->
  null_body_status status = false ->
  let user := message_object (js "user") (c :: content) in
  let assistant := message_object (js "assistant") (final_text chunks) in
  let t := length (tasks s) in
  let loadingId := js "loading-" ++ decimal now in
  let aiMessageId := js "ai-msg-" ++ decimal now' in
  let record :=
    JSON_stringify (JSArray (chatHistory (world s) ++ [user; assistant])) in
  let s' :=
    run s ([PressEnter now; FetchSettles t (Response status) now']
           ++ chunk_events t chunks ++ [ReadSettles t ReadDone]) in
  chatHistory (world s') = chatHistory (world s) ++ [user; assistant] /\
  requests (world s')
  = requests (world s) ++
    [{| bearer := k :: key;
        messages := system_message :: chatHistory (world s) ++ [user] |}] /\
  tasks s' = tasks s ++ [Finished] /\
  view (world s')
  = view (world s) ++
    [renderUserMessage (c :: content); renderLoading;
     removeMessage loadingId; renderAIMessage []] ++
    partial_updates aiMessageId
      (onChunk_calls (fold_left consume chunks StreamProcessor.initial)) /\
  stored_credential (world s') = Some (k :: key) /\
  (storage_accepts (localStorage (world s)) STORAGE_KEYS.CHAT_HISTORY record
   = true ->
   stored_history (world s') = Some record).
Proof.
  intros Hin Hkey Hok Hbody user assistant t loadingId aiMessageId record s'.
  pose proof (handleSendMessage_sends_accepts (world s) now c content k key
                record Hin Hkey) as Hfits1.
  destruct (handleSendMessage_sends (world s) now c content k key Hin Hkey)
    as (w1 & Hsend & Hch1 & Hrq1 & Hvw1 & _ & _ & Hkey1 & _).
  fold user in Hch1, Hrq1. fold loadingId in Hsend.
  rewrite Hsend in Hfits1. cbn [snd] in Hfits1.
  (* the submission *)
  set (s1 := {| world := w1; tasks := tasks s ++ [AwaitingResponse loadingId] |}).
  assert (Hs1 : step s (PressEnter now) = s1).
  { cbn [step]. unfold submit. rewrite Hsend. reflexivity. }
  (* the response *)
  set (w2 := set_view (view w1 ++ [removeMessage loadingId; renderAIMessage []])
               w1).
  set (s2 := {| world := w2;
                tasks := <[t := Streaming loadingId aiMessageId
                                  StreamProcessor.initial]> (tasks s1) |}).
  assert (Hs2 : step s1 (FetchSettles t (Response status) now') = s2).
  { cbn [step]. subst s1. cbn [tasks world].
    subst t. rewrite list_lookup_middle by reflexivity.
    unfold resume. cbn [world tasks].
    rewrite handleSendMessage_response_ok by assumption. reflexivity. }
  (* the chunks *)
  assert (Ht2 : tasks s2 !! t
                = Some (Streaming loadingId aiMessageId StreamProcessor.initial)).
  { subst s2 s1. cbn [tasks]. apply list_lookup_insert_eq.
    rewrite length_app. cbn [length]. subst t. lia. }
  pose proof (stream_reads chunks s2 t loadingId aiMessageId _ Ht2) as Hs3.
  set (s3 := run s2 (chunk_events t chunks)) in *.
  set (final := fold_left consume chunks StreamProcessor.initial) in *.
  assert (Htk3 : tasks s3
                 = <[t := Streaming loadingId aiMessageId final]> (tasks s2))
    by (rewrite Hs3; reflexivity).
  assert (Hch3 : chatHistory (world s3) = chatHistory (world s2))
    by (rewrite Hs3; cbn [world]; destruct (world s2); reflexivity).
  assert (Hls3 : localStorage (world s3) = localStorage (world s2))
    by (rewrite Hs3; cbn [world]; destruct (world s2); reflexivity).
  assert (Hrq3 : requests (world s3) = requests (world s2))
    by (rewrite Hs3; cbn [world]; destruct (world s2); reflexivity).
  assert (Hvw3 : view (world s3)
                 = view (world s2) ++
                   partial_updates aiMessageId
                     (skipn (length (onChunk_calls StreamProcessor.initial))
                            (onChunk_calls final)))
    by (rewrite Hs3; cbn [world]; destruct (world s2); reflexivity).
  clear Hs3.
  (* the completion *)
  set (history := chatHistory (world s3) ++
                  [message_object (js "assistant") (fullResponse final)]).
  set (w4 := (saveHistory history (set_chatHistory history (world s3))).2).
  assert (Hs4 : step s3 (ReadSettles t ReadDone)
                = {| world := w4; tasks := <[t := Finished]> (tasks s3) |}).
  { cbn [step]. rewrite Htk3.
    rewrite list_lookup_insert_eq by (eapply lookup_lt_Some, Ht2).
    unfold resume. rewrite handleSendMessage_read_done.
    fold history. fold w4. rewrite Htk3. reflexivity. }
  assert (Hrun : s' = {| world := w4; tasks := <[t := Finished]> (tasks s3) |}).
  { subst s'. change ([PressEnter now; FetchSettles t (Response status) now']
                      ++ chunk_events t chunks ++ [ReadSettles t ReadDone])
      with ([PressEnter now] ++ [FetchSettles t (Response status) now']
            ++ chunk_events t chunks ++ [ReadSettles t ReadDone]).
    rewrite !run_app.
    change (run s [PressEnter now]) with (step s (PressEnter now)).
    rewrite Hs1.
    change (run s1 [FetchSettles t (Response status) now'])
      with (step s1 (FetchSettles t (Response status) now')).
    rewrite Hs2. fold s3.
    change (run s3 [ReadSettles t ReadDone])
      with (step s3 (ReadSettles t ReadDone)).
    exact Hs4. }
  destruct (saveHistory_frame history (set_chatHistory history (world s3)))
    as (Hch4 & Hvw4 & Hrq4 & Hkey4).
  fold w4 in Hch4, Hvw4, Hrq4, Hkey4.
  assert (Hhistory : history = chatHistory (world s) ++ [user; assistant]).
  { subst history. rewrite Hch3. subst s2 w2. cbn [world].
    destruct w1; cbn [set_view chatHistory] in *. rewrite Hch1.
    rewrite <- app_assoc. reflexivity. }
  assert (Hls4 : localStorage (set_chatHistory history (world s3))
                 = localStorage w1).
  { transitivity (localStorage (world s3)).
    - destruct (world s3); reflexivity.
    - rewrite Hls3. subst s2 w2. cbn [world]. destruct w1; reflexivity. }
  rewrite Hrun. cbn [world tasks].
  split; [|split; [|split; [|split; [|split]]]].
  - rewrite Hch4. rewrite <- Hhistory. destruct (world s3); reflexivity.
  - rewrite Hrq4.
    transitivity (requests (world s3)); [destruct (world s3); reflexivity|].
    rewrite Hrq3. subst s2 w2. cbn [world].
    destruct w1; cbn [set_view requests] in *. exact Hrq1.
  - rewrite Htk3. subst s2 s1. cbn [tasks].
    rewrite !list_insert_insert_eq.
    subst t. replace (length (tasks s)) with (length (tasks s) + 0)%nat by lia.
    rewrite insert_app_r. reflexivity.
  - rewrite Hvw4.
    transitivity (view (world s3)); [destruct (world s3); reflexivity|].
    rewrite Hvw3. subst s2 w2. cbn [world].
    change (onChunk_calls StreamProcessor.initial) with (@nil jsstring).
    cbn [length skipn drop].
    destruct w1; cbn [set_view view] in *. rewrite Hvw1.
    rewrite <- !app_assoc. reflexivity.
  - rewrite Hkey4. unfold stored_credential. rewrite Hls4.
    exact Hkey1.
  - subst record w4. rewrite <- Hhistory in Hfits1 |- *.
    intros Hfits. apply saveHistory_stored.
    rewrite Hls4, Hfits1. exact Hfits.
Qed.
End ExchangeExtras.

(* ================================================================== *)
(** * Failures of an exchange *)
(* ================================================================== *)

Section FailureExtras.
Context `{Engine}.
Import CHAT_CONFIG StreamProcessor StorageManager ChatAPIClient ChatController.

Ltac js_run :=
  repeat progress
    (cbv beta iota zeta delta
       [mbind mret JS_bind JS_ret read update call_view try_catch throw
        console_error
        set_localStorage set_console set_view set_requests set_chatInput
        set_sendBtn_disabled set_apiKeyInput set_chatHistory];
     cbn [localStorage console view requests chatInput sendBtn_disabled
          apiKeyInput chatHistory accessible quota items fst snd]).

(** The [catch] block of [handleSendMessage], whatever the error. *)
Lemma handleSendMessage_catch_effect loadingId error w :
  let auth := jsstring_eqb (message error) (js "401") in
  exists w',
    handleSendMessage_catch loadingId error w = (Normal tt, w') /\
    chatHistory w' = chatHistory w /\
    stored_history w' = stored_history w /\
    requests w' = requests w /\
    stored_credential w' = (if auth then None else stored_credential w) /\
    view w'
    = view w ++
      [removeMessage loadingId;
       renderError
         (if auth then js "认证失败，API Key 无效。请重新输入。"
          else js "出错了: " ++ message error
               ++ js "。请检查您的 API Key 是否正确。")] ++
      (if auth then [showAuthView] else []).
Proof.
  intros auth. subst auth.
  destruct (jsstring_eqb (message error) (js "401")) eqn:Hauth.
  - apply jsstring_eqb_eq in Hauth.
    destruct (handleSendMessage_catch_401 loadingId error w Hauth)
      as (w' & Hrun & Hkey & Hrec & Hch & Hrq & Hvw).
    exists w'. rewrite Hvw. auto 10.
  - rewrite handleSendMessage_catch_other by exact Hauth.
    eexists; split; [reflexivity|].
    destruct w; cbn [set_view chatHistory requests view].
    rewrite app_nil_r. auto 10.
Qed.

(** X11.  A stream that fails midway.  The failure is logged; the call
    is over; the text decoded so far is in neither the history nor the
    storage; no request is made; the view is told of the error, and
    not to remove what it has shown of the reply.  The credential is
    purged exactly when the message of the error is [401]. *)
Theorem stream_interrupted
    (s : Session) (t : nat) (loadingId aiMessageId : jsstring)
    (decoder : StreamProcessor.State) (error : Exception) :
  tasks s !! t = Some (Streaming loadingId aiMessageId decoder) ->
  let auth := jsstring_eqb (message error) (js "401") in
  let s' := step s (ReadSettles t (ReadFailed error)) in
  tasks s' = <[t := Finished]> (tasks s) /\
  chatHistory (world s') = chatHistory (world s) /\
  stored_history (world s') = stored_history (world s) /\
  requests (world s') = requests (world s) /\
  stored_credential (world s')
  = (if auth then None else stored_credential (world s)) /\
  (exists logged,
     console (world s')
     = console (world s) ++ (js "Stream processing error:", error) :: logged) /\
  view (world s')
  = view (world s) ++
    [removeMessage loadingId;
     renderError
       (if auth then js "认证失败，API Key 无效。请重新输入。"
        else js "出错了: " ++ message error
             ++ js "。请检查您的 API Key 是否正确。")] ++
    (if auth then [showAuthView] else []).
Proof.
  intros Ht auth s'. subst s'. cbn [step]. rewrite Ht. unfold resume.
  set (w0 := set_console
               (console (world s) ++ [(js "Stream processing error:", error)])
               (world s)).
  assert (Hread :
    handleSendMessage_read loadingId aiMessageId decoder (ReadFailed error)
      (world s)
    = ((handleSendMessage_catch loadingId error;; mret Finished) w0)).
  { unfold handleSendMessage_read. subst w0. destruct (world s). reflexivity. }
  rewrite Hread.
  destruct (handleSendMessage_catch_effect loadingId error w0)
    as (w' & Hrun & Hch & Hrec & Hrq & Hkey & Hvw).
  assert (Hcon : exists logged,
    console w'
    = console (world s) ++ (js "Stream processing error:", error) :: logged).
  { clear Hch Hrec Hrq Hkey Hvw. revert Hrun.
    unfold handleSendMessage_catch.
    destruct (jsstring_eqb (message error) (js "401")).
    - subst w0. destruct (world s) as [ls con vw rq ci sb ak ch].
      unfold checkApiKey. js_run. destruct (accessible ls) eqn:Hacc.
      + rewrite removeApiKey_accessible by exact Hacc. js_run.
        rewrite getApiKey_accessible by reflexivity. js_run.
        rewrite lookup_delete_eq. js_run.
        intros [= <-]. exists []. reflexivity.
      + rewrite removeApiKey_inaccessible by exact Hacc. js_run.
        rewrite getApiKey_inaccessible by exact Hacc. js_run.
        intros [= <-]. eexists. cbn [console].
        rewrite <- !app_assoc. reflexivity.
    - subst w0. destruct (world s) as [ls con vw rq ci sb ak ch]. js_run.
      intros [= <-]. exists []. reflexivity. }
  unfold mbind, JS_bind, mret, JS_ret. rewrite Hrun. cbn [world tasks].
  rewrite Hch, Hrec, Hrq, Hkey, Hvw. subst w0.
  destruct (world s); cbn [set_console chatHistory requests view].
  auto 10.
Qed.

(** X12.  A request that is rejected (the network fails).  The call is
    over; the history keeps the user's message and gets no reply; the
    storage and the requests are as they were; the view is told to
    remove the loading indicator and to render the error.  The
    credential is purged exactly when the message of the rejection is
    [401]. *)
Theorem request_rejected
    (s : Session) (t : nat) (loadingId : jsstring)
    (error : Exception) (now : N) :
  tasks s !! t = Some (AwaitingResponse loadingId) ->
  let auth := jsstring_eqb (message error) (js "401") in
  let s' := step s (FetchSettles t (Rejected error) now) in
  tasks s' = <[t := Finished]> (tasks s) /\
  chatHistory (world s') = chatHistory (world s) /\
  stored_history (world s') = stored_history (world s) /\
  requests (world s') = requests (world s) /\
  stored_credential (world s')
  = (if auth then None else stored_credential (world s)) /\
  view (world s')
  = view (world s) ++
    [removeMessage loadingId;
     renderError
       (if auth then js "认证失败，API Key 无效。请重新输入。"
        else js "出错了: " ++ message error
             ++ js "。请检查您的 API Key 是否正确。")] ++
    (if auth then [showAuthView] else []).
Proof.
  intros Ht auth s'. subst s'. cbn [step]. rewrite Ht. unfold resume.
  assert (Hresp :
    handleSendMessage_response loadingId (Rejected error) now (world s)
    = ((handleSendMessage_catch loadingId error;; mret Finished) (world s))).
  { reflexivity. }
  rewrite Hresp.
  destruct (handleSendMessage_catch_effect loadingId error (world s))
    as (w' & Hrun & Hch & Hrec & Hrq & Hkey & Hvw).
  unfold mbind, JS_bind, mret, JS_ret. rewrite Hrun. cbn [world tasks].
  auto 10.
Qed.

(** X13.  A message submitted while the store holds no credential.
    The message is in the history, and in the storage when the storage
    takes it, before the credential is looked up; no request is made;
    the call is over; the view is told of the error, and not to show
    the credential form. *)
Theorem submit_without_credential
    (s : Session) (now : N) (c : N) (content : jsstring) :
  trim (chatInput (world s)) = c :: content ->
  stored_credential (world s) = None \/ stored_credential (world s) = Some [] ->
  let user := message_object (js "user") (c :: content) in
  let record := JSON_stringify (JSArray (chatHistory (world s) ++ [user])) in
  let loadingId := js "loading-" ++ decimal now in
  let s' := step s (PressEnter now) in
  tasks s' = tasks s ++ [Finished] /\
  chatHistory (world s') = chatHistory (world s) ++ [user] /\
  requests (world s') = requests (world s) /\
  stored_history (world s')
  = (if storage_accepts (localStorage (world s)) STORAGE_KEYS.CHAT_HISTORY
          record
     then Some record else stored_history (world s)) /\
  chatInput (world s') = [] /\
  sendBtn_disabled (world s') = true /\
  view (world s')
  = view (world s) ++
    [renderUserMessage (c :: content); renderLoading;
     removeMessage loadingId;
     renderError (js "出错了: " ++ js "No API key found"
                  ++ js "。请检查您的 API Key 是否正确。")].
Proof.
  intros Hin Hkey user record loadingId s'. subst s'. cbn [step].
  unfold submit, handleSendMessage.
  destruct (world s) as [ls con vw rq ci sb ak ch] eqn:Hw.
  cbn [chatInput chatHistory localStorage requests view] in *.
  assert (Hitem : accessible ls = true ->
                  items ls !! STORAGE_KEYS.API_KEY = None \/
                  items ls !! STORAGE_KEYS.API_KEY = Some []).
  { intros Hacc. unfold stored_credential in Hkey.
    cbn [localStorage] in Hkey. rewrite Hacc in Hkey. exact Hkey. }
  clear Hkey.
  js_run. rewrite Hin. js_run. fold user. fold loadingId.
  unfold stored_history. cbn [localStorage].
  destruct (storage_accepts ls STORAGE_KEYS.CHAT_HISTORY record) eqn:Hfits.
  - rewrite saveHistory_accepted by exact Hfits. js_run.
    rewrite getApiKey_accessible by reflexivity. js_run.
    rewrite lookup_insert_ne by (apply not_eq_sym, keys_distinct).
    unfold storage_accepts in Hfits.
    apply andb_true_iff in Hfits as [Hacc _].
    destruct (Hitem Hacc) as [-> | ->]; js_run;
      (rewrite handleSendMessage_catch_other by reflexivity); js_run;
      cbn [world tasks localStorage chatHistory requests chatInput
           sendBtn_disabled view items];
      rewrite lookup_insert_eq, <- !app_assoc; auto 10.
  - destruct (saveHistory_refused (ch ++ [user])
                {| localStorage := ls; console := con;
                   view := vw ++ [renderUserMessage (c :: content)];
                   requests := rq; chatInput := ci; sendBtn_disabled := sb;
                   apiKeyInput := ak; chatHistory := ch ++ [user] |} Hfits)
      as [e ->].
    js_run. destruct (accessible ls) eqn:Hacc.
    + rewrite getApiKey_accessible by exact Hacc. js_run.
      destruct (Hitem eq_refl) as [-> | ->]; js_run;
        (rewrite handleSendMessage_catch_other by reflexivity); js_run;
        cbn [world tasks localStorage chatHistory requests chatInput
             sendBtn_disabled view items];
        rewrite <- !app_assoc; auto 10.
    + rewrite getApiKey_inaccessible by exact Hacc. js_run.
      rewrite handleSendMessage_catch_other by reflexivity. js_run.
      cbn [world tasks localStorage chatHistory requests chatInput
           sendBtn_disabled view items].
      rewrite <- !app_assoc. auto 10.
Qed.
End FailureExtras.

(* ================================================================== *)
(** * The credential form, the clearing of the history, the reload *)
(* ================================================================== *)

Section ManagementExtras.
Context `{Engine}.
Import CHAT_CONFIG StreamProcessor StorageManager ChatAPIClient ChatController.

Ltac js_run :=
  repeat progress
    (cbv beta iota zeta delta
       [mbind mret JS_bind JS_ret read update call_view try_catch throw
        console_error
        set_localStorage set_console set_view set_requests set_chatInput
        set_sendBtn_disabled set_apiKeyInput set_chatHistory];
     cbn [localStorage console view requests chatInput sendBtn_disabled
          apiKeyInput chatHistory accessible quota items fst snd]).

(** What a successful save of the credential leaves. *)
Lemma credential_saved_facts (s : Session) (k : N) (key : jsstring) :
  trim (apiKeyInput (world s)) = k :: key ->
  storage_accepts (localStorage (world s)) STORAGE_KEYS.API_KEY (k :: key)
  = true ->
  let s' := step s ClickSaveKey in
  stored_credential (world s') = Some (k :: key) /\
  chatHistory (world s') = chatHistory (world s) /\
  requests (world s') = requests (world s) /\
  tasks s' = tasks s.
Proof.
  intros Hin Hfits s'. subst s'. cbn [step]. unfold handle. cbn [world tasks].
  unfold handleSaveApiKey.
  destruct (world s) as [ls con vw rq ci sb ak ch].
  cbn [apiKeyInput localStorage] in *. js_run. rewrite Hin. js_run.
  rewrite saveApiKey_accepted by exact Hfits. js_run.
  unfold checkApiKey. js_run.
  rewrite getApiKey_accessible by reflexivity. js_run.
  rewrite lookup_insert_eq. js_run.
  unfold stored_credential. cbn [localStorage accessible items].
  rewrite lookup_insert_eq. auto 10.
Qed.

(** X14.  Saving a credential.  What is stored is the text of the
    field without its surrounding white space; the field is emptied,
    the chat view is shown and the toast confirms; the history, its
    record and the calls in flight are untouched. *)
Theorem credential_saved_trimmed (s : Session) (k : N) (key : jsstring) :
  trim (apiKeyInput (world s)) = k :: key ->
  storage_accepts (localStorage (world s)) STORAGE_KEYS.API_KEY (k :: key)
  = true ->
  let s' := step s ClickSaveKey in
  stored_credential (world s') = Some (k :: key) /\
  apiKeyInput (world s') = [] /\
  view (world s')
  = view (world s) ++ [showChatView; showToast (js "API Key 已保存")] /\
  chatHistory (world s') = chatHistory (world s) /\
  stored_history (world s') = stored_history (world s) /\
  requests (world s') = requests (world s) /\
  tasks s' = tasks s.
Proof.
  intros Hin Hfits s'. subst s'. cbn [step]. unfold handle. cbn [world tasks].
  unfold handleSaveApiKey.
  destruct (world s) as [ls con vw rq ci sb ak ch].
  cbn [apiKeyInput localStorage] in *. js_run. rewrite Hin. js_run.
  rewrite saveApiKey_accepted by exact Hfits. js_run.
  unfold checkApiKey. js_run.
  rewrite getApiKey_accessible by reflexivity. js_run.
  rewrite lookup_insert_eq. js_run.
  unfold stored_credential, stored_history. cbn [localStorage accessible items].
  rewrite lookup_insert_eq, lookup_insert_ne by exact keys_distinct.
  rewrite <- app_assoc. auto 10.
Qed.

(** X15.  A field that holds white space only stores nothing: the
    toast asks for a credential and the rest of the page is as it
    was. *)
Theorem blank_credential_rejected (s : Session) :
  trim (apiKeyInput (world s)) = [] ->
  step s ClickSaveKey
  = {| world :=
         set_view (view (world s) ++ [showToast (js "请输入有效的 API Key")])
           (world s);
       tasks := tasks s |}.
Proof.
  intros Hin. cbn [step]. unfold handle, handleSaveApiKey.
  destruct (world s) as [ls con vw rq ci sb ak ch].
  cbn [apiKeyInput] in Hin. js_run. rewrite Hin. reflexivity.
Qed.

(** X16.  From the form to the request: the credential typed and
    saved is, without its surrounding white space, the bearer of the
    request of the next message; the request carries the system prompt
    and the history with that message. *)
Theorem saved_credential_is_bearer
    (s : Session) (typed text : jsstring) (now : N)
    (k : N) (key : jsstring) (c : N) (content : jsstring) :
  trim typed = k :: key ->
  trim text = c :: content ->
  storage_accepts (localStorage (world s)) STORAGE_KEYS.API_KEY (k :: key)
  = true ->
  let user := message_object (js "user") (c :: content) in
  let s' := run s [KeyInput typed; ClickSaveKey; Input text; PressEnter now] in
  requests (world s')
  = requests (world s) ++
    [{| bearer := k :: key;
        messages := system_message :: chatHistory (world s) ++ [user] |}] /\
  tasks s' = tasks s ++ [AwaitingResponse (js "loading-" ++ decimal now)] /\
  chatHistory (world s') = chatHistory (world s) ++ [user].
Proof.
  intros Hkey Htext Hfits user s'. subst s'.
  cbn [run fold_left].
  set (s1 := step s (KeyInput typed)).
  set (s2 := step s1 ClickSaveKey).
  set (s3 := step s2 (Input text)).
  assert (Hin1 : trim (apiKeyInput (world s1)) = k :: key).
  { subst s1. cbn [step world]. destruct (world s); exact Hkey. }
  assert (Hfits1 : storage_accepts (localStorage (world s1))
                     STORAGE_KEYS.API_KEY (k :: key) = true).
  { subst s1. cbn [step world]. destruct (world s); exact Hfits. }
  destruct (credential_saved_facts s1 k key Hin1 Hfits1)
    as (Hcred2 & Hch2 & Hrq2 & Htk2).
  fold s2 in Hcred2, Hch2, Hrq2, Htk2.
  assert (Hs3 : stored_credential (world s3) = Some (k :: key) /\
                trim (chatInput (world s3)) = c :: content /\
                chatHistory (world s3) = chatHistory (world s) /\
                requests (world s3) = requests (world s) /\
                tasks s3 = tasks s).
  { subst s3. cbn [step]. unfold handle, handleInputChange. cbn [world tasks].
    revert Hcred2 Hch2 Hrq2 Htk2. unfold stored_credential.
    destruct (world s2) as [ls con vw rq ci sb ak ch]. js_run.
    intros -> -> -> ->. subst s1. cbn [step world tasks].
    destruct (world s); auto. }
  destruct Hs3 as (Hcred3 & Hin3 & Hch3 & Hrq3 & Htk3).
  destruct (handleSendMessage_sends (world s3) now c content k key
              Hin3 Hcred3)
    as (w4 & Hsend & Hch4 & Hrq4 & _).
  cbn [step]. unfold submit. rewrite Hsend. cbn [world tasks].
  rewrite Hch4, Hrq4, Hch3, Hrq3, Htk3. auto.
Qed.
End ManagementExtras.

Section ReloadExtras.
Context `{Engine}.
Import CHAT_CONFIG StreamProcessor StorageManager ChatAPIClient ChatController.

Ltac js_run :=
  repeat progress
    (cbv beta iota zeta delta
       [mbind mret JS_bind JS_ret read update call_view try_catch throw
        console_error
        set_localStorage set_console set_view set_requests set_chatInput
        set_sendBtn_disabled set_apiKeyInput set_chatHistory];
     cbn [localStorage console view requests chatInput sendBtn_disabled
          apiKeyInput chatHistory accessible quota items fst snd]).

(** X17.  Removing the credential.  Afterwards the page reads no
    credential, whatever the storage does; the credential form is shown
    and the toast confirms; the history and its record stay. *)
Theorem credential_removed (s : Session) :
  let s' := step s ConfirmRemoveKey in
  stored_credential (world s') = None /\
  view (world s')
  = view (world s) ++ [showAuthView; showToast (js "API Key 已移除")] /\
  chatHistory (world s') = chatHistory (world s) /\
  stored_history (world s') = stored_history (world s) /\
  requests (world s') = requests (world s) /\
  tasks s' = tasks s.
Proof.
  intros s'. subst s'. cbn [step]. unfold handle. cbn [world tasks].
  unfold handleClearApiKey_confirmed, checkApiKey.
  destruct (world s) as [ls con vw rq ci sb ak ch]. js_run.
  unfold stored_credential, stored_history.
  destruct (accessible ls) eqn:Hacc.
  - rewrite removeApiKey_accessible by exact Hacc. js_run.
    rewrite getApiKey_accessible by reflexivity. js_run.
    rewrite lookup_delete_eq. js_run.
    rewrite lookup_delete_eq, lookup_delete_ne by exact keys_distinct.
    rewrite <- app_assoc. auto 10.
  - rewrite removeApiKey_inaccessible by exact Hacc. js_run.
    rewrite getApiKey_inaccessible by exact Hacc. js_run.
    rewrite Hacc, <- app_assoc. auto 10.
Qed.

Lemma getHistory_inaccessible w :
  accessible (localStorage w) = false ->
  getHistory w
  = (Normal (JSArray []),
     set_console
       (console w ++ [(js "Failed to load history:", SecurityError);
                      (js "Failed to clear history:", SecurityError)]) w).
Proof.
  intros Hacc.
  unfold getHistory, try_catch, mbind, JS_bind, localStorage_getItem.
  rewrite Hacc. unfold console_error, update.
  rewrite clearHistory_inaccessible by exact Hacc.
  destruct w; cbn [set_console console]. rewrite <- app_assoc. reflexivity.
Qed.

(** A page loaded over a storage that gives no history record starts
    with an empty conversation. *)
Lemma boot_empty ls :
  accessible ls = false \/ items ls !! STORAGE_KEYS.CHAT_HISTORY = None ->
  exists s, boot ls = Some s /\ tasks s = [] /\
            chatHistory (world s) = [] /\ view (world s) = [] /\
            requests (world s) = [] /\ localStorage (world s) = ls.
Proof.
  intros Hls. unfold boot, loadHistory, mbind, JS_bind.
  destruct (accessible ls) eqn:Hacc.
  - destruct Hls as [Hls | Hnone]; [discriminate|].
    destruct (getHistory_absent (fresh ls) Hnone)
      as (w' & -> & Hls' & Hvw & Hrq & Hch).
    destruct w'. js_run. cbn [forEach]. js_run.
    eexists; split; [reflexivity|]. cbn [world tasks] in *. auto 10.
  - rewrite getHistory_inaccessible by exact Hacc. js_run. cbn [forEach].
    js_run. eexists; split; [reflexivity|]. auto 10.
Qed.

(** X18.  Clearing the history.  The history is empty, the view is
    told to clear and the toast confirms; the credential stays; an
    accessible storage holds no history record; and a page loaded over
    the storage as it is left starts with an empty conversation. *)
Theorem history_cleared (s : Session) :
  let s' := step s ConfirmClearHistory in
  chatHistory (world s') = [] /\
  view (world s')
  = view (world s) ++ [clearAll; showToast (js "历史记录已清除")] /\
  stored_credential (world s') = stored_credential (world s) /\
  (accessible (localStorage (world s)) = true ->
   stored_history (world s') = None) /\
  requests (world s') = requests (world s) /\
  tasks s' = tasks s /\
  exists reloaded,
    boot (localStorage (world s')) = Some reloaded /\
    chatHistory (world reloaded) = [] /\ view (world reloaded) = [].
Proof.
  intros s'. subst s'. cbn [step]. unfold handle. cbn [world tasks].
  unfold handleClearHistory_confirmed.
  destruct (world s) as [ls con vw rq ci sb ak ch]. js_run.
  unfold stored_credential, stored_history.
  destruct (accessible ls) eqn:Hacc.
  - rewrite clearHistory_accessible by exact Hacc. js_run.
    rewrite lookup_delete_eq, lookup_delete_ne
      by (apply not_eq_sym, keys_distinct).
    rewrite <- app_assoc.
    rewrite ?Hacc.
    do 6 (split; [solve [auto]|]).
    destruct (boot_empty
                {| accessible := true; quota := quota ls;
                   items := delete STORAGE_KEYS.CHAT_HISTORY (items ls) |})
      as (r & Hboot & _ & Hch & Hvw & _).
    { right. apply lookup_delete_eq. }
    exists r. auto.
  - rewrite clearHistory_inaccessible by exact Hacc. js_run.
    rewrite Hacc, <- app_assoc.
    do 6 (split; [solve [auto | discriminate]|]).
    destruct (boot_empty ls) as (r & Hboot & _ & Hch & Hvw & _).
    { left. exact Hacc. }
    exists r. auto.
Qed.

(** X19.  Clearing the history while a reply streams in does not stop
    the call: when the stream completes, the reply is appended to the
    emptied history, which then holds an assistant message and no user
    message before it, and is saved as such when the storage takes
    it. *)
Theorem cleared_while_streaming
    (s : Session) (t : nat) (loadingId aiMessageId : jsstring)
    (decoder : StreamProcessor.State) :
  tasks s !! t = Some (Streaming loadingId aiMessageId decoder) ->
  let reply := message_object (js "assistant") (fullResponse decoder) in
  let record := JSON_stringify (JSArray [reply]) in
  let s' := run s [ConfirmClearHistory; ReadSettles t ReadDone] in
  chatHistory (world s') = [reply] /\
  tasks s' = <[t := Finished]> (tasks s) /\
  (storage_accepts (localStorage (world s)) STORAGE_KEYS.CHAT_HISTORY record
   = true ->
   stored_history (world s') = Some record).
Proof.
  intros Ht reply record s'. subst s'. cbn [run fold_left].
  set (s1 := step s ConfirmClearHistory).
  assert (Hs1 : tasks s1 = tasks s /\ chatHistory (world s1) = [] /\
                (accessible (localStorage (world s)) = true ->
                 storage_accepts (localStorage (world s1))
                   STORAGE_KEYS.CHAT_HISTORY record
                 = storage_accepts (localStorage (world s))
                     STORAGE_KEYS.CHAT_HISTORY record)).
  { subst s1. cbn [step]. unfold handle. cbn [world tasks].
    unfold handleClearHistory_confirmed.
    destruct (world s) as [ls con vw rq ci sb ak ch]. js_run.
    destruct (accessible ls) eqn:Hacc.
    - rewrite clearHistory_accessible by exact Hacc. js_run.
      do 2 (split; [reflexivity|]). intros _. unfold storage_accepts.
      cbn [accessible quota items]. rewrite Hacc.
      rewrite insert_delete_eq. reflexivity.
    - rewrite clearHistory_inaccessible by exact Hacc. js_run.
      do 2 (split; [reflexivity|]). discriminate. }
  destruct Hs1 as (Htk1 & Hch1 & Hfits1).
  cbn [step]. rewrite Htk1, Ht. unfold resume.
  rewrite handleSendMessage_read_done. rewrite Hch1. cbn [app].
  fold reply. rewrite Htk1.
  destruct (saveHistory_frame [reply] (set_chatHistory [reply] (world s1)))
    as (Hch & _).
  cbn [world tasks]. rewrite Hch.
  split; [destruct (world s1); reflexivity|]. split; [reflexivity|].
  intros Hfits. apply saveHistory_stored.
  assert (Hacc : accessible (localStorage (world s)) = true).
  { unfold storage_accepts in Hfits.
    apply andb_true_iff in Hfits as [Hacc _]. exact Hacc. }
  rewrite <- Hfits, <- (Hfits1 Hacc).
  destruct (world s1); reflexivity.
Qed.

(** ** The reload *)

Lemma getHistory_parsed w c record v :
  accessible (localStorage w) = true ->
  items (localStorage w) !! STORAGE_KEYS.CHAT_HISTORY = Some (c :: record) ->
  JSON_parse (c :: record) = Some v ->
  getHistory w = (Normal v, w).
Proof.
  intros Hacc Hrec Hparse.
  unfold getHistory, try_catch, mbind, JS_bind, localStorage_getItem.
  rewrite Hacc, Hrec. unfold JSON_parse_js. rewrite Hparse. reflexivity.
Qed.

Lemma render_stored_message role content w :
  render_stored (message_object role content) w
  = (Normal tt, set_view (view w ++ rendered role content) w).
Proof.
  unfold render_stored, message_object, get_member, lookup_field.
  rewrite jsstring_eqb_refl.
  change (jsstring_eqb (js "role") (js "content")) with false.
  cbv iota. rewrite jsstring_eqb_refl. cbn [default from_option id].
  unfold rendered.
  destruct (jsstring_eqb role (js "user")).
  - destruct w; reflexivity.
  - destruct (jsstring_eqb role (js "assistant")).
    + destruct w; reflexivity.
    + destruct w; js_run. rewrite app_nil_r. reflexivity.
Qed.

Lemma forEach_render_stored (msgs : list (jsstring * jsstring)) w :
  forEach (map (fun m => message_object m.1 m.2) msgs) render_stored w
  = (Normal tt,
     set_view (view w ++ flat_map (fun m => rendered m.1 m.2) msgs) w).
Proof.
  revert w. induction msgs as [|[role content] msgs IH]; intros w.
  - cbn [map forEach flat_map]. rewrite app_nil_r. destruct w; reflexivity.
  - cbn [map forEach flat_map fst snd]. unfold mbind, JS_bind.
    rewrite render_stored_message, IH.
    destruct w; js_run. rewrite <- app_assoc. reflexivity.
Qed.

(** X20.  The reload restores the conversation.  Over a record that
    parses to an array of messages, the page starts with these
    messages as its history, whatever their roles, and with one
    rendering for each message of role [user] or [assistant], in
    order, and none for the others; the storage is as it was. *)
Theorem reload_restores_transcript
    (ls : LocalStorage) (c : N) (record : jsstring)
    (msgs : list (jsstring * jsstring)) :
  accessible ls = true ->
  items ls !! STORAGE_KEYS.CHAT_HISTORY = Some (c :: record) ->
  JSON_parse (c :: record)
  = Some (JSArray (map (fun m => message_object m.1 m.2) msgs)) ->
  exists s,
    boot ls = Some s /\
    tasks s = [] /\
    chatHistory (world s) = map (fun m => message_object m.1 m.2) msgs /\
    view (world s) = flat_map (fun m => rendered m.1 m.2) msgs /\
    localStorage (world s) = ls /\
    requests (world s) = [] /\
    console (world s) = [].
Proof.
  intros Hacc Hrec Hparse. unfold boot, loadHistory, mbind, JS_bind.
  rewrite (getHistory_parsed (fresh ls) c record _ Hacc Hrec Hparse).
  unfold update. rewrite forEach_render_stored.
  eexists; split; [reflexivity|]. cbn. auto 10.
Qed.

(** [render_stored] leaves the storage alone. *)
Lemma render_stored_storage msg w :
  localStorage (render_stored msg w).2 = localStorage w.
Proof.
  unfold render_stored.
  destruct (get_member msg (js "role")) as [role|]; [|reflexivity].
  destruct role; try (destruct w; reflexivity).
  destruct (jsstring_eqb _ (js "user")); [destruct w; reflexivity|].
  destruct (jsstring_eqb _ (js "assistant")); destruct w; reflexivity.
Qed.

Lemma forEach_render_stored_null (l : list value) w :
  In JSNull l ->
  exists e w',
    forEach l render_stored w = (Throw e, w') /\
    localStorage w' = localStorage w.
Proof.
  revert w. induction l as [|msg l IH]; intros w Hin; [destruct Hin|].
  cbn [forEach]. unfold mbind, JS_bind.
  pose proof (render_stored_storage msg w) as Hls.
  destruct (render_stored msg w) as [[[]|e] w1] eqn:Hmsg; cbn [snd] in Hls.
  - destruct Hin as [-> | Hin].
    + unfold render_stored in Hmsg. cbn in Hmsg. discriminate.
    + destruct (IH w1 Hin) as (e & w' & -> & Hls').
      exists e, w'. split; [reflexivity|]. congruence.
  - exists e, w1. auto.
Qed.

(** X21.  A record that parses, but not to an array of messages one
    can read, breaks the page for good: when it parses to something
    that is not an array, or to an array that holds [null], the
    construction of the controller throws, and the record is left in
    the storage for the next load. *)
Theorem unreadable_record_breaks_init
    (ls : LocalStorage) (c : N) (record : jsstring) (v : value) :
  accessible ls = true ->
  items ls !! STORAGE_KEYS.CHAT_HISTORY = Some (c :: record) ->
  JSON_parse (c :: record) = Some v ->
  match v with JSArray l => In JSNull l | _ => True end ->
  boot ls = None /\
  exists e w',
    loadHistory (fresh ls) = (Throw e, w') /\ localStorage w' = ls.
Proof.
  intros Hacc Hrec Hparse Hv.
  assert (Hload : exists e w',
            loadHistory (fresh ls) = (Throw e, w') /\ localStorage w' = ls).
  { unfold loadHistory, mbind, JS_bind.
    rewrite (getHistory_parsed (fresh ls) c record v Hacc Hrec Hparse).
    destruct v as [| | b | n | str | l | fields];
      try (eexists; eexists; split; reflexivity).
    unfold update.
    destruct (forEach_render_stored_null l (set_chatHistory l (fresh ls)) Hv)
      as (e & w' & -> & Hls).
    exists e, w'. auto. }
  split; [|exact Hload].
  destruct Hload as (e & w' & Hload & _). unfold boot. rewrite Hload.
  reflexivity.
Qed.
End ReloadExtras.

(* ================================================================== *)
(** * The history over a whole session *)
(* ================================================================== *)

Section HistoryExtras.
Context `{Engine}.
Import CHAT_CONFIG StreamProcessor StorageManager ChatAPIClient ChatController.

Ltac js_run :=
  repeat progress
    (cbv beta iota zeta delta
       [mbind mret JS_bind JS_ret read update call_view try_catch throw
        console_error
        set_localStorage set_console set_view set_requests set_chatInput
        set_sendBtn_disabled set_apiKeyInput set_chatHistory];
     cbn [localStorage console view requests chatInput sendBtn_disabled
          apiKeyInput chatHistory accessible quota items fst snd]).

Lemma resume_world s t (continuation : JS Task) :
  world (resume s t continuation) = (continuation (world s)).2.
Proof.
  unfold resume. destruct (continuation (world s)) as [[task|e] w];
    reflexivity.
Qed.

Lemma submit_world s now :
  world (submit s now) = (handleSendMessage now (world s)).2.
Proof.
  unfold submit. destruct (handleSendMessage now (world s)) as [[task|e] w];
    reflexivity.
Qed.

Lemma checkApiKey_history w : chatHistory (checkApiKey w).2 = chatHistory w.
Proof.
  unfold checkApiKey, mbind, JS_bind.
  destruct (accessible (localStorage w)) eqn:Hacc.
  - rewrite getApiKey_accessible by exact Hacc.
    destruct (items (localStorage w) !! STORAGE_KEYS.API_KEY) as [[|k key]|];
      destruct w; reflexivity.
  - rewrite getApiKey_inaccessible by exact Hacc. destruct w; reflexivity.
Qed.

Lemma catch_history loadingId error w :
  chatHistory (handleSendMessage_catch loadingId error w).2 = chatHistory w.
Proof.
  destruct (handleSendMessage_catch_effect loadingId error w)
    as (w' & -> & Hch & _). exact Hch.
Qed.

Lemma handleSendMessage_history now w :
  exists added,
    chatHistory (handleSendMessage now w).2 = chatHistory w ++ added /\
    Forall own_message added.
Proof.
  unfold handleSendMessage. destruct w as [ls con vw rq ci sb ak ch]. js_run.
  destruct (trim ci) as [|c content] eqn:Hin.
  { exists []. js_run. rewrite app_nil_r. auto. }
  js_run. exists [message_object (js "user") (c :: content)].
  split; [|constructor; [left; eauto|constructor]].
  set (user := message_object (js "user") (c :: content)).
  set (w0 := {| localStorage := ls; console := con;
                view := vw ++ [renderUserMessage (c :: content)];
                requests := rq; chatInput := ci; sendBtn_disabled := sb;
                apiKeyInput := ak; chatHistory := ch ++ [user] |}).
  pose proof (saveHistory_normal (ch ++ [user]) w0) as Hsave.
  destruct (saveHistory_frame (ch ++ [user]) w0) as (Hch & _).
  destruct (saveHistory (ch ++ [user]) w0) as [r w1].
  cbn [snd] in *. injection Hsave as ->.
  js_run. destruct w1 as [ls1 con1 vw1 rq1 ci1 sb1 ak1 ch1].
  cbn [chatHistory] in Hch. subst ch1. subst w0. js_run.
  destruct (accessible ls1) eqn:Hacc.
  - rewrite getApiKey_accessible by exact Hacc. js_run.
    destruct (items ls1 !! STORAGE_KEYS.API_KEY) as [[|k key]|]; js_run.
    + rewrite handleSendMessage_catch_other by reflexivity. reflexivity.
    + unfold sendMessage_fetch. js_run. reflexivity.
    + rewrite handleSendMessage_catch_other by reflexivity. reflexivity.
  - rewrite getApiKey_inaccessible by exact Hacc. js_run.
    rewrite handleSendMessage_catch_other by reflexivity. reflexivity.
Qed.

Lemma handleSendMessage_response_history loadingId outcome now w :
  chatHistory (handleSendMessage_response loadingId outcome now w).2
  = chatHistory w.
Proof.
  unfold handleSendMessage_response, try_catch, mbind, JS_bind.
  assert (Hsettled : (sendMessage_settled outcome w).2 = w).
  { unfold sendMessage_settled. destruct outcome as [e|status];
      [reflexivity|].
    destruct (negb (ok status)).
    - destruct (status =? 401); reflexivity.
    - destruct (null_body_status status); reflexivity. }
  destruct (sendMessage_settled outcome w) as [[[]|e] w1];
    cbn [snd] in Hsettled; subst w1.
  - destruct w; reflexivity.
  - pose proof (catch_history loadingId e w) as Hch.
    destruct (handleSendMessage_catch loadingId e w) as [[[]|e'] w2];
      exact Hch.
Qed.

Lemma handleSendMessage_read_history loadingId aiMessageId decoder outcome w :
  exists added,
    chatHistory
      (handleSendMessage_read loadingId aiMessageId decoder outcome w).2
    = chatHistory w ++ added /\
    Forall own_message added.
Proof.
  destruct outcome as [text| |error].
  - exists []. rewrite handleSendMessage_read_chunk, app_nil_r.
    split; [destruct w; reflexivity|constructor].
  - exists [message_object (js "assistant") (fullResponse decoder)].
    split; [|constructor; [right; eauto|constructor]].
    rewrite handleSendMessage_read_done. cbn [snd].
    destruct (saveHistory_frame
                (chatHistory w ++
                 [message_object (js "assistant") (fullResponse decoder)])
                (set_chatHistory
                   (chatHistory w ++
                    [message_object (js "assistant") (fullResponse decoder)])
                   w)) as (-> & _).
    destruct w; reflexivity.
  - exists []. rewrite app_nil_r. split; [|constructor].
    unfold handleSendMessage_read, try_catch, mbind, JS_bind.
    unfold console_error, update, throw.
    set (w0 := set_console _ w).
    pose proof (catch_history loadingId error w0) as Hch.
    destruct (handleSendMessage_catch loadingId error w0) as [[[]|e'] w2];
      cbv beta iota delta [mret JS_ret]; cbn [snd] in *; rewrite Hch;
      subst w0; destruct w; reflexivity.
Qed.

Lemma handleSaveApiKey_history w :
  chatHistory (handleSaveApiKey w).2 = chatHistory w.
Proof.
  unfold handleSaveApiKey. destruct w as [ls con vw rq ci sb ak ch]. js_run.
  destruct (trim ak) as [|k key]; [reflexivity|]. js_run.
  destruct (storage_accepts ls STORAGE_KEYS.API_KEY (k :: key)) eqn:Hfits.
  - rewrite saveApiKey_accepted by exact Hfits. js_run.
    unfold checkApiKey. js_run.
    rewrite getApiKey_accessible by reflexivity. js_run.
    rewrite lookup_insert_eq. reflexivity.
  - destruct (saveApiKey_refused (k :: key)
                {| localStorage := ls; console := con; view := vw;
                   requests := rq; chatInput := ci; sendBtn_disabled := sb;
                   apiKeyInput := ak; chatHistory := ch |} Hfits)
      as [e ->].
    reflexivity.
Qed.

Lemma handleClearApiKey_history w :
  chatHistory (handleClearApiKey_confirmed w).2 = chatHistory w.
Proof.
  unfold handleClearApiKey_confirmed, mbind, JS_bind.
  assert (Hremove : exists w1, removeApiKey w = (Normal tt, w1) /\
                               chatHistory w1 = chatHistory w).
  { destruct (accessible (localStorage w)) eqn:Hacc.
    - rewrite removeApiKey_accessible by exact Hacc.
      eexists; split; [reflexivity|]. destruct w; reflexivity.
    - rewrite removeApiKey_inaccessible by exact Hacc.
      eexists; split; [reflexivity|]. destruct w; reflexivity. }
  destruct Hremove as (w1 & -> & Hch1).
  pose proof (checkApiKey_history w1) as Hch2.
  destruct (checkApiKey w1) as [[[]|e] w2]; cbn [snd] in *.
  - rewrite <- Hch1, <- Hch2. destruct w2; reflexivity.
  - congruence.
Qed.

Lemma handleOpenModal_history w :
  chatHistory (handleOpenModal w).2 = chatHistory w.
Proof.
  unfold handleOpenModal, mbind, JS_bind.
  pose proof (checkApiKey_history w) as Hch.
  destruct (checkApiKey w) as [[[]|e] w2]; cbn [snd] in *.
  - rewrite <- Hch. destruct w2; reflexivity.
  - exact Hch.
Qed.

(** One event other than the clearing of the history. *)
Lemma step_history s e :
  e <> ConfirmClearHistory ->
  exists added,
    chatHistory (world (step s e)) = chatHistory (world s) ++ added /\
    Forall own_message added.
Proof.
  intros Hne.
  assert (Hsame : chatHistory (world (step s e)) = chatHistory (world s) ->
                  exists added,
                    chatHistory (world (step s e))
                    = chatHistory (world s) ++ added /\
                    Forall own_message added).
  { intros ->. exists []. rewrite app_nil_r. auto. }
  destruct e as [text|now|now|t outcome now|t outcome|text| | | |];
    cbn [step] in *.
  - apply Hsame. unfold handle, handleInputChange. cbn [world].
    destruct (world s); reflexivity.
  - destruct (sendBtn_disabled (world s)); [apply Hsame; reflexivity|].
    rewrite submit_world. apply handleSendMessage_history.
  - rewrite submit_world. apply handleSendMessage_history.
  - apply Hsame.
    destruct (tasks s !! t) as [[loadingId| |]|]; try reflexivity.
    rewrite resume_world. apply handleSendMessage_response_history.
  - destruct (tasks s !! t) as [[|loadingId aiMessageId decoder|]|];
      try (apply Hsame; reflexivity).
    rewrite resume_world. apply handleSendMessage_read_history.
  - apply Hsame. cbn [world]. destruct (world s); reflexivity.
  - apply Hsame. unfold handle. cbn [world]. apply handleSaveApiKey_history.
  - apply Hsame. unfold handle. cbn [world]. apply handleClearApiKey_history.
  - contradiction.
  - apply Hsame. unfold handle. cbn [world]. apply handleOpenModal_history.
Qed.

(** X22.  The history is append-only.  Over any sequence of events
    without the confirmed clearing of the history, the history at the
    end is the history at the start followed by messages the page
    added: non-empty user messages and assistant replies.  No event
    rewrites, reorders or drops a message. *)
Theorem history_append_only (events : list Event) (s : Session) :
  ConfirmClearHistory ∉ events ->
  exists added,
    chatHistory (world (run s events)) = chatHistory (world s) ++ added /\
    Forall own_message added.
Proof.
  revert s. induction events as [|e events IH]; intros s Hclear.
  - exists []. cbn [run fold_left]. rewrite app_nil_r. auto.
  - apply not_elem_of_cons in Hclear as [Hne Hclear].
    destruct (step_history s e) as (added1 & Hstep & Hown1);
      [congruence|].
    destruct (IH (step s e) Hclear) as (added2 & Hrun & Hown2).
    exists (added1 ++ added2). split.
    + change (run s (e :: events)) with (run (step s e) events).
      rewrite Hrun, Hstep, app_assoc. reflexivity.
    + apply Forall_app. auto.
Qed.

(** X23.  The send button follows the input: it is disabled exactly
    when the text is white space only; then a click does nothing at
    all, and the Enter key adds no message, sends no request and tells
    the view nothing. *)
Theorem blank_message_not_sent (s : Session) (text : jsstring) (now : N) :
  let s1 := step s (Input text) in
  sendBtn_disabled (world s1)
  = (match trim text with [] => true | _ => false end) /\
  (trim text = [] ->
   step s1 (ClickSend now) = s1 /\
   step s1 (PressEnter now)
   = {| world := world s1; tasks := tasks s1 ++ [Finished] |}).
Proof.
  intros s1. subst s1. cbn [step]. unfold handle, handleInputChange.
  cbn [world tasks]. destruct (world s) as [ls con vw rq ci sb ak ch].
  js_run. split.
  - destruct (trim text); reflexivity.
  - intros Hblank. rewrite Hblank. cbn [negb]. split; [reflexivity|].
    unfold submit, handleSendMessage. cbn [world tasks]. js_run.
    rewrite Hblank. reflexivity.
Qed.
End HistoryExtras.

(* ================================================================== *)
(** * The renderer and the modal *)
(* ================================================================== *)

Section RendererExtras.
Context `{Engine}.
Import CHAT_CONFIG StorageManager ChatController MessageRenderer.

Lemma escape_char_no_brackets c : no_brackets (escape_char c) = true.
Proof.
  unfold escape_char.
  destruct (c =? 38); [reflexivity|].
  destruct (c =? 160); [reflexivity|].
  destruct (c =? 60) eqn:Hlt; [reflexivity|].
  destruct (c =? 62) eqn:Hgt; [reflexivity|].
  unfold no_brackets. cbn [forallb]. rewrite Hlt, Hgt. reflexivity.
Qed.

Lemma no_brackets_app a b :
  no_brackets (a ++ b) = no_brackets a && no_brackets b.
Proof. apply forallb_app. Qed.

Lemma escape_char_piece c :
  c <> LF ->
  replace_newlines (escape_char c) = escape_char c /\
  plain (escape_char c) = true.
Proof.
  intros Hlf. apply N.eqb_neq in Hlf. unfold escape_char.
  destruct (c =? 38); [split; reflexivity|].
  destruct (c =? 160); [split; reflexivity|].
  destruct (c =? 60) eqn:Hlt; [split; reflexivity|].
  destruct (c =? 62) eqn:Hgt; [split; reflexivity|].
  unfold replace_newlines, plain. cbn [flat_map forallb app].
  rewrite Hlf, Hlt, Hgt. split; reflexivity.
Qed.

Lemma replace_newlines_app a b :
  replace_newlines (a ++ b) = replace_newlines a ++ replace_newlines b.
Proof. apply flat_map_app. Qed.

(** X24.  What the renderer puts into the page as markup.  The
    escaped text holds no angle bracket; the formatted text is, code
    unit by code unit of the text, a sequence of pieces each of which
    is the line break element or holds no angle bracket and no line
    feed: the only markup a message can bring is the line break the
    renderer writes for a line feed. *)
Theorem formatText_markup (text : jsstring) :
  no_brackets (escapeHtml text) = true /\
  exists pieces,
    formatText text = concat pieces /\
    length pieces = length text /\
    Forall (fun piece => piece = js "<br>" \/ plain piece = true) pieces /\
    length (filter (fun piece => piece = js "<br>") pieces)
    = length (filter (fun c => c = LF) text).
Proof.
  split.
  - induction text as [|c text IH]; [reflexivity|].
    change (escapeHtml (c :: text)) with (escape_char c ++ escapeHtml text).
    rewrite no_brackets_app, escape_char_no_brackets, IH. reflexivity.
  - induction text as [|c text (pieces & Hfmt & Hlen & Hall & Hbr)].
    + exists []. repeat split; constructor.
    + exists (replace_newlines (escape_char c) :: pieces).
      assert (Hhead : formatText (c :: text)
                      = replace_newlines (escape_char c) ++ formatText text).
      { unfold formatText.
        change (escapeHtml (c :: text))
          with (escape_char c ++ escapeHtml text).
        apply replace_newlines_app. }
      rewrite Hhead, Hfmt. cbn [concat length].
      split; [reflexivity|]. split; [congruence|].
      destruct (decide (c = LF)) as [-> | Hlf].
      * change (replace_newlines (escape_char LF)) with (js "<br>").
        split; [constructor; auto|].
        rewrite !filter_cons_True by reflexivity. cbn [length]. congruence.
      * destruct (escape_char_piece c Hlf) as [-> Hplain].
        split; [constructor; auto|].
        rewrite (filter_cons_False _ _ text) by exact Hlf.
        rewrite filter_cons_False; [exact Hbr|].
        intros Heq. rewrite Heq in Hplain. discriminate Hplain.
Qed.

(** X25.  Opening the modal shows the chat when the store holds a
    credential that is not the empty string, and the credential form
    otherwise; it changes neither the history nor the requests nor
    the calls in flight. *)
Theorem modal_shows_view_by_credential (s : Session) :
  let s' := step s OpenModal in
  view (world s')
  = view (world s) ++
    [match stored_credential (world s) with
     | Some (_ :: _) => showChatView
     | _ => showAuthView
     end; scrollToBottom] /\
  chatHistory (world s') = chatHistory (world s) /\
  stored_history (world s') = stored_history (world s) /\
  stored_credential (world s') = stored_credential (world s) /\
  requests (world s') = requests (world s) /\
  tasks s' = tasks s.
Proof.
  intros s'. subst s'. cbn [step]. unfold handle. cbn [world tasks].
  unfold handleOpenModal, checkApiKey, mbind, JS_bind.
  unfold stored_credential, stored_history.
  destruct (world s) as [ls con vw rq ci sb ak ch]. cbn [localStorage].
  destruct (accessible ls) eqn:Hacc.
  - rewrite getApiKey_accessible by exact Hacc. cbn [localStorage].
    destruct (items ls !! STORAGE_KEYS.API_KEY) as [[|k key]|] eqn:Hitem;
      unfold call_view, update, set_view;
      cbn [localStorage view chatHistory requests items accessible fst snd];
      rewrite ?Hacc, ?Hitem, <- app_assoc; auto 10.
  - rewrite getApiKey_inaccessible by exact Hacc.
    unfold call_view, update, set_view, set_console.
    cbn [localStorage view chatHistory requests items accessible fst snd].
    rewrite ?Hacc, <- app_assoc. auto 10.
Qed.
End RendererExtras.

(* ================================================================== *)
(** * The sentinel and the blocked storage *)
(* ================================================================== *)

Section SentinelExtras.
Context `{Engine}.
Import CHAT_CONFIG StreamProcessor StorageManager ChatController.

(** X26.  The sentinel does not end the stream.  The line
    [data: [DONE]], with any white space around it, yields nothing and
    can be removed from any stream without changing what
    [processStream] reports: what follows it is decoded like what
    precedes it, and the stream ends when the reads complete. *)
Theorem sentinel_is_not_terminal
    (error : Type) (done a b : jsstring) (before after : list jsstring) :
  LF ∉ done ->
  trim done = SSE.DATA_PREFIX ++ SSE.DONE_MESSAGE ->
  tail_line (concat before ++ a) = [] ->
  processStream (error := error)
    (reader_of_chunks (before ++ [a ++ done ++ LF :: b] ++ after))
  = processStream (reader_of_chunks (before ++ [a ++ b] ++ after)).
Proof.
  intros Hdone Hsentinel Htail.
  rewrite !processStream_chunks. unfold final_text.
  rewrite run_silent_line; auto using fragment_silent, parseSSELine_sentinel.
Qed.

(** X27.  A storage the page may not use.  Every access throws inside
    [StorageManager]; each function but [saveApiKey] catches it, logs
    it and returns: no credential, the empty history, nothing saved,
    nothing removed.  The page loads with an empty conversation. *)
Theorem blocked_storage_contained (w : World) :
  accessible (localStorage w) = false ->
  let logged label := set_console (console w ++ [(label, SecurityError)]) w in
  getApiKey w = (Normal None, logged (js "Failed to get API key:")) /\
  removeApiKey w = (Normal tt, logged (js "Failed to remove API key:")) /\
  clearHistory w = (Normal tt, logged (js "Failed to clear history:")) /\
  (forall history,
     saveHistory history w
     = (Normal tt, logged (js "Failed to save history:"))) /\
  (forall key,
     saveApiKey key w
     = (Throw (Error (js "无法保存 API Key")),
        logged (js "Failed to save API key:"))) /\
  getHistory w
  = (Normal (JSArray []),
     set_console
       (console w ++ [(js "Failed to load history:", SecurityError);
                      (js "Failed to clear history:", SecurityError)]) w) /\
  exists s,
    boot (localStorage w) = Some s /\
    chatHistory (world s) = [] /\ view (world s) = [].
Proof.
  intros Hacc logged. subst logged. cbv beta.
  split; [apply getApiKey_inaccessible, Hacc|].
  split; [apply removeApiKey_inaccessible, Hacc|].
  split; [apply clearHistory_inaccessible, Hacc|].
  split.
  { intros history.
    unfold saveHistory, try_catch, localStorage_setItem. cbv zeta.
    rewrite Hacc. reflexivity. }
  split.
  { intros key.
    unfold saveApiKey, try_catch, localStorage_setItem. cbv zeta.
    rewrite Hacc. reflexivity. }
  split; [apply getHistory_inaccessible, Hacc|].
  destruct (boot_empty (localStorage w)) as (s & Hboot & _ & Hch & Hvw & _);
    [left; exact Hacc|].
  exists s. auto.
Qed.
End SentinelExtras.

(* ================================================================== *)
(** * Closed examples, on the reference engine *)
(* ================================================================== *)

#[local] Existing Instance RefEngine.engine.
Import CHAT_CONFIG StreamProcessor StorageManager ChatAPIClient ChatController.
Import Examples.

(** C1, counterexample.  A reply that opens with two line breaks, one
    per data line: read in one chunk both are stripped, read in two
    chunks only the first one is. *)
Lemma chunk_boundary_counterexample :
  let line1 := data_line "\n" ++ [LF] in
  let line2 := data_line "\nhi" ++ [LF] in
  processStream (error := Exception) (reader_of_chunks [line1; line2])
    = inr ([[]; LF :: js "hi"], LF :: js "hi") /\
  processStream (error := Exception) (reader_of_chunks [concat [line1; line2]])
    = inr ([js "hi"], js "hi").
Proof. split; vm_compute; reflexivity. Qed.

Lemma chunk_boundary_invariance_witness :
  let chunks :=
    [jq "data: {'choices':[{'delta':{'content':'He";
     jq "llo'}}]}" ++ [LF] ++ data_line " wor";
     [LF] ++ data_line "ld" ++ [LF] ++ js "data: [DONE]" ++ [LF]] in
  strip_confined (concat chunks) /\
  exists calls calls',
    processStream (error := Exception) (reader_of_chunks chunks)
      = inr (calls, js "Hello world") /\
    processStream (error := Exception) (reader_of_chunks [concat chunks])
      = inr (calls', js "Hello world").
Proof.
  intros chunks.
  assert (Hconf : strip_confined (concat chunks)) by (vm_compute; lia).
  split; [exact Hconf|].
  destruct (chunk_boundary_invariance Exception chunks Hconf)
    as (calls & calls' & text & H1 & H2 & Htext).
  assert (Hreply : text = js "Hello world")
    by (rewrite Htext; vm_compute; reflexivity).
  rewrite Hreply in H1, H2. exists calls, calls'. split; assumption.
Defined.

(** C2, counterexample.  The stream completes while the buffer holds a
    well-formed data line without newline: its content is not in the
    text handed to [onComplete]. *)
Lemma final_line_counterexample :
  let chunk1 := data_line "Hello" ++ [LF] in
  let chunk2 := data_line " world" in
  parseSSELine chunk2 = JSString (js " world") /\
  buffer (fold_left consume [chunk1; chunk2] initial) = chunk2 /\
  processStream (error := Exception) (reader_of_chunks [chunk1; chunk2])
    = inr ([js "Hello"], js "Hello").
Proof. repeat split; vm_compute; reflexivity. Qed.

Lemma unterminated_line_discarded_witness :
  let chunk := data_line "Hello" ++ [LF] in
  let t := data_line " world" in
  (LF ∉ t) /\
  processStream (error := Exception) (reader_of_chunks ([] ++ [chunk ++ t]))
  = processStream (reader_of_chunks ([] ++ [chunk])).
Proof.
  intros chunk t.
  assert (Hn : LF ∉ t) by (apply not_elem_of_forallb; reflexivity).
  split; [exact Hn|].
  exact (unterminated_line_discarded Exception [] chunk t Hn).
Defined.

Lemma extractContent_reasoning_before_content_witness :
  let line :=
    jq "data: {'choices':[{'delta':{'content':'world','reasoning_content':'thinking... '}}]}" in
  parseSSELine line = JSString (js "thinking... world").
Proof.
  intros line.
  set (fields := [(js "content", JSString (js "world"));
                  (js "reasoning_content", JSString (js "thinking... "))]
                 : list (jsstring * value)).
  refine (proj1 (proj2
    (extractContent_reasoning_before_content line
       (JSObject [(js "choices", JSArray [JSObject [(js "delta", JSObject fields)]])])
       fields (Some (js "thinking... ")) (Some (js "world"))
       _ _ _ _ _ _))).
  - reflexivity.
  - vm_compute. discriminate.
  - reflexivity.
  - reflexivity.
  - reflexivity.
  - reflexivity.
Defined.

Lemma malformed_line_skipped_witness :
  let line1 := data_line "Hello" in
  let bad := jq "data: {'choices':[{'delta':" in
  let line2 := data_line " world" in
  parseSSELine bad = empty_string /\
  final_text [line1 ++ LF :: bad ++ LF :: line2 ++ [LF]] = js "Hello world".
Proof.
  intros line1 bad line2.
  destruct (malformed_line_skipped Exception bad line1 line2 [] [] [] [])
    as (Hbad & Htext & _).
  - apply not_elem_of_forallb; reflexivity.
  - apply not_elem_of_forallb; reflexivity.
  - apply not_elem_of_forallb; reflexivity.
  - reflexivity.
  - reflexivity.
  - reflexivity.
  - split; [exact Hbad|]. rewrite Htext. vm_compute. reflexivity.
Defined.

Lemma unexpected_shape_yields_nothing_witness :
  let line := jq "data: {'id':'x','choices':[]}" in
  let line1 := data_line "Hello" ++ [LF] in
  parseSSELine line = empty_string /\
  processStream (error := Exception)
    (reader_of_chunks ([] ++ [line1 ++ line ++ LF :: []] ++ []))
  = inr ([js "Hello"], js "Hello").
Proof.
  intros line line1.
  destruct (unexpected_shape_yields_nothing Exception line line1 [] 
              (JSObject [(js "id", JSString (js "x"));
                         (js "choices", JSArray [])]) [] [])
    as (Hline & Hstream).
  - apply not_elem_of_forallb; reflexivity.
  - reflexivity.
  - reflexivity.
  - reflexivity.
  - reflexivity.
  - split; [exact Hline|]. rewrite Hstream. vm_compute. reflexivity.
Defined.

(** C3, counterexample.  A second message is submitted while the first
    request is still awaited: it is appended to the history, the
    history is saved again, and a second request is made. *)
Lemma double_submit_counterexample :
  let s1 := run (page store_with_key)
              [Input (js "first"); PressEnter 1; Input (js "second")] in
  let s2 := step s1 (PressEnter 2) in
  tasks s1 = [AwaitingResponse (js "loading-1")] /\
  busy s1 = true /\
  chatHistory (world s1) = [message_object (js "user") (js "first")] /\
  chatHistory (world s2)
  = [message_object (js "user") (js "first");
     message_object (js "user") (js "second")] /\
  stored_history (world s1)
  = Some (jq "[{'role':'user','content':'first'}]") /\
  stored_history (world s2)
  = Some (jq "[{'role':'user','content':'first'},{'role':'user','content':'second'}]") /\
  length (requests (world s1)) = 1%nat /\
  length (requests (world s2)) = 2%nat /\
  tasks s2
  = [AwaitingResponse (js "loading-1"); AwaitingResponse (js "loading-2")].
Proof. repeat split; vm_compute; reflexivity. Qed.

Lemma submit_ignores_in_flight_witness :
  let s := run (page store_with_key)
             [Input (js "first"); PressEnter 1; Input (js "second")] in
  busy s = true /\
  trim (chatInput (world s)) = js "second" /\
  stored_credential (world s) = Some (js "sk-test") /\
  chatHistory (world (step s (PressEnter 2)))
  = chatHistory (world s) ++ [message_object (js "user") (js "second")] /\
  length (requests (world (step s (PressEnter 2))))
  = S (length (requests (world s))).
Proof.
  intros s.
  assert (Hbusy : busy s = true) by (vm_compute; reflexivity).
  assert (Hin : trim (chatInput (world s)) = js "second")
    by (vm_compute; reflexivity).
  assert (Hkey : stored_credential (world s) = Some (js "sk-test"))
    by (vm_compute; reflexivity).
  destruct (proj1 (proj2 (submit_ignores_in_flight s 2))
              115 (js "econd") 115 (js "k-test") Hin Hkey)
    as (Hhist & _ & Hreq & _).
  split; [exact Hbusy|]. split; [exact Hin|]. split; [exact Hkey|].
  split; [exact Hhist|]. rewrite Hreq, length_app. apply Nat.add_1_r.
Defined.

(** C4, counterexample.  The storage has no room for the history
    record: the write at submission is refused and swallowed, and
    after the 401 the history in memory holds the user's message while
    the storage holds no record of it. *)
Lemma unsaved_message_counterexample :
  let s := step (page store_tight) (Input (js "hi")) in
  let s2 := run s [PressEnter 1; FetchSettles 0 (Response 401) 2] in
  let user := message_object (js "user") (js "hi") in
  stored_credential (world s) = Some (js "sk-test") /\
  storage_accepts (localStorage (world s)) STORAGE_KEYS.CHAT_HISTORY
    (JSON_stringify (JSArray [user])) = false /\
  chatHistory (world s2) = [user] /\
  stored_history (world s2) = None /\
  stored_credential (world s2) = None.
Proof. repeat split; vm_compute; reflexivity. Qed.

Lemma authentication_failure_witness :
  let s := step (page store_with_key) (Input (js " hi ")) in
  let s2 := step (step s (PressEnter 1))
              (FetchSettles (length (tasks s)) (Response 401) 2) in
  trim (chatInput (world s)) = js "hi" /\
  stored_credential (world s) = Some (js "sk-test") /\
  stored_credential (world s2) = None /\
  chatHistory (world s2) = [message_object (js "user") (js "hi")] /\
  stored_history (world s2) = Some (jq "[{'role':'user','content':'hi'}]") /\
  view (world s2)
  = [renderUserMessage (js "hi"); renderLoading;
     removeMessage (js "loading-1");
     renderError (js "认证失败，API Key 无效。请重新输入。");
     showAuthView].
Proof.
  intros s s2.
  assert (Hin : trim (chatInput (world s)) = js "hi")
    by (vm_compute; reflexivity).
  assert (Hkey : stored_credential (world s) = Some (js "sk-test"))
    by (vm_compute; reflexivity).
  destruct (authentication_failure s 1 2 104 (js "i") 115 (js "k-test")
              Hin Hkey)
    as (_ & _ & Hcred & Hhist & _ & Hrecord & Hview & _).
  subst s2.
  split; [exact Hin|]. split; [exact Hkey|]. split; [exact Hcred|].
  split; [rewrite Hhist; vm_compute; reflexivity|].
  split; [rewrite Hrecord; vm_compute; reflexivity|].
  rewrite Hview. vm_compute. reflexivity.
Defined.

(** C5, counterexample.  The empty string fails to decode, and
    [getHistory] returns the empty history without a log entry and
    leaves the record in the store. *)
Lemma empty_record_counterexample :
  let w := fresh {| accessible := true; quota := 4096;
                    items := {[ STORAGE_KEYS.CHAT_HISTORY := [] ]} |} in
  JSON_parse [] = None /\
  stored_history w = Some [] /\
  (getHistory w).1 = Normal (JSArray []) /\
  console (getHistory w).2 = [] /\
  stored_history (getHistory w).2 = Some [].
Proof. repeat split; vm_compute; reflexivity. Qed.

(** The record is a JSON array cut short; 91 is its opening bracket. *)
Lemma getHistory_self_heals_witness :
  let record := 91 :: jq "{'role':'user','content':'hi'" in
  let w := fresh {| accessible := true; quota := 4096;
                    items := {[ STORAGE_KEYS.CHAT_HISTORY := record ]} |} in
  accessible (localStorage w) = true /\
  stored_history w = Some record /\
  JSON_parse record = None /\
  exists w', getHistory w = (Normal (JSArray []), w') /\
             stored_history w' = None.
Proof.
  intros record w.
  assert (Hacc : accessible (localStorage w) = true) by reflexivity.
  assert (Hrec : stored_history w
                 = Some (91 :: jq "{'role':'user','content':'hi'"))
    by (vm_compute; reflexivity).
  assert (Hbad : JSON_parse (91 :: jq "{'role':'user','content':'hi'") = None)
    by (vm_compute; reflexivity).
  split; [exact Hacc|]. split; [exact Hrec|]. split; [exact Hbad|].
  destruct (proj1 (proj2 (getHistory_self_heals w))
              91 (jq "{'role':'user','content':'hi'") Hacc Hrec Hbad)
    as (w' & Hget & Hgone & _).
  exists w'. split; assumption.
Defined.



(** The run of the example above, evaluated. *)
Lemma persisted_after_one_exchange :
  stored_history
    (world (run (page store_with_key)
              [Input (js "hi"); PressEnter 1; FetchSettles 0 (Response 200) 2;
               ReadSettles 0 (ReadChunk (data_line "Hello" ++ [LF]));
               ReadSettles 0 ReadDone]))
  = Some (jq "[{'role':'user','content':'hi'},{'role':'assistant','content':'Hello'}]").
Proof. vm_compute. reflexivity. Qed.

(** C9, counterexample.  The storage refuses the write: [saveApiKey]
    logs the failure and throws. *)
Lemma saveApiKey_counterexample :
  storage_accepts store_full STORAGE_KEYS.API_KEY (js "sk-test") = false /\
  (saveApiKey (js "sk-test") (fresh store_full)).1
  = Throw (Error (js "无法保存 API Key")) /\
  console (saveApiKey (js "sk-test") (fresh store_full)).2
  = [(js "Failed to save API key:", QuotaExceededError)].
Proof. repeat split; vm_compute; reflexivity. Qed.

Lemma storage_write_failures_witness :
  let key := 115 :: js "k-test" in
  let w := set_apiKeyInput key (fresh store_full) in
  trim (apiKeyInput w) = key /\
  storage_accepts (localStorage w) STORAGE_KEYS.API_KEY key = false /\
  exists w',
    handleSaveApiKey w = (Normal tt, w') /\
    localStorage w' = localStorage w /\
    view w' = view w ++ [showToast (js "保存失败，请重试")].
Proof.
  intros key w.
  assert (Hin : trim (apiKeyInput w) = 115 :: js "k-test")
    by (vm_compute; reflexivity).
  assert (Hfull : storage_accepts (localStorage w) STORAGE_KEYS.API_KEY
                    (115 :: js "k-test") = false)
    by (vm_compute; reflexivity).
  split; [exact Hin|]. split; [exact Hfull|].
  exact (proj2 (proj2 (proj2 (storage_write_failures w)))
           115 (js "k-test") Hin Hfull).
Defined.

(** ** Beyond the claims *)


Lemma other_lines_ignored_witness :
  let line := js ": keep-alive" in
  let a := data_line "Hello" ++ [LF] in
  let b := data_line " world" ++ [LF] in
  (LF ∉ line) /\
  startsWith (trim line) SSE.DATA_PREFIX = false /\
  tail_line (concat [] ++ a) = [] /\
  processStream (error := Exception)
    (reader_of_chunks ([] ++ [a ++ line ++ LF :: b] ++ []))
  = inr ([js "Hello world"], js "Hello world").
Proof.
  intros line a b.
  assert (Hline : LF ∉ line) by (apply not_elem_of_forallb; reflexivity).
  assert (Hprefix : startsWith (trim line) SSE.DATA_PREFIX = false)
    by (vm_compute; reflexivity).
  assert (Htail : tail_line (concat [] ++ a) = [])
    by (vm_compute; reflexivity).
  split; [exact Hline|]. split; [exact Hprefix|]. split; [exact Htail|].
  rewrite (proj2 (other_lines_ignored Exception line a b [] []
                    Hline Hprefix Htail)).
  vm_compute. reflexivity.
Defined.

Lemma cut_inside_line_invisible_witness :
  let a := jq "data: {'choices':[{'delta':{'content':'He" in
  let c := jq "llo'}}]}" ++ [LF] in
  (LF ∉ a) /\
  processStream (error := Exception) (reader_of_chunks ([] ++ [a; c] ++ []))
  = inr ([js "Hello"], js "Hello").
Proof.
  intros a c.
  assert (Ha : LF ∉ a) by (apply not_elem_of_forallb; reflexivity).
  split; [exact Ha|].
  rewrite (cut_inside_line_invisible Exception [] [] a c Ha).
  vm_compute. reflexivity.
Defined.

Lemma credential_round_trip_witness :
  let w := fresh store_with_history in
  let key := js "sk-new" in
  storage_accepts (localStorage w) STORAGE_KEYS.API_KEY key = true /\
  getApiKey (saveApiKey key w).2 = (Normal (Some key), (saveApiKey key w).2).
Proof.
  intros w key.
  assert (Hfits : storage_accepts (localStorage w) STORAGE_KEYS.API_KEY key
                  = true) by (vm_compute; reflexivity).
  split; [exact Hfits|].
  exact (proj1 (proj2 (credential_round_trip w key Hfits))).
Defined.

Lemma history_round_trip_witness :
  let w := fresh store_with_key in
  let history := [message_object (js "user") (js "hi")] in
  let record := jq "{'role':'user','content':'hi'}]" in
  storage_accepts (localStorage w) STORAGE_KEYS.CHAT_HISTORY
    (JSON_stringify (JSArray history)) = true /\
  JSON_stringify (JSArray history) = 91 :: record /\
  JSON_parse (91 :: record) = Some (JSArray history) /\
  getHistory (saveHistory history w).2
  = (Normal (JSArray history), (saveHistory history w).2).
Proof.
  intros w history record.
  assert (Hfits : storage_accepts (localStorage w) STORAGE_KEYS.CHAT_HISTORY
                    (JSON_stringify (JSArray history)) = true)
    by (vm_compute; reflexivity).
  assert (Hrecord : JSON_stringify (JSArray history) = 91 :: record)
    by (vm_compute; reflexivity).
  assert (Hparse : JSON_parse (91 :: record) = Some (JSArray history))
    by (vm_compute; reflexivity).
  split; [exact Hfits|]. split; [exact Hrecord|]. split; [exact Hparse|].
  exact (proj1 (proj2 (history_round_trip w history 91 record
                         Hfits Hrecord Hparse))).
Defined.

Lemma partial_updates_not_persisted_witness :
  let chunks := [data_line "Hello" ++ [LF]; data_line " world" ++ [LF]] in
  tasks streaming_page !! 0%nat
  = Some (Streaming (js "loading-1") (js "ai-msg-2") initial) /\
  chatHistory (world (run streaming_page (chunk_events 0 chunks)))
  = chatHistory (world streaming_page) /\
  localStorage (world (run streaming_page (chunk_events 0 chunks)))
  = localStorage (world streaming_page).
Proof.
  intros chunks.
  assert (Ht : tasks streaming_page !! 0%nat
               = Some (Streaming (js "loading-1") (js "ai-msg-2") initial))
    by (vm_compute; reflexivity).
  split; [exact Ht|].
  destruct (partial_updates_not_persisted chunks streaming_page 0
              (js "loading-1") (js "ai-msg-2") initial Ht)
    as (_ & Hhist & Hls & _).
  split; [exact Hhist | exact Hls].
Defined.

Lemma completed_exchange_witness :
  let s := step (page store_with_key) (Input (js " hi ")) in
  let chunks := [data_line "Hello" ++ [LF]; data_line " world" ++ [LF]] in
  let s' :=
    run s ([PressEnter 1; FetchSettles (length (tasks s)) (Response 200) 2]
           ++ chunk_events (length (tasks s)) chunks
           ++ [ReadSettles (length (tasks s)) ReadDone]) in
  trim (chatInput (world s)) = 104 :: js "i" /\
  stored_credential (world s) = Some (115 :: js "k-test") /\
  ok 200 = true /\
  null_body_status 200 = false /\
  chatHistory (world s')
  = [message_object (js "user") (js "hi");
     message_object (js "assistant") (js "Hello world")] /\
  tasks s' = [Finished].
Proof.
  intros s chunks s'.
  assert (Hin : trim (chatInput (world s)) = 104 :: js "i")
    by (vm_compute; reflexivity).
  assert (Hkey : stored_credential (world s) = Some (115 :: js "k-test"))
    by (vm_compute; reflexivity).
  assert (Hok : ok 200 = true) by reflexivity.
  assert (Hbody : null_body_status 200 = false) by reflexivity.
  split; [exact Hin|]. split; [exact Hkey|]. split; [exact Hok|].
  split; [exact Hbody|].
  destruct (completed_exchange s 1 2 200 chunks 104 (js "i") 115 (js "k-test")
              Hin Hkey Hok Hbody)
    as (Hhist & _ & Htasks & _).
  subst s'. split.
  - rewrite Hhist. vm_compute. reflexivity.
  - rewrite Htasks. vm_compute. reflexivity.
Defined.

Lemma stream_interrupted_witness :
  let error := Error (js "network error") in
  let s' := step streaming_page (ReadSettles 0 (ReadFailed error)) in
  tasks streaming_page !! 0%nat
  = Some (Streaming (js "loading-1") (js "ai-msg-2") initial) /\
  tasks s' = <[0%nat := Finished]> (tasks streaming_page) /\
  chatHistory (world s') = chatHistory (world streaming_page) /\
  stored_history (world s') = stored_history (world streaming_page).
Proof.
  intros error s'.
  assert (Ht : tasks streaming_page !! 0%nat
               = Some (Streaming (js "loading-1") (js "ai-msg-2") initial))
    by (vm_compute; reflexivity).
  split; [exact Ht|].
  destruct (stream_interrupted streaming_page 0 (js "loading-1")
              (js "ai-msg-2") initial error Ht)
    as (Htasks & Hhist & Hrec & _).
  split; [exact Htasks|]. split; [exact Hhist | exact Hrec].
Defined.

Lemma request_rejected_witness :
  let error := TypeError (js "Failed to fetch") in
  let s' := step awaiting_page (FetchSettles 0 (Rejected error) 2) in
  tasks awaiting_page !! 0%nat = Some (AwaitingResponse (js "loading-1")) /\
  tasks s' = <[0%nat := Finished]> (tasks awaiting_page) /\
  chatHistory (world s') = chatHistory (world awaiting_page) /\
  requests (world s') = requests (world awaiting_page).
Proof.
  intros error s'.
  assert (Ht : tasks awaiting_page !! 0%nat
               = Some (AwaitingResponse (js "loading-1")))
    by (vm_compute; reflexivity).
  split; [exact Ht|].
  destruct (request_rejected awaiting_page 0 (js "loading-1") error 2 Ht)
    as (Htasks & Hhist & _ & Hreq & _).
  split; [exact Htasks|]. split; [exact Hhist | exact Hreq].
Defined.

Lemma submit_without_credential_witness :
  let s := step (page store_empty) (Input (js "hi")) in
  let s' := step s (PressEnter 1) in
  trim (chatInput (world s)) = 104 :: js "i" /\
  (stored_credential (world s) = None \/
   stored_credential (world s) = Some []) /\
  tasks s' = tasks s ++ [Finished] /\
  requests (world s') = requests (world s).
Proof.
  intros s s'.
  assert (Hin : trim (chatInput (world s)) = 104 :: js "i")
    by (vm_compute; reflexivity).
  assert (Hkey : stored_credential (world s) = None \/
                 stored_credential (world s) = Some [])
    by (left; vm_compute; reflexivity).
  split; [exact Hin|]. split; [exact Hkey|].
  destruct (submit_without_credential s 1 104 (js "i") Hin Hkey)
    as (Htasks & _ & Hreq & _).
  split; [exact Htasks | exact Hreq].
Defined.

Lemma credential_saved_trimmed_witness :
  let s := step (page store_empty) (KeyInput (js "  sk-new ")) in
  trim (apiKeyInput (world s)) = 115 :: js "k-new" /\
  storage_accepts (localStorage (world s)) STORAGE_KEYS.API_KEY
    (115 :: js "k-new") = true /\
  stored_credential (world (step s ClickSaveKey)) = Some (115 :: js "k-new") /\
  apiKeyInput (world (step s ClickSaveKey)) = [].
Proof.
  intros s.
  assert (Hin : trim (apiKeyInput (world s)) = 115 :: js "k-new")
    by (vm_compute; reflexivity).
  assert (Hfits : storage_accepts (localStorage (world s))
                    STORAGE_KEYS.API_KEY (115 :: js "k-new") = true)
    by (vm_compute; reflexivity).
  split; [exact Hin|]. split; [exact Hfits|].
  destruct (credential_saved_trimmed s 115 (js "k-new") Hin Hfits)
    as (Hkey & Hfield & _).
  split; [exact Hkey | exact Hfield].
Defined.

Lemma blank_credential_rejected_witness :
  let s := step (page store_empty) (KeyInput (js "   ")) in
  trim (apiKeyInput (world s)) = [] /\
  step s ClickSaveKey
  = {| world :=
         set_view (view (world s) ++ [showToast (js "请输入有效的 API Key")])
           (world s);
       tasks := tasks s |}.
Proof.
  intros s.
  assert (Hin : trim (apiKeyInput (world s)) = [])
    by (vm_compute; reflexivity).
  split; [exact Hin|].
  exact (blank_credential_rejected s Hin).
Defined.

Lemma saved_credential_is_bearer_witness :
  let s := page store_empty in
  let s' := run s [KeyInput (js " sk-new "); ClickSaveKey;
                   Input (js "hi"); PressEnter 1] in
  trim (js " sk-new ") = 115 :: js "k-new" /\
  trim (js "hi") = 104 :: js "i" /\
  storage_accepts (localStorage (world s)) STORAGE_KEYS.API_KEY
    (115 :: js "k-new") = true /\
  map bearer (requests (world s')) = [js "sk-new"].
Proof.
  intros s s'.
  assert (Hkey : trim (js " sk-new ") = 115 :: js "k-new")
    by (vm_compute; reflexivity).
  assert (Htext : trim (js "hi") = 104 :: js "i")
    by (vm_compute; reflexivity).
  assert (Hfits : storage_accepts (localStorage (world s))
                    STORAGE_KEYS.API_KEY (115 :: js "k-new") = true)
    by (vm_compute; reflexivity).
  split; [exact Hkey|]. split; [exact Htext|]. split; [exact Hfits|].
  destruct (saved_credential_is_bearer s (js " sk-new ") (js "hi") 1
              115 (js "k-new") 104 (js "i") Hkey Htext Hfits)
    as (Hreq & _).
  subst s'. rewrite Hreq. vm_compute. reflexivity.
Defined.

Lemma cleared_while_streaming_witness :
  let s' := run streaming_page [ConfirmClearHistory; ReadSettles 0 ReadDone] in
  tasks streaming_page !! 0%nat
  = Some (Streaming (js "loading-1") (js "ai-msg-2") initial) /\
  chatHistory (world s')
  = [message_object (js "assistant") (fullResponse initial)].
Proof.
  intros s'.
  assert (Ht : tasks streaming_page !! 0%nat
               = Some (Streaming (js "loading-1") (js "ai-msg-2") initial))
    by (vm_compute; reflexivity).
  split; [exact Ht|].
  exact (proj1 (cleared_while_streaming streaming_page 0 (js "loading-1")
                  (js "ai-msg-2") initial Ht)).
Defined.

Lemma reload_restores_transcript_witness :
  let record :=
    jq "{'role':'user','content':'hi'},{'role':'assistant','content':'hello'}]" in
  let msgs := [(js "user", js "hi"); (js "assistant", js "hello")] in
  accessible store_with_history = true /\
  items store_with_history !! STORAGE_KEYS.CHAT_HISTORY = Some (91 :: record) /\
  JSON_parse (91 :: record)
  = Some (JSArray (map (fun m => message_object m.1 m.2) msgs)) /\
  exists s,
    boot store_with_history = Some s /\
    view (world s) = [renderUserMessage (js "hi"); renderAIMessage (js "hello")].
Proof.
  intros record msgs.
  assert (Hacc : accessible store_with_history = true) by reflexivity.
  assert (Hrec : items store_with_history !! STORAGE_KEYS.CHAT_HISTORY
                 = Some (91 :: record)) by (vm_compute; reflexivity).
  assert (Hparse : JSON_parse (91 :: record)
                   = Some (JSArray (map (fun m => message_object m.1 m.2) msgs)))
    by (vm_compute; reflexivity).
  split; [exact Hacc|]. split; [exact Hrec|]. split; [exact Hparse|].
  destruct (reload_restores_transcript store_with_history 91 record msgs
              Hacc Hrec Hparse)
    as (s & Hboot & _ & _ & Hview & _).
  exists s. split; [exact Hboot|]. rewrite Hview. vm_compute. reflexivity.
Defined.

Lemma unreadable_record_breaks_init_witness :
  let record := jq "'role':'user'}" in
  let v := JSObject [(js "role", JSString (js "user"))] in
  accessible store_with_object = true /\
  items store_with_object !! STORAGE_KEYS.CHAT_HISTORY = Some (123 :: record) /\
  JSON_parse (123 :: record) = Some v /\
  boot store_with_object = None.
Proof.
  intros record v.
  assert (Hacc : accessible store_with_object = true) by reflexivity.
  assert (Hrec : items store_with_object !! STORAGE_KEYS.CHAT_HISTORY
                 = Some (123 :: record)) by (vm_compute; reflexivity).
  assert (Hparse : JSON_parse (123 :: record) = Some v)
    by (vm_compute; reflexivity).
  split; [exact Hacc|]. split; [exact Hrec|]. split; [exact Hparse|].
  exact (proj1 (unreadable_record_breaks_init store_with_object 123 record v
                  Hacc Hrec Hparse I)).
Defined.

Lemma history_append_only_witness :
  let events :=
    [Input (js "hi"); PressEnter 1; FetchSettles 0 (Response 200) 2;
     ReadSettles 0 (ReadChunk (data_line "Hello" ++ [LF]));
     ReadSettles 0 ReadDone] in
  (ConfirmClearHistory ∉ events) /\
  exists added,
    chatHistory (world (run (page store_with_history) events))
    = chatHistory (world (page store_with_history)) ++ added /\
    Forall own_message added.
Proof.
  intros events.
  assert (Hclear : ConfirmClearHistory ∉ events).
  { intros Hin.
    repeat (apply elem_of_cons in Hin as [Heq|Hin]; [discriminate Heq|]).
    inversion Hin. }
  split; [exact Hclear|].
  exact (history_append_only events (page store_with_history) Hclear).
Defined.

Lemma sentinel_is_not_terminal_witness :
  let done := js "data: [DONE]" ++ [CR] in
  let a := data_line "Hello" ++ [LF] in
  let b := data_line " world" ++ [LF] in
  (LF ∉ done) /\
  trim done = SSE.DATA_PREFIX ++ SSE.DONE_MESSAGE /\
  tail_line (concat [] ++ a) = [] /\
  processStream (error := Exception)
    (reader_of_chunks ([] ++ [a ++ done ++ LF :: b] ++ []))
  = inr ([js "Hello world"], js "Hello world").
Proof.
  intros done a b.
  assert (Hdone : LF ∉ done) by (apply not_elem_of_forallb; reflexivity).
  assert (Hsentinel : trim done = SSE.DATA_PREFIX ++ SSE.DONE_MESSAGE)
    by (vm_compute; reflexivity).
  assert (Htail : tail_line (concat [] ++ a) = [])
    by (vm_compute; reflexivity).
  split; [exact Hdone|]. split; [exact Hsentinel|]. split; [exact Htail|].
  rewrite (sentinel_is_not_terminal Exception done a b [] []
             Hdone Hsentinel Htail).
  vm_compute. reflexivity.
Defined.

Lemma blocked_storage_contained_witness :
  let w := fresh {| accessible := false; quota := 4096; items := ∅ |} in
  accessible (localStorage w) = false /\
  getApiKey w
  = (Normal None,
     set_console
       (console w ++ [(js "Failed to get API key:", SecurityError)]) w).
Proof.
  intros w.
  assert (Hacc : accessible (localStorage w) = false) by reflexivity.
  split; [exact Hacc|].
  exact (proj1 (blocked_storage_contained w Hacc)).
Defined.
